(** * nostreaming: routing and streaming-emulation engine

    A shallow embedding of the gateway's provider directory
    (providers/manager.ts), registry (providers/registry.ts), router
    (providers/router.ts), result type (type/result.ts), model filter
    (utils/filter.ts) and completion handler (handlers/completion.ts),
    with the properties of the specification stated over it. *)

From Stdlib Require Import ZArith QArith.QArith_base Sorting.Sorted.
From stdpp Require Import base option list strings pretty gmap fin_maps.

Set Default Proof Using "Type".

(** ** JavaScript strings

    Strings are sequences of code units; [startsWith], [slice] with one
    argument and [includes] are the [String.prototype] methods the
    sources call. *)
Module Str.

Fixpoint startsWith (s p : string) {struct p} : bool :=
  match p with
  | EmptyString => true
  | String c p' =>
      match s with
      | EmptyString => false
      | String d s' => if Ascii.eqb c d then startsWith s' p' else false
      end
  end.

Fixpoint slice (s : string) (k : nat) {struct k} : string :=
  match k with
  | O => s
  | S k' => match s with
            | EmptyString => EmptyString
            | String _ s' => slice s' k'
            end
  end.

Fixpoint includes (s sub : string) : bool :=
  startsWith s sub ||
  match s with
  | EmptyString => false
  | String _ s' => includes s' sub
  end.

(** The line feed of the frames. *)
Definition nl : string := String (Ascii.ascii_of_nat 10) EmptyString.

(** The double-quote character, for messages that quote a name. *)
Definition dq : string := String (Ascii.ascii_of_nat 34) EmptyString.

(** A string is falsy exactly when it is empty. *)
Definition truthy (s : string) : bool :=
  match s with EmptyString => false | String _ _ => true end.

(** The white space and line terminators among the code units below
    256: TAB, LF, VT, FF, CR, SP and NBSP. *)
Definition isWhiteSpace (c : Ascii.ascii) : bool :=
  bool_decide (Ascii.nat_of_ascii c ∈ [9; 10; 11; 12; 13; 32; 160]).

Fixpoint trimStart (s : string) : string :=
  match s with
  | EmptyString => EmptyString
  | String c s' => if isWhiteSpace c then trimStart s' else s
  end.

Fixpoint trimEnd (s : string) : string :=
  match s with
  | EmptyString => EmptyString
  | String c s' =>
      match trimEnd s' with
      | EmptyString => if isWhiteSpace c then EmptyString else String c EmptyString
      | t => String c t
      end
  end.

(** [String.prototype.trim] *)
Definition trim (s : string) : string := trimEnd (trimStart s).

(** [String.prototype.charAt]: the string of the code unit at the
    index, or the empty string when there is none. *)
Definition charAt (s : string) (i : nat) : string :=
  match String.get i s with
  | Some c => String c EmptyString
  | None => EmptyString
  end.

End Str.

(** ** Runtime values of type/result.ts

    The file declares two overloads, [Result<T>(data: T)] and
    [Result<T>(err: Error)], over one implementation,
    [function Result<T>(data?: T, err?: Error | null)] with the body
    [return createResult<T>(data ?? null, err ?? null)].  Overloads
    exist for the type checker only: at run time the single argument of
    a call is the first parameter, [data], also when it is an [Error]. *)
Module Js.

(** An [Error] object: its class (plain [Error] or [TypeError]) and
    its message. *)
Record Error := MkError { isTypeError : bool; message : string }.

(** [new Error(msg)] *)
Definition newError (msg : string) : Error := MkError false msg.
(** A [TypeError] raised by the engine.  The text of such an error is
    the engine's own; the texts used below stand for it, and no
    statement depends on them. *)
Definition typeError (msg : string) : Error := MkError true msg.

(** What the [data] slot of a result holds at run time.  The static
    type is [T | null], but the slot receives whatever was passed as
    the first argument of [Result], and every failure path of the
    sources passes an [Error] object there. *)
Inductive Payload (T : Type) : Type :=
| PValue (v : T)
| PError (e : Error).
Arguments PValue {T} v.
Arguments PError {T} e.

(** The object behind the proxy of [createResult]: reading the
    property [err] gives [err], reading any other string property
    ([response], [models], [data], ...) gives [data]. *)
Record Result (T : Type) : Type := createResult {
  data : option (Payload T);
  err : option Error
}.
Arguments createResult {T} data err.
Arguments data {T} r.
Arguments err {T} r.

(** [function Result<T>(data?: T, err?: Error | null)] called with one
    argument, as at every call site: the argument is bound to [data]
    whatever it is, [err] is [undefined], and the body is
    [createResult(data ?? null, err ?? null)]. *)
Definition Result_ {T} (arg : option (Payload T)) : Result T :=
  createResult arg None.

(** [Result<T>(value)] and [Result<T>(new Error(..))]. *)
Definition ResultOf {T} (v : T) : Result T := Result_ (Some (PValue v)).
Definition ResultOfError {T} (e : Error) : Result T := Result_ (Some (PError e)).
(** [Result<void>(undefined as void)] *)
Definition ResultVoid {T} : Result T := Result_ None.

(** [isOk: () => err === null] and [isErr: () => err !== null] *)
Definition isOk {T} (r : Result T) : bool :=
  match err r with None => true | Some _ => false end.
Definition isErr {T} (r : Result T) : bool := negb (isOk r).

(** Outcome of running a piece of code: it returns or it throws. *)
Inductive Outcome (A : Type) : Type :=
| Return (a : A)
| Throw (e : Error).
Arguments Return {A} a.
Arguments Throw {A} e.

(** [unwrap: () => { if (err) throw err; return data!; }] *)
Definition unwrap {T} (r : Result T) : Outcome (option (Payload T)) :=
  match err r with
  | Some e => Throw e
  | None => Return (data r)
  end.

End Js.
Export Js.

(** ** Canonical shapes (schemas/openai.ts, providers/types.ts,
       config/schema.ts)

    Each record sits in a module of its own so that the fields keep the
    names of the schema. *)

(** JSON values, as given to [JSON.stringify] and as carried opaquely
    in the tool and function fields of a request. *)
#[local] Unset Elimination Schemes.
Inductive Json :=
| JNull
| JBool (b : bool)
| JNum (n : Q)
| JStr (s : string)
| JArr (items : list Json)
| JObj (fields : list (string * Json)).

#[local] Set Elimination Schemes.

Definition JInt (z : Z) : Json := JNum (inject_Z z).

Module ModelInfo.
(** [extra] holds the provider-specific fields that the index signature
    of the interface lets through. *)
Record t := mk {
  id : string;
  created : option Z;
  owned_by : option string;
  extra : list (string * Json)
}.
End ModelInfo.

Abbreviation ModelsList := (list ModelInfo.t).

Inductive Role := system | user | assistant | function | tool.

Definition Role_to_string (r : Role) : string :=
  match r with
  | system => "system" | user => "user" | assistant => "assistant"
  | function => "function" | tool => "tool"
  end.

Module ChatMessage.
Record t := mk {
  role : Role;
  content : option string;
  name : option string;
  function_call : option (string * string);
  tool_calls : option (list (string * (string * string)))
}.
End ChatMessage.

Module Request.
Record t := mk {
  model : string;
  messages : list ChatMessage.t;
  temperature : option Q;
  top_p : option Q;
  n : option Z;
  stream : option bool;
  stop : option (string + list string);
  max_tokens : option Z;
  presence_penalty : option Q;
  frequency_penalty : option Q;
  logit_bias : option (list (string * Q));
  user : option string;
  functions : option Json;
  function_call : option Json;
  tools : option Json;
  tool_choice : option Json
}.
End Request.

Inductive FinishReason := stop | length | function_call | tool_calls | content_filter.

Definition FinishReason_to_string (r : FinishReason) : string :=
  match r with
  | stop => "stop" | length => "length" | function_call => "function_call"
  | tool_calls => "tool_calls" | content_filter => "content_filter"
  end.

Module Choice.
Record t := mk {
  index : Z;
  message : ChatMessage.t;
  finish_reason : option FinishReason
}.
End Choice.

Module Usage.
Record t := mk {
  prompt_tokens : Z;
  completion_tokens : Z;
  total_tokens : Z
}.
End Usage.

Module Response.
(** The field [object] is the literal [chat.completion] and is left
    out. *)
Record t := mk {
  id : string;
  created : Z;
  model : string;
  choices : list Choice.t;
  usage : Usage.t
}.
End Response.

(** ** The model filter (utils/filter.ts) *)
Module FilterUtil.

Inductive FilterMode := whitelist_mode | blacklist_mode.

(** [models.filter((model) => filterModelIds.has(model.id))] *)
Definition whitelist (models : ModelsList) (filterModelIds : gset string) : ModelsList :=
  filter (λ model, ModelInfo.id model ∈ filterModelIds) models.

(** [models.filter((model) => !filterModelIds.has(model.id))] *)
Definition blacklist (models : ModelsList) (filterModelIds : gset string) : ModelsList :=
  filter (λ model, ModelInfo.id model ∉ filterModelIds) models.

Definition apply (models : ModelsList) (filterModelIds : gset string)
    (mode : FilterMode) : ModelsList :=
  match mode with
  | whitelist_mode => whitelist models filterModelIds
  | blacklist_mode => blacklist models filterModelIds
  end.

End FilterUtil.

(** ** Configuration (config/schema.ts, config/index.ts) *)
Module ProviderFilter.
Record t := mk {
  mode : FilterUtil.FilterMode;
  models : list string
}.
End ProviderFilter.

Module ProviderConfig.
Record t := mk {
  enabled : bool;
  type : string;
  endpoint : string;
  api_key : string;
  filter : option ProviderFilter.t
}.
End ProviderConfig.

Module Config.
(** Modelled from the spec: the [advanced] section of the configuration,
    whose schema is not in config/schema.ts (that file has [maxRetries]
    and [fakeStreamInterval], positive integers, under [app]).  The
    handler reads [config.advanced.maxRetries],
    [config.advanced.fakeStreamInterval] and
    [config.advanced.contentSpoof]; the specification lists the global
    settings [maxRetries] and [fakeStreamInterval]. *)
Record Advanced := mkAdvanced {
  maxRetries : Z;
  fakeStreamInterval : Z;
  contentSpoof : bool
}.
(** [providers] is the record of the configuration file, as the list
    of its entries in the order [Object.entries] enumerates them. *)
Record t := mk {
  advanced : Advanced;
  providers : option (list (string * ProviderConfig.t))
}.

(** [config.providers?.[providerName]] *)
Definition getProviderConfig (config : t) (providerName : string)
    : option ProviderConfig.t :=
  match providers config with
  | None => None
  | Some entries => snd <$> List.find (λ e, String.eqb (fst e) providerName) entries
  end.
End Config.

(** ** Provider clients and the world they run in

    A provider client is an object built by a factory from a name and a
    configuration; what its methods answer is decided upstream.  The
    upstream is a parameter of the development: an answer may depend on
    the client, on the arguments and on everything that happened before
    (the trace).  Clients honour the contract of providers/types.ts and
    answer with a result object; they do not throw. *)
Module ProviderClient.
Record t := mk {
  name : string;
  config : ProviderConfig.t
}.
Definition getName (c : t) : string := name c.
End ProviderClient.

(** What the trace records: an entry into [Router.completion], and the
    calls of the methods of a client. *)
Inductive Event :=
| RouterCompletion (request : Request.t)
| ClientCreate (client : ProviderClient.t)
| ClientModels (client : ProviderClient.t)
| ClientRefreshModels (client : ProviderClient.t)
| ClientCompletion (client : ProviderClient.t) (request : Request.t).

Module Upstream.
Record t := mk {
  create : list Event → ProviderClient.t → Result unit;
  completion : list Event → ProviderClient.t → Request.t → Result Response.t;
  models : list Event → ProviderClient.t → Result ModelsList;
  refreshModels : list Event → ProviderClient.t → Result ModelsList
}.
End Upstream.

Definition ProviderFactory := string → ProviderConfig.t → ProviderClient.t.

(** The two maps of [ProviderManagerImpl]. *)
Record Manager := mkManager {
  clients : gmap string ProviderClient.t;
  modelAliasesMapping : gmap string string
}.

(** The process state: [globalConfig] of config/index.ts, the
    [factories] map of the registry (in insertion order), the manager,
    and the trace of calls made so far. *)
Record World := mkWorld {
  globalConfig : option Config.t;
  factories : list (string * ProviderFactory);
  manager : Manager;
  trace : list Event
}.

(** *** A state-and-exception monad

    Code runs on a state, returns or throws, and leaves a state behind
    in both cases. *)
Definition ST (Σ A : Type) : Type := Σ → Outcome A * Σ.

Definition ret {Σ A} (a : A) : ST Σ A := λ w, (Return a, w).
Definition throw {Σ A} (e : Error) : ST Σ A := λ w, (Throw e, w).
Definition bind {Σ A B} (c : ST Σ A) (k : A → ST Σ B) : ST Σ B :=
  λ w, match c w with
       | (Return a, w') => k a w'
       | (Throw e, w') => (Throw e, w')
       end.
(** [try { c } catch (error) { h error }] *)
Definition try_catch {Σ A} (c : ST Σ A) (h : Error → ST Σ A) : ST Σ A :=
  λ w, match c w with
       | (Return a, w') => (Return a, w')
       | (Throw e, w') => h e w'
       end.

Notation "x <- c ;; k" := (bind c (λ x, k))
  (at level 100, c at next level, right associativity).
Notation "c ;; k" := (bind c (λ _, k))
  (at level 100, right associativity).

(** The monad of the directory, the router and the retry loop. *)
Abbreviation M := (ST World).

Definition get_manager : M Manager := λ w, (Return (manager w), w).
Definition put_manager (m : Manager) : M unit :=
  λ w, (Return tt, mkWorld (globalConfig w) (factories w) m (trace w)).
Definition emit (e : Event) : M unit :=
  λ w, (Return tt, mkWorld (globalConfig w) (factories w) (manager w) (trace w ++ [e])).
(** An [await] on a client method: the call is recorded and the
    upstream answers from the trace before the call. *)
Definition call {A} (e : Event) (answer : list Event → A) : M A :=
  λ w, (Return (answer (trace w)),
        mkWorld (globalConfig w) (factories w) (manager w) (trace w ++ [e])).

(** [getConfig()]: throws until [setConfig] has run. *)
Definition getConfig : M Config.t :=
  λ w, match globalConfig w with
       | Some c => (Return c, w)
       | None => (Throw (newError "Configuration not initialized. Call setConfig() first."), w)
       end.

(** ** The provider registry (providers/registry.ts) *)
Module ProviderRegistry.

(** [Object.values(ProviderType)] *)
Definition ProviderType_values : list string := ["openai"].

(** [Map.prototype.set] on the insertion-ordered map of factories. *)
Fixpoint set (type : string) (factory : ProviderFactory)
    (fs : list (string * ProviderFactory)) : list (string * ProviderFactory) :=
  match fs with
  | [] => [(type, factory)]
  | (t, f) :: fs' =>
      if String.eqb t type then (t, factory) :: fs' else (t, f) :: set type factory fs'
  end.

Definition get (type : string) (fs : list (string * ProviderFactory))
    : option ProviderFactory :=
  snd <$> List.find (λ e, String.eqb (fst e) type) fs.

Definition register (type : string) (factory : ProviderFactory) : M unit :=
  λ w, (Return tt,
        mkWorld (globalConfig w) (set type factory (factories w)) (manager w) (trace w)).

(** [keys.join(", ")] *)
Fixpoint join (sep : string) (l : list string) : string :=
  match l with
  | [] => EmptyString
  | [x] => x
  | x :: l' => x +:+ sep +:+ join sep l'
  end.

Definition createClient (name : string) (config : ProviderConfig.t)
    : M ProviderClient.t :=
  λ w,
    let type := ProviderConfig.type config in
    match get type (factories w) with
    | None =>
        (Throw (newError ("Provider type " +:+ Str.dq +:+ type +:+ Str.dq
                          +:+ " is not registered. Available types: "
                          +:+ join ", " (fst <$> factories w))), w)
    | Some factory =>
        if negb (bool_decide (type ∈ ProviderType_values))
        then (Throw (newError ("Invalid provider type: " +:+ type)), w)
        else (Return (factory name config), w)
    end.

Definition isRegistered (type : string) : M bool :=
  λ w, (Return (bool_decide (is_Some (get type (factories w)))), w).

(** [Array.from(this.factories.keys())] *)
Definition getRegisteredTypes : M (list string) :=
  λ w, (Return (fst <$> factories w), w).

End ProviderRegistry.

(** The factory registered by providers/impl/index.ts:
    [new OpenAIProviderClient(name, config)]. *)
Definition OpenAIProviderClient : ProviderFactory := ProviderClient.mk.

(** ** The provider manager (providers/manager.ts) *)
Module ProviderManager.

(** [`${providerName}/${model.id}`] *)
Definition modelAliasOf (providerName : string) (model : ModelInfo.t) : string :=
  providerName +:+ "/" +:+ ModelInfo.id model.

(** The loop of [registerModels] over an array of models. *)
Definition registerModels_map (providerName : string) (models : ModelsList)
    (mapping : gmap string string) : gmap string string :=
  foldl (λ acc model, <[modelAliasOf providerName model := providerName]> acc)
        mapping models.

(** The first loop of [removeModels]: the aliases whose provider is
    [providerName]. *)
Definition aliasesToRemove (providerName : string) (mapping : gmap string string)
    : list string :=
  fst <$> filter (λ e, snd e = providerName) (map_to_list mapping).

(** The second loop of [removeModels]. *)
Definition removeModels_map (providerName : string) (mapping : gmap string string)
    : gmap string string :=
  foldl (λ acc alias, delete alias acc) mapping (aliasesToRemove providerName mapping).

(** [x.length] of a value that is an array or an [Error] object
    ([undefined] for the latter). *)
Definition js_length (models : Payload ModelsList) : option nat :=
  match models with
  | PValue ms => Some (List.length ms)
  | PError _ => None
  end.

Definition registerModels (providerName : string) (models : Payload ModelsList)
    : M unit :=
  match models with
  | PValue ms =>
      m <- get_manager;;
      put_manager (mkManager (clients m)
                     (registerModels_map providerName ms (modelAliasesMapping m)))
  | PError _ =>
      (* [for (const model of models)] over an object that is not iterable *)
      throw (typeError "models is not iterable")
  end.

Definition removeModels (providerName : string) : M unit :=
  m <- get_manager;;
  put_manager (mkManager (clients m)
                 (removeModels_map providerName (modelAliasesMapping m))).

Definition applyFilter (providerName : string) (models : Payload ModelsList)
    : M (Payload ModelsList) :=
  try_catch
    (config <- getConfig;;
     match Config.getProviderConfig config providerName ≫= ProviderConfig.filter with
     | None => ret models
     | Some filter =>
         let filterModelIds : gset string :=
           list_to_set (ProviderFilter.models filter) in
         match models with
         | PValue ms =>
             ret (PValue (FilterUtil.apply ms filterModelIds (ProviderFilter.mode filter)))
         | PError _ =>
             (* [models.filter] is not a function *)
             throw (typeError "models.filter is not a function")
         end
     end)
    (λ error, ret models).

Definition getClient (name : string) : M (option ProviderClient.t) :=
  m <- get_manager;; ret (clients m !! name).

(** [new Map(this.modelAliasesMapping)]; as a value the copy is the
    map itself (the copy as an object is the matter of module
    [MapStore] below). *)
Definition getModelAliasesMapping : M (gmap string string) :=
  m <- get_manager;; ret (modelAliasesMapping m).

Definition notFound (name : string) : Error :=
  newError ("Provider " +:+ Str.dq +:+ name +:+ Str.dq +:+ " not found").

Definition destroyProvider (name : string) : M (Result unit) :=
  m <- get_manager;;
  match clients m !! name with
  | None => ret (ResultOfError (notFound name))
  | Some _ =>
      removeModels name;;
      m' <- get_manager;;
      put_manager (mkManager (delete name (clients m')) (modelAliasesMapping m'));;
      ret ResultVoid
  end.

Section WithUpstream.
Context (up : Upstream.t).

(** [refreshModels] runs in two uninterrupted pieces: from its call
    to the [await client.refreshModels()], and from the answer to
    its return. *)
Definition refreshModels_begin (name : string)
    : M (Result ModelsList + ProviderClient.t) :=
  m <- get_manager;;
  match clients m !! name with
  | None => ret (inl (ResultOfError (notFound name)))
  | Some client => removeModels name;; ret (inr client)
  end.

Definition refreshModels_resume (name : string) (fetched : Result ModelsList)
    : M (Result ModelsList) :=
  match err fetched, data fetched with
  | Some e, _ => ret (ResultOfError e)
  | None, None => ret (ResultOfError (newError "Failed to refresh models"))
  | None, Some models =>
      let originalCount := js_length models in
      filteredModels <- applyFilter name models;;
      let finalResult :=
        if bool_decide (js_length filteredModels ≠ originalCount)
        then Result_ (Some filteredModels)
        else Result_ (Some models) in
      registerModels name filteredModels;;
      ret finalResult
  end.

Definition refreshModels (name : string) : M (Result ModelsList) :=
  s <- refreshModels_begin name;;
  match s with
  | inl r => ret r
  | inr client =>
      fetched <- call (ClientRefreshModels client)
                      (λ tr, Upstream.refreshModels up tr client);;
      refreshModels_resume name fetched
  end.

Definition setClient (name : string) (client : ProviderClient.t) : M unit :=
  m <- get_manager;;
  put_manager (mkManager (<[name := client]> (clients m)) (modelAliasesMapping m)).

(** The [for] loop of [initializeProviders] over the entries. *)
Fixpoint initializeLoop (entries : list (string * ProviderConfig.t))
    : M (Result unit) :=
  match entries with
  | [] => ret ResultVoid
  | (name, providerConfig) :: rest =>
      if negb (ProviderConfig.enabled providerConfig) then initializeLoop rest
      else
        client <- ProviderRegistry.createClient name providerConfig;;
        created <- call (ClientCreate client) (λ tr, Upstream.create up tr client);;
        match err created with
        | Some e =>
            ret (ResultOfError
                   (newError ("Failed to initialize provider " +:+ Str.dq +:+ name
                              +:+ Str.dq +:+ ": " +:+ message e)))
        | None =>
            fetched <- call (ClientModels client)
                            (λ tr, Upstream.models up tr client);;
            match data fetched, err fetched with
            | Some models, None =>
                filteredModels <- applyFilter name models;;
                registerModels name filteredModels
            | _, _ => ret tt
            end;;
            setClient name client;;
            initializeLoop rest
        end
  end.

Definition initializeProviders
    (providers : option (list (string * ProviderConfig.t))) : M (Result unit) :=
  initializeLoop (default [] providers).

End WithUpstream.

End ProviderManager.

(** ** The router (providers/router.ts) *)
Module ProviderRouter.

Definition aliasNotFound (modelAlias : string) : Error :=
  newError ("ModelAlias " +:+ Str.dq +:+ modelAlias +:+ Str.dq
            +:+ " not found or provider not available").

(** [{ ...request, model: actualModel, stream: false }] *)
Definition providerRequest (request : Request.t) (actualModel : string) : Request.t :=
  {| Request.model := actualModel;
     Request.messages := Request.messages request;
     Request.temperature := Request.temperature request;
     Request.top_p := Request.top_p request;
     Request.n := Request.n request;
     Request.stream := Some false;
     Request.stop := Request.stop request;
     Request.max_tokens := Request.max_tokens request;
     Request.presence_penalty := Request.presence_penalty request;
     Request.frequency_penalty := Request.frequency_penalty request;
     Request.logit_bias := Request.logit_bias request;
     Request.user := Request.user request;
     Request.functions := Request.functions request;
     Request.function_call := Request.function_call request;
     Request.tools := Request.tools request;
     Request.tool_choice := Request.tool_choice request |}.

(** The model id sent upstream for an alias routed to [providerName]. *)
Definition actualModel (modelAlias providerName : string) : string :=
  let modelPrefix := providerName +:+ "/" in
  if Str.startsWith modelAlias modelPrefix
  then Str.slice modelAlias (String.length modelPrefix)
  else modelAlias.

(** [Router.models()]: one record per alias of the table ([Map] keeps
    them in insertion order; the handler sorts them by id). *)
Definition models : M (Result ModelsList) :=
  modelAliasesMapping <- ProviderManager.getModelAliasesMapping;;
  let modelAliases := fst <$> map_to_list modelAliasesMapping in
  ret (ResultOf ((λ alias, ModelInfo.mk alias None None []) <$> modelAliases)).

Section WithUpstream.
Context (up : Upstream.t).

Definition completion (request : Request.t) : M (Result Response.t) :=
  emit (RouterCompletion request);;
  let modelAlias := Request.model request in
  modelAliasesMapping <- ProviderManager.getModelAliasesMapping;;
  match modelAliasesMapping !! modelAlias with
  | None => ret (ResultOfError (aliasNotFound modelAlias))
  | Some providerName =>
      if negb (Str.truthy providerName)
      then ret (ResultOfError (aliasNotFound modelAlias))
      else
        client <- ProviderManager.getClient providerName;;
        match client with
        | None => ret (ResultOfError (ProviderManager.notFound providerName))
        | Some client =>
            let providerRequest :=
              providerRequest request (actualModel modelAlias providerName) in
            r <- call (ClientCompletion client providerRequest)
                      (λ tr, Upstream.completion up tr client providerRequest);;
            match err r, data r with
            | Some e, _ => ret (ResultOfError e)
            | None, None => ret (ResultOfError (newError "Completion failed"))
            | None, Some response => ret (Result_ (Some response))
            end
        end
  end.

End WithUpstream.

End ProviderRouter.

(** ** The completion handler (handlers/completion.ts): retry *)
Module Handler.

Definition maxRetriesExceeded : Error := newError "Failed after max retries".

(** Reading [response.usage.completion_tokens] when [response] is an
    [Error] object, which has no [usage]. *)
Definition usageOfUndefined : Error :=
  typeError "undefined is not an object (evaluating 'response.usage')".

Section WithUpstream.
Context (up : Upstream.t).

(** The body of [for (let i = 1; i <= maxRetries; i++)], over the
    values of [i] still to come. *)
Fixpoint retryLoop (attempts : list Z) (request : Request.t)
    : M (Result Response.t) :=
  match attempts with
  | [] => ret (ResultOfError maxRetriesExceeded)
  | i :: rest =>
      r <- ProviderRouter.completion up request;;
      match err r, data r with
      | Some _, _ => retryLoop rest request
      | None, None => retryLoop rest request
      | None, Some (PError _) => throw usageOfUndefined
      | None, Some (PValue response) =>
          if (Usage.completion_tokens (Response.usage response) =? 0)%Z
          then retryLoop rest request
          else ret (ResultOf response)
      end
  end.

Definition autoRetryCompletion (request : Request.t) : M (Result Response.t) :=
  config <- getConfig;;
  let maxRetries := Config.maxRetries (Config.advanced config) in
  retryLoop (seqZ 1 maxRetries) request.

End WithUpstream.

End Handler.

(** ** Request spoofing (utils/completion.ts)

    The state is the number of calls of [Math.random] made so far. *)
Module Spoof.

Definition characters : string :=
  "ABCDEFGHIJKLMNOPQRSTUVWXYZabcdefghijklmnopqrstuvwxyz0123456789".

Section WithRandom.
(** [randomBelow k n] is the value of [Math.floor(Math.random() * n)]
    when it makes the [k]-th call of [Math.random]. *)
Context (randomBelow : nat → nat → nat).

Definition floorRandom (n : nat) : ST nat nat :=
  λ calls, (Return (randomBelow calls n), S calls).

(** [for (let i = 0; i < length; i++) result += characters.charAt(..)],
    with [todo] rounds to go. *)
Fixpoint fill (todo : nat) (result : string) : ST nat string :=
  match todo with
  | O => ret result
  | S todo' =>
      i <- floorRandom (String.length characters);;
      fill todo' (result +:+ Str.charAt characters i)
  end.

Definition generateRandomContent : ST nat string :=
  r <- floorRandom 6;;
  let length := r + 5 in
  fill length EmptyString.

(** [{ role: "user", content }] *)
Definition userMessage (content : string) : ChatMessage.t :=
  ChatMessage.mk user (Some content) None None None.

(** [{ ...request, messages }] *)
Definition withMessages (request : Request.t) (messages : list ChatMessage.t)
    : Request.t :=
  {| Request.model := Request.model request;
     Request.messages := messages;
     Request.temperature := Request.temperature request;
     Request.top_p := Request.top_p request;
     Request.n := Request.n request;
     Request.stream := Request.stream request;
     Request.stop := Request.stop request;
     Request.max_tokens := Request.max_tokens request;
     Request.presence_penalty := Request.presence_penalty request;
     Request.frequency_penalty := Request.frequency_penalty request;
     Request.logit_bias := Request.logit_bias request;
     Request.user := Request.user request;
     Request.functions := Request.functions request;
     Request.function_call := Request.function_call request;
     Request.tools := Request.tools request;
     Request.tool_choice := Request.tool_choice request |}.

Definition spoofRequestContent (request : Request.t) : ST nat Request.t :=
  first <- generateRandomContent;;
  last <- generateRandomContent;;
  ret (withMessages request
         (userMessage first :: Request.messages request ++ [userMessage last])).

End WithRandom.

End Spoof.

(** ** The handlers (handlers/completion.ts, handlers/models.ts) *)
Module Handlers.

(** What [handleCompletion] resolves with: the response, which the
    route sends as JSON, or the stream of [createFakeStream(request)],
    whose session is the matter of module [FakeStream] below. *)
Inductive Reply :=
| JsonBody (response : Response.t)
| EventStream (request : Request.t).

(** One entry of the list of [GET /v1/models]; the field [object] is
    the literal [model] and is left out. *)
Record Model := mkModel {
  id : string;
  created : Z;
  owned_by : string
}.

(** A handler runs in the world and draws random numbers. *)
Definition inWorld {A} (c : M A) : ST (World * nat) A :=
  λ s, let r := c (fst s) in (fst r, (snd r, snd s)).
Definition inRandom {A} (c : ST nat A) : ST (World * nat) A :=
  λ s, let r := c (snd s) in (fst r, (fst s, snd r)).

(** [Array.prototype.sort] with a comparison function: the sort is
    stable, so with a consistent comparison function its result is the
    one of insertion from the right. *)
Fixpoint insert {A} (compareFn : A → A → Z) (x : A) (sorted : list A) : list A :=
  match sorted with
  | [] => [x]
  | y :: rest =>
      if (compareFn x y <=? 0)%Z then x :: sorted
      else y :: insert compareFn x rest
  end.

Definition sort {A} (compareFn : A → A → Z) (l : list A) : list A :=
  foldr (insert compareFn) [] l.

Section WithUpstream.
Context (up : Upstream.t) (randomBelow : nat → nat → nat).

(** [handleCompletion] from [if (!request.stream)] on, where the
    request is the one to serve. *)
Definition serve (request : Request.t) : ST (World * nat) Reply :=
  if negb (default false (Request.stream request))
  then
    r <- inWorld (Handler.autoRetryCompletion up request);;
    match err r, data r with
    | Some e, _ =>
        throw (newError ("Failed to create completion: " +:+ message e))
    | None, None =>
        throw (newError "Failed to create completion: Unknown error")
    | None, Some (PError _) =>
        (* the success log reads [response.usage.prompt_tokens] *)
        throw Handler.usageOfUndefined
    | None, Some (PValue response) => ret (JsonBody response)
    end
  else ret (EventStream request).

Definition handleCompletion (request : Request.t) : ST (World * nat) Reply :=
  config <- inWorld getConfig;;
  request <-
    (if Config.contentSpoof (Config.advanced config)
     then inRandom (Spoof.spoofRequestContent randomBelow request)
     else ret request);;
  serve request.

End WithUpstream.

Section WithClock.
(** [localeCompare] of the platform, and the value of [Date.now()]
    while the entry at an index is built. *)
Context (localeCompare : string → string → Z) (Date_now : nat → Z).

Definition toModel (index : nat) (model : ModelInfo.t) : Model :=
  {| id := ModelInfo.id model;
     created := default (Date_now index / 1000)%Z (ModelInfo.created model);
     owned_by := default "system" (ModelInfo.owned_by model) |}.

Definition handleModels : M (list Model) :=
  r <- ProviderRouter.models;;
  match err r, data r with
  | Some e, _ => throw (newError ("Failed to get models: " +:+ message e))
  | None, None => throw (newError "Failed to get models: Unknown error")
  | None, Some (PError _) => throw (typeError "models.map is not a function")
  | None, Some (PValue models) =>
      ret (sort (λ a b, localeCompare (id a) (id b)) (imap toModel models))
  end.

End WithClock.

End Handlers.

(** ** Observations on traces *)
Definition is_RouterCompletion (e : Event) : bool :=
  match e with RouterCompletion _ => true | _ => false end.

(** The number of entries into [Router.completion]. *)
Definition routerCalls (tr : list Event) : nat :=
  List.length (List.filter is_RouterCompletion tr).

(** The completion calls received by clients, in order. *)
Definition clientCompletions (tr : list Event) : list (ProviderClient.t * Request.t) :=
  omap (λ e, match e with ClientCompletion c r => Some (c, r) | _ => None end) tr.

(** The filter configured for a provider, if the configuration is
    loaded and has one. *)
Definition configuredFilter (w : World) (providerName : string)
    : option ProviderFilter.t :=
  config ← globalConfig w;
  providerConfig ← Config.getProviderConfig config providerName;
  ProviderConfig.filter providerConfig.

(** ** The completion handler: the emulated stream ([createFakeStream])

    One streaming request owns a session: the two flags, the interval
    timer and the controller of the [ReadableStream].  The platform is
    seen through the calls made on it, in order. *)
Module FakeStream.

Inductive Action :=
| ClearInterval
| Enqueue (bytes : string)
| Close.

Inductive Controller := Open | Closed.

Record Session := mkSession {
  isCancelled : bool;
  isCompleted : bool;
  (** [fakeStreamTimer] is a running interval ([true]) or [null] *)
  fakeStreamTimer : bool;
  controller : Controller;
  (** the promise of [autoRetryCompletion] has settled *)
  settled : bool;
  actions : list Action
}.

(** The frames written to the channel so far. *)
Definition frames (s : Session) : list string :=
  omap (λ a, match a with Enqueue b => Some b | _ => None end) (actions s).

Definition set_isCancelled (b : bool) : ST Session unit :=
  λ s, (Return tt, mkSession b (isCompleted s) (fakeStreamTimer s) (controller s)
                             (settled s) (actions s)).
Definition set_isCompleted (b : bool) : ST Session unit :=
  λ s, (Return tt, mkSession (isCancelled s) b (fakeStreamTimer s) (controller s)
                             (settled s) (actions s)).
Definition set_settled : ST Session unit :=
  λ s, (Return tt, mkSession (isCancelled s) (isCompleted s) (fakeStreamTimer s)
                             (controller s) true (actions s)).
Definition set_controller (c : Controller) : ST Session unit :=
  λ s, (Return tt, mkSession (isCancelled s) (isCompleted s) (fakeStreamTimer s)
                             c (settled s) (actions s)).
Definition act (a : Action) : ST Session unit :=
  λ s, (Return tt, mkSession (isCancelled s) (isCompleted s) (fakeStreamTimer s)
                             (controller s) (settled s) (actions s ++ [a])).
Definition get : ST Session Session := λ s, (Return s, s).

(** [if (fakeStreamTimer) { clearInterval(fakeStreamTimer); fakeStreamTimer = null; }] *)
Definition stopTimer : ST Session unit :=
  λ s, if fakeStreamTimer s
       then (Return tt, mkSession (isCancelled s) (isCompleted s) false (controller s)
                                  (settled s) (actions s ++ [ClearInterval]))
       else (Return tt, s).

Section WithPlatform.
(** [JSON.stringify], and the message of the [TypeError] that the
    controller of a closed stream throws. *)
Context (stringify : Json → string) (closedMessage : string).
(** The request, and the id and timestamp drawn once for the
    keep-alive frames. *)
Context (request : Request.t) (tempId : string) (tempCreated : Z).

Definition controller_enqueue (data : string) : ST Session unit :=
  λ s, match controller s with
       | Open => act (Enqueue data) s
       | Closed => (Throw (typeError closedMessage), s)
       end.

Definition controller_close : ST Session unit :=
  λ s, match controller s with
       | Open => (act Close ;; set_controller Closed) s
       | Closed => (Throw (typeError closedMessage), s)
       end.

(** [try { controller.close(); } catch (closeError) { }] *)
Definition closeQuietly : ST Session unit :=
  try_catch controller_close (λ closeError, ret tt).

Definition safeEnqueue (data : string) : ST Session bool :=
  s <- get;;
  if isCompleted s || isCancelled s then ret false
  else
    try_catch
      (controller_enqueue data;; ret true)
      (λ error,
         if isTypeError error && Str.includes (message error) "closed"
         then set_isCancelled true;; ret false
         else throw error).

(** [`data: ${JSON.stringify(obj)}\n\n`] *)
Definition frame (obj : Json) : string :=
  "data: " +:+ stringify obj +:+ Str.nl +:+ Str.nl.

Definition doneFrame : string := "data: [DONE]" +:+ Str.nl +:+ Str.nl.

(** The frame grammar: the marker, or a JSON payload in a frame. *)
Definition wellFramed (f : string) : Prop :=
  f = doneFrame ∨ ∃ obj, f = frame obj.

(** A computation grows the channel when the frames after it are the
    frames before it followed by frames of the grammar. *)
Definition grows {A} (c : ST Session A) : Prop :=
  ∀ s, ∃ added,
    frames (snd (c s)) = frames s ++ added ∧ Forall wellFramed added.

Definition chunk (id : string) (created : Z) (model : string) (choices : list Json)
    : Json :=
  JObj [("id", JStr id); ("object", JStr "chat.completion.chunk");
        ("created", JInt created); ("model", JStr model);
        ("choices", JArr choices)].

Definition nullable {A} (f : A → Json) (o : option A) : Json :=
  match o with Some a => f a | None => JNull end.

Definition emptyData : string :=
  frame (chunk tempId tempCreated (Request.model request)
           [JObj [("index", JInt 0);
                  ("delta", JObj [("content", JStr EmptyString)]);
                  ("finish_reason", JNull)]]).

Definition sendEmptyData : ST Session unit :=
  s <- get;;
  if isCompleted s || isCancelled s then stopTimer
  else _ <- safeEnqueue emptyData;; ret tt.

Definition roleChunk (response : Response.t) (firstChoice : Choice.t) : string :=
  frame (chunk (Response.id response) (Response.created response)
           (Response.model response)
           [JObj [("index", JInt (Choice.index firstChoice));
                  ("delta", JObj [("role",
                     JStr (Role_to_string (ChatMessage.role (Choice.message firstChoice))))]);
                  ("finish_reason", JNull)]]).

Definition contentChunk (response : Response.t) : string :=
  frame (chunk (Response.id response) (Response.created response)
           (Response.model response)
           ((λ choice,
               JObj [("index", JInt (Choice.index choice));
                     ("delta", JObj [("content",
                        nullable JStr (ChatMessage.content (Choice.message choice)))]);
                     ("finish_reason", JNull)])
              <$> Response.choices response)).

Definition finishChunk (response : Response.t) : string :=
  frame (chunk (Response.id response) (Response.created response)
           (Response.model response)
           ((λ choice,
               JObj [("index", JInt (Choice.index choice));
                     ("delta", JObj []);
                     ("finish_reason",
                      nullable (λ r, JStr (FinishReason_to_string r))
                               (Choice.finish_reason choice))])
              <$> Response.choices response)).

(** The frames of a response, in the order they are to be written. *)
Definition successFrames (response : Response.t) : list string :=
  match Response.choices response with
  | firstChoice :: _ => [roleChunk response firstChoice]
  | [] => []
  end ++ [contentChunk response; finishChunk response; doneFrame].

Definition errorData (msg : string) : string :=
  frame (JObj [("error", JObj [("message", JStr msg);
                              ("type", JStr "completion_error")])]).

(** The error frame and the close that follows it, as written in
    both failure paths. *)
Definition sendError (msg : string) : ST Session unit :=
  s <- get;;
  if negb (isCancelled s)
  then sent <- safeEnqueue (errorData msg);;
       if sent then closeQuietly else ret tt
  else ret tt.

(** The [try] block of [start] from the answer of
    [autoRetryCompletion] on. *)
Definition onAnswer (r : Result Response.t) : ST Session unit :=
  stopTimer;;
  match err r, data r with
  | Some e, _ => sendError (message e)
  | None, None => sendError "Unknown error"
  | None, Some (PError _) =>
      (* the success log reads [response.usage.prompt_tokens] *)
      throw Handler.usageOfUndefined
  | None, Some (PValue response) =>
      s <- get;;
      if isCancelled s then ret tt
      else
        sentRole <-
          match Response.choices response with
          | firstChoice :: _ => safeEnqueue (roleChunk response firstChoice)
          | [] => ret true
          end;;
        if negb sentRole then ret tt
        else
          sentContent <- safeEnqueue (contentChunk response);;
          if negb sentContent then ret tt
          else
            sentFinish <- safeEnqueue (finishChunk response);;
            if negb sentFinish then ret tt
            else
              sentDone <- safeEnqueue doneFrame;;
              if negb sentDone then ret tt
              else set_isCompleted true;; closeQuietly
  end.

(** The [catch] block of [start]. *)
Definition onError (error : Error) : ST Session unit :=
  stopTimer;;
  sendError (message error).

(** [start] after its [await]: the awaited promise resolved with a
    result or rejected with an error. *)
Definition afterCompletion (outcome : Outcome (Result Response.t))
    : ST Session unit :=
  try_catch
    (match outcome with
     | Return r => onAnswer r
     | Throw e => throw e
     end)
    onError.

(** [cancel()] *)
Definition cancel : ST Session unit :=
  set_isCancelled true;; stopTimer.

(** What can happen to a session: the interval fires, the promise
    of [autoRetryCompletion] settles, the consumer cancels the
    stream (the platform closes it and calls [cancel()]), or the
    channel is closed under the emitter. *)
Inductive Input :=
| Tick
| Settle (outcome : Outcome (Result Response.t))
| Cancel
| PeerClosed.

Definition step (i : Input) : ST Session unit :=
  match i with
  | Tick =>
      s <- get;;
      if fakeStreamTimer s then sendEmptyData else ret tt
  | Settle outcome =>
      s <- get;;
      if settled s then ret tt
      else set_settled;; afterCompletion outcome
  | Cancel => set_controller Closed;; cancel
  | PeerClosed => set_controller Closed
  end.

(** A callback that throws does not stop the event loop. *)
Definition run (inputs : list Input) (s : Session) : Session :=
  foldl (λ s i, snd (step i s)) s inputs.

(** The session when [start] reaches its [await]:
    [fakeStreamTimer = setInterval(sendEmptyData, FAKE_STREAM_INTERVAL)]. *)
Definition started : Session := mkSession false false true Open false [].

End WithPlatform.

End FakeStream.

(** ** The alias table as an object

    [Map] objects live in a store and are reached through references.
    The manager's private field [modelAliasesMapping] holds one
    reference for its whole life; [registerModels] and [removeModels]
    edit the object behind it in place, and [getModelAliasesMapping]
    allocates [new Map(this.modelAliasesMapping)]. *)
Module MapStore.

Record State := mkState {
  store : gmap nat (gmap string string);
  (** the reference held by [this.modelAliasesMapping] *)
  this_modelAliasesMapping : nat
}.

(** The contents of the object behind a reference. *)
Definition read (l : nat) (st : State) : gmap string string :=
  default ∅ (store st !! l).

(** [map.set(k, v)] and [map.delete(k)] on the object behind [l]. *)
Definition Map_set (l : nat) (k v : string) (st : State) : State :=
  mkState (<[l := <[k := v]> (read l st)]> (store st)) (this_modelAliasesMapping st).
Definition Map_delete (l : nat) (k : string) (st : State) : State :=
  mkState (<[l := delete k (read l st)]> (store st)) (this_modelAliasesMapping st).

(** [new Map(src)]: a new object with the entries of [src]. *)
Definition new_Map (src : nat) (st : State) : nat * State :=
  let l := fresh (dom (store st)) in
  (l, mkState (<[l := read src st]> (store st)) (this_modelAliasesMapping st)).

Definition getModelAliasesMapping (st : State) : nat * State :=
  new_Map (this_modelAliasesMapping st) st.

Definition registerModels (providerName : string) (models : ModelsList) (st : State)
    : State :=
  foldl (λ st model,
           Map_set (this_modelAliasesMapping st)
                   (ProviderManager.modelAliasOf providerName model) providerName st)
        st models.

Definition removeModels (providerName : string) (st : State) : State :=
  let aliasesToRemove :=
    ProviderManager.aliasesToRemove providerName
      (read (this_modelAliasesMapping st) st) in
  foldl (λ st alias, Map_delete (this_modelAliasesMapping st) alias st)
        st aliasesToRemove.

(** The edits of the table made by the manager; [destroyProvider]
    edits it through [removeModels]. *)
Inductive Mutation :=
| RegisterModels (providerName : string) (models : ModelsList)
| RemoveModels (providerName : string)
| DestroyProvider (name : string).

Definition mutate (st : State) (mu : Mutation) : State :=
  match mu with
  | RegisterModels providerName models => registerModels providerName models st
  | RemoveModels providerName => removeModels providerName st
  | DestroyProvider name => removeModels name st
  end.

(** The object of the field exists. *)
Definition wf (st : State) : Prop :=
  this_modelAliasesMapping st ∈ dom (store st).

(** The lookup of [Router.completion]: a copy is taken and read. *)
Definition resolve (modelAlias : string) (st : State) : option string * State :=
  let '(l, st') := getModelAliasesMapping st in
  (read l st' !! modelAlias, st').

End MapStore.

(** ** The OpenAI client (providers/impl/openai.ts)

    The class behind the factory [OpenAIProviderClient].  Its axios
    instance is seen through the requests made on it, in order; zod's
    [safeParse] of the three schemas and [JSON.stringify] belong to
    the platform. *)
Module OpenAIClient.

(** A request made on the axios instance. *)
Inductive Call :=
| Get (url : string)
| Post (url : string) (body : Request.t).

(** What the [await] of a request gives: the response, whose [data]
    is read, or a rejection with an [AxiosError] (with or without a
    response, whose [status] and [data] are read), with another
    [Error], or with a value that is no [Error] (of which [String(..)]
    is read). *)
Inductive Axios :=
| Resolved (data : Json)
| AxiosError (response : option (Z * option Json)) (message : string)
| Rejected (error : Error)
| RejectedWith (text : string).

(** The [error] object of [OpenAIErrorSchema]. *)
Record ErrorData := mkErrorData {
  errorMessage : string;
  errorType : string;
  errorCode : option string
}.

(** The private fields that change, and the requests made so far. *)
Record State := mkState {
  cachedModels : option (Payload ModelsList);
  calls : list Call
}.

(** [new OpenAIProviderClient(name, config)] *)
Definition created : State := mkState None [].

(** Truthiness of a JSON value. *)
Definition truthy (j : Json) : bool :=
  match j with
  | JNull => false
  | JBool b => b
  | JNum n => negb (Qeq_bool n 0)
  | JStr s => Str.truthy s
  | JArr _ | JObj _ => true
  end.

Section WithPlatform.
Context (axios : list Call → Call → Axios).
Context (stringify : Json → string).
(** [OpenAIErrorSchema.safeParse(..)]: the [error] of the parsed data
    on success. *)
Context (parseError : Json → option ErrorData).
(** [ChatCompletionsResponseSchema.safeParse(..)] and
    [ModelsListResponseSchema.safeParse(..)]: the parsed response (of
    the list, its [data]) on success, the message of the [ZodError]
    otherwise. *)
Context (parseCompletion : Json → Response.t + string).
Context (parseModels : Json → ModelsList + string).

Definition request (c : Call) : ST State Axios :=
  λ s, (Return (axios (calls s) c), mkState (cachedModels s) (calls s ++ [c])).

Definition set_cachedModels (models : Payload ModelsList) : ST State unit :=
  λ s, (Return tt, mkState (Some models) (calls s)).

Definition get : ST State State := λ s, (Return s, s).

(** The message built in the [catch] blocks for an [AxiosError]. *)
Definition apiError (response : option (Z * option Json)) (message : string) : string :=
  let errorMessage :=
    match response with
    | Some (_, Some data) => if truthy data then stringify data else message
    | _ => message
    end in
  "OpenAI API error: "
  +:+ match response with Some (status, _) => pretty status | None => "unknown" end
  +:+ " - " +:+ errorMessage.

(** The message built for a body that parses as an error. *)
Definition bodyError (errorData : ErrorData) : string :=
  "OpenAI API error: " +:+ errorType errorData +:+ " - " +:+ errorMessage errorData
  +:+ match errorCode errorData with
      | Some code => if Str.truthy code then " (code: " +:+ code +:+ ")" else EmptyString
      | None => EmptyString
      end.

Definition fetchModels : ST State (Result ModelsList) :=
  answer <- request (Get "/models");;
  match answer with
  | Resolved data =>
      match parseModels data with
      | inr zodMessage =>
          ret (ResultOfError
                 (newError ("Invalid response format from OpenAI API: " +:+ zodMessage)))
      | inl modelsList => ret (ResultOf modelsList)
      end
  | AxiosError response message => ret (ResultOfError (newError (apiError response message)))
  | Rejected error => ret (ResultOfError error)
  | RejectedWith text => ret (ResultOfError (newError ("Failed to fetch models: " +:+ text)))
  end.

Definition create : ST State (Result unit) :=
  try_catch
    (fetched <- fetchModels;;
     match err fetched, data fetched with
     | Some e, _ => ret (ResultOfError e)
     | None, None => ret (ResultOfError (newError "Failed to fetch models"))
     | None, Some models => set_cachedModels models;; ret ResultVoid
     end)
    (λ error, ret (ResultOfError error)).

Definition completion (req : Request.t) : ST State (Result Response.t) :=
  answer <- request (Post "/chat/completions" req);;
  match answer with
  | Resolved data =>
      match parseError data with
      | Some errorData => ret (ResultOfError (newError (bodyError errorData)))
      | None =>
          match parseCompletion data with
          | inr zodMessage =>
              ret (ResultOfError
                     (newError ("Invalid response format from OpenAI API: " +:+ zodMessage)))
          | inl response => ret (ResultOf response)
          end
      end
  | AxiosError response message => ret (ResultOfError (newError (apiError response message)))
  | Rejected error => ret (ResultOfError error)
  | RejectedWith text =>
      ret (ResultOfError (newError ("Failed to create completion: " +:+ text)))
  end.

Definition models : ST State (Result ModelsList) :=
  s <- get;;
  match cachedModels s with
  | Some cached => ret (Result_ (Some cached))
  | None => fetchModels
  end.

Definition refreshModels : ST State (Result ModelsList) :=
  fetched <- fetchModels;;
  match err fetched, data fetched with
  | None, Some models => set_cachedModels models
  | _, _ => ret tt
  end;;
  match err fetched with
  | Some e => ret (ResultOfError e)
  | None => ret (Result_ (data fetched))
  end.

End WithPlatform.

End OpenAIClient.

(** ** The loaded configuration and the key table (config/index.ts,
       config/schema.ts) *)
Module AppConfig.
Record t := mk {
  host : string;
  port : Z;
  fakeStreamInterval : Z;
  keys : list string;
  maxRetries : Z
}.
End AppConfig.

Module LogLevel.
Inductive t := debug | info | warn | error.
End LogLevel.

(** The configuration as [ConfigSchema] of config/schema.ts declares
    it. *)
Module ConfigFile.
Record t := mk {
  app : AppConfig.t;
  logging : option LogLevel.t;
  providers : option (list (string * ProviderConfig.t))
}.
End ConfigFile.

Module ConfigStore.

(** The two module variables of config/index.ts. *)
Record State := mkState {
  globalConfig : option ConfigFile.t;
  keysMap : gmap string bool
}.

(** The module as loaded: [globalConfig = null], [keysMap = new Map()]. *)
Definition loaded : State := mkState None ∅.

Definition initializeKeysMap (keys : list string) : ST State unit :=
  λ s, (Return tt,
        mkState (globalConfig s) (foldl (λ keysMap key, <[key := true]> keysMap) ∅ keys)).

Definition setConfig (config : ConfigFile.t) : ST State unit :=
  (λ s, (Return tt, mkState (Some config) (keysMap s)));;
  initializeKeysMap (AppConfig.keys (ConfigFile.app config)).

Definition isValidKey (key : string) : ST State bool :=
  λ s, (Return (bool_decide (is_Some (keysMap s !! key))), s).

Definition getConfig : ST State ConfigFile.t :=
  λ s, match globalConfig s with
       | Some config => (Return config, s)
       | None =>
           (Throw (newError "Configuration not initialized. Call setConfig() first."), s)
       end.

End ConfigStore.

(** ** The logger's threshold (logger/index.ts) *)
Module Logger.

Definition LOG_LEVELS (level : LogLevel.t) : Z :=
  match level with
  | LogLevel.debug => 0
  | LogLevel.info => 1
  | LogLevel.warn => 2
  | LogLevel.error => 3
  end.

Definition getLogLevel : ST ConfigStore.State LogLevel.t :=
  try_catch
    (config <- ConfigStore.getConfig;;
     ret (default LogLevel.info (ConfigFile.logging config)))
    (λ _, ret LogLevel.info).

Definition shouldLog (level : LogLevel.t) : ST ConfigStore.State bool :=
  currentLevel <- getLogLevel;;
  ret (LOG_LEVELS currentLevel <=? LOG_LEVELS level)%Z.

End Logger.

(** ** Authentication (middleware/auth.ts) *)
Module Auth.

Definition BearerTokenPrefix : string := "Bearer ".

(** What the hook returns: an error body, with [set.status] set to the
    status, or nothing, which lets the request through. *)
Inductive Verdict :=
| Rejected (status : Z) (message : string) (type : string)
| Passed.

(** [a || b] on two header values. *)
Definition or_ (a b : option string) : option string :=
  match a with
  | Some s => if Str.truthy s then a else b
  | None => b
  end.

Definition AuthMiddleware (headers : gmap string string)
    : ST ConfigStore.State Verdict :=
  let authHeader := or_ (headers !! "authorization") (headers !! "Authorization") in
  match authHeader with
  | Some (String c rest) =>
      let authHeader := String c rest in
      if negb (Str.startsWith authHeader BearerTokenPrefix)
      then ret (Rejected 401
                  "Invalid Authorization header format. Expected 'Bearer <token>'."
                  "authentication_error")
      else
        let token := Str.trim (Str.slice authHeader (String.length BearerTokenPrefix)) in
        valid <- ConfigStore.isValidKey token;;
        if negb valid
        then ret (Rejected 401 "Invalid API key provided." "authentication_error")
        else ret Passed
  | Some EmptyString | None =>
      ret (Rejected 401
             "Missing Authorization header. Please provide a Bearer token in the Authorization header."
             "authentication_error")
  end.

End Auth.

(** ** Concrete configurations used in examples *)
Module Fixtures.

Definition acmeConfig : ProviderConfig.t :=
  ProviderConfig.mk true "openai" "https://api.acme.test/v1" "sk-acme" None.
Definition acme : ProviderClient.t := ProviderClient.mk "acme" acmeConfig.

Definition config : Config.t :=
  Config.mk (Config.mkAdvanced 3 500 false) (Some [("acme", acmeConfig)]).

Definition gpt : ModelInfo.t := ModelInfo.mk "gpt" None (Some "acme") [].

(** One provider [acme] with the alias [acme/gpt]. *)
Definition world : World :=
  mkWorld (Some config) [("openai", OpenAIProviderClient)]
          (mkManager {[ "acme" := acme ]} {[ "acme/gpt" := "acme" ]}) [].

Definition hi : ChatMessage.t := ChatMessage.mk user (Some "hi") None None None.

Definition requestFor (model : string) : Request.t :=
  Request.mk model [hi] None None None (Some true) None None None None None None
             None None None None.

Definition hello : Response.t :=
  Response.mk "chatcmpl-1" 1700000000 "gpt"
    [Choice.mk 0 (ChatMessage.mk assistant (Some "hello") None None None) (Some stop)]
    (Usage.mk 1 5 6).

Definition empty : Response.t :=
  Response.mk "chatcmpl-0" 1700000000 "gpt"
    [Choice.mk 0 (ChatMessage.mk assistant (Some EmptyString) None None None) (Some stop)]
    (Usage.mk 1 0 1).

(** What [OpenAIProviderClient] answers when upstream replies 500:
    [Result(new Error(`OpenAI API error: 500 - ...`))]. *)
Definition http500 {T} : Result T :=
  ResultOfError (newError "OpenAI API error: 500 - upstream unavailable").

(** Upstream fails the first completion and serves [hello] afterwards. *)
Definition failsOnce : Upstream.t :=
  Upstream.mk
    (λ _ _, ResultVoid)
    (λ tr _ _, if bool_decide (clientCompletions tr = []) then http500 else ResultOf hello)
    (λ _ _, ResultOf [gpt])
    (λ _ _, ResultOf [gpt]).

(** Upstream always answers with zero completion tokens. *)
Definition alwaysEmpty : Upstream.t :=
  Upstream.mk (λ _ _, ResultVoid) (λ _ _ _, ResultOf empty)
              (λ _ _, ResultOf [gpt]) (λ _ _, ResultOf [gpt]).

(** Upstream serves [hello] and lists [gpt]. *)
Definition healthy : Upstream.t :=
  Upstream.mk (λ _ _, ResultVoid) (λ _ _ _, ResultOf hello)
              (λ _ _, ResultOf [gpt]) (λ _ _, ResultOf [gpt]).

(** Upstream is down: every call fails as [OpenAIProviderClient]
    reports it. *)
Definition down : Upstream.t :=
  Upstream.mk (λ _ _, http500) (λ _ _ _, http500) (λ _ _, http500) (λ _ _, http500).

(** A provider declared under the empty key of the [providers]
    table, with its client and one alias. *)
Definition unnamed : ProviderClient.t := ProviderClient.mk EmptyString acmeConfig.
Definition unnamedWorld : World :=
  mkWorld (Some (Config.mk (Config.mkAdvanced 3 500 false)
                           (Some [(EmptyString, acmeConfig)])))
          [("openai", OpenAIProviderClient)]
          (mkManager {[ EmptyString := unnamed ]} {[ "/gpt" := EmptyString ]}) [].

(** The alias outlived the client: [refreshModels] resumed after
    [destroyProvider] ran during its fetch. *)
Definition orphanWorld : World :=
  mkWorld (Some config) [("openai", OpenAIProviderClient)]
          (mkManager ∅ {[ "acme/gpt" := "acme" ]}) [].

(** The same for the provider with the empty name. *)
Definition unnamedOrphanWorld : World :=
  mkWorld (Some config) [("openai", OpenAIProviderClient)]
          (mkManager ∅ {[ "/gpt" := EmptyString ]}) [].

(** No factory was registered (providers/impl was not imported). *)
Definition emptyRegistryWorld : World :=
  mkWorld (Some config) [] (mkManager ∅ ∅) [].

(** A printer standing for [JSON.stringify] in examples. *)
Definition stringify (j : Json) : string :=
  match j with
  | JObj (("error", _) :: _) => "{error}"
  | JObj _ => "{chunk}"
  | _ => "?"
  end.

(** The message of Node and Bun for a closed controller. *)
Definition closedMessage : string := "Invalid state: Controller is already closed".

(** No provider is initialized yet. *)
Definition blank : World :=
  mkWorld (Some config) [("openai", OpenAIProviderClient)] (mkManager ∅ ∅) [].

(** Upstream whose [create] reports its failure in [err], as the
    interface of providers/types.ts documents it. *)
Definition refusing : Upstream.t :=
  Upstream.mk (λ _ _, createResult None (Some (newError "invalid api key")))
              (λ _ _ _, ResultOf hello) (λ _ _, ResultOf [gpt]) (λ _ _, ResultOf [gpt]).

(** A request that does not ask for a stream. *)
Definition plainRequestFor (model : string) : Request.t :=
  Request.mk model [hi] None None None None None None None None None None
             None None None None.

(** The world of [world] with content spoofing switched on. *)
Definition spoofingWorld : World :=
  mkWorld (Some (Config.mk (Config.mkAdvanced 3 500 true) (Some [("acme", acmeConfig)])))
          [("openai", OpenAIProviderClient)]
          (mkManager {[ "acme" := acme ]} {[ "acme/gpt" := "acme" ]}) [].

(** A source of random numbers: the [k]-th draw below [n] is [k mod n]. *)
Definition cycle (k n : nat) : nat := k mod n.

(** A comparison of strings by length, standing for [localeCompare]. *)
Definition byLength (a b : string) : Z :=
  (Z.of_nat (String.length a) - Z.of_nat (String.length b))%Z.

(** A clock that stands still. *)
Definition noon (_ : nat) : Z := 1700000000000%Z.

End Fixtures.

(** ** Vocabulary of the statements *)

(** The result the router builds from the answer of a client. *)
Definition relayed (r : Result Response.t) : Result Response.t :=
  match err r, data r with
  | Some e, _ => ResultOfError e
  | None, None => ResultOfError (newError "Completion failed")
  | None, Some response => Result_ (Some response)
  end.

(** The world after some more calls. *)
Definition record (w : World) (events : list Event) : World :=
  mkWorld (globalConfig w) (factories w) (manager w) (trace w ++ events).

(** The world with another manager state. *)
Definition with_manager (w : World) (m : Manager) : World :=
  mkWorld (globalConfig w) (factories w) m (trace w).

(** The aliases that the table routes to a provider. *)
Definition aliasesOf (providerName : string) (m : Manager) : gset string :=
  dom (filter (λ kv, snd kv = providerName) (modelAliasesMapping m)).

(** The manager states that another task can observe while one
    [refreshModels] runs: before the call, at its [await], and after
    its return.  Between these points the code runs uninterrupted. *)
Definition refreshModels_observable (up : Upstream.t) (name : string) (w : World)
    : list Manager :=
  match ProviderManager.refreshModels_begin name w with
  | (Return (inr client), w1) =>
      let fetched := Upstream.refreshModels up (trace w1) client in
      let w1' := record w1 [ClientRefreshModels client] in
      [manager w; manager w1;
       manager (snd (ProviderManager.refreshModels_resume name fetched w1'))]
  | (_, w1) => [manager w; manager w1]
  end.

(** Every alias of the table is the name of its provider, a slash and
    an id. *)
Definition prefixed (m : Manager) : Prop :=
  ∀ alias providerName,
    modelAliasesMapping m !! alias = Some providerName →
    ∃ id, alias = providerName +:+ "/" +:+ id.

(** A computation keeps a property of the manager. *)
Definition keeps (I : Manager → Prop) {A} (c : M A) : Prop :=
  ∀ w, I (manager w) → I (manager (snd (c w))).

(** The calls that initialization makes for the entries of a
    configuration: [create], then [models], on the client of each
    enabled provider. *)
Definition initCalls (fs : list (string * ProviderFactory))
    (entries : list (string * ProviderConfig.t)) : list Event :=
  entry ← entries;
  if ProviderConfig.enabled (snd entry)
  then match ProviderRegistry.get (ProviderConfig.type (snd entry)) fs with
       | Some factory =>
           let client := factory (fst entry) (snd entry) in
           [ClientCreate client; ClientModels client]
       | None => []
       end
  else [].

(** Every code unit of a string is one of [Spoof.characters]. *)
Definition alphanumeric (s : string) : Prop :=
  ∀ i c, String.get i s = Some c → ∃ j, String.get j Spoof.characters = Some c.

(** An event of an attempt made for a request: the entry into the
    router with the request, or the call of a client with the
    messages of the request and [stream] off. *)
Definition attemptOf (request : Request.t) (e : Event) : Prop :=
  match e with
  | RouterCompletion r => r = request
  | ClientCompletion _ forwarded =>
      Request.messages forwarded = Request.messages request ∧
      Request.stream forwarded = Some false
  | _ => False
  end.

(** The upstream gave the response as the answer of some call. *)
Definition answered (up : Upstream.t) (response : Response.t) : Prop :=
  ∃ tr client forwarded,
    Upstream.completion up tr client forwarded =
      createResult (Some (PValue response)) None.

(** The message of the error frame for an outcome of the retry loop
    that is not a response. *)
Definition failureMessage (outcome : Outcome (Result Response.t)) : option string :=
  match outcome with
  | Throw e => Some (message e)
  | Return r =>
      match err r, data r with
      | Some e, _ => Some (message e)
      | None, None => Some "Unknown error"
      | None, Some (PError _) => Some (message Handler.usageOfUndefined)
      | None, Some (PValue _) => None
      end
  end.

(** The frames written for an outcome of the retry loop on a live
    session. *)
Definition answerFrames (stringify : Json → string)
    (outcome : Outcome (Result Response.t)) : list string :=
  match failureMessage outcome with
  | Some msg => [FakeStream.errorData stringify msg]
  | None =>
      match outcome with
      | Return r =>
          match data r with
          | Some (PValue response) => FakeStream.successFrames stringify response
          | _ => []
          end
      | Throw _ => []
      end
  end.

Definition is_ClearInterval (a : FakeStream.Action) : bool :=
  match a with FakeStream.ClearInterval => true | _ => false end.

(** The number of times a session has called [clearInterval]. *)
Definition clearings (s : FakeStream.Session) : nat :=
  List.length (List.filter is_ClearInterval (FakeStream.actions s)).

(** The log level in force. *)
Definition levelOf (s : ConfigStore.State) : LogLevel.t :=
  match ConfigStore.globalConfig s with
  | Some config => default LogLevel.info (ConfigFile.logging config)
  | None => LogLevel.info
  end.

(** * Properties *)

(** ** Strings and results *)
Section Basics.

Lemma startsWith_app p r : Str.startsWith (p +:+ r) p = true.
Proof.
  induction p as [|c p IH]; simpl; [done|].
  by rewrite Ascii.eqb_refl.
Qed.

Lemma slice_app p r : Str.slice (p +:+ r) (String.length p) = r.
Proof. induction p as [|c p IH]; simpl; done. Qed.

Lemma startsWith_inv s p : Str.startsWith s p = true → s = p +:+ Str.slice s (String.length p).
Proof.
  revert s. induction p as [|c p IH]; intros s H; simpl in *; [done|].
  destruct s as [|d s]; [done|].
  destruct (Ascii.eqb_spec c d) as [->|]; [|done].
  change (String d s = String d (p +:+ Str.slice s (String.length p))).
  f_equal. by apply IH.
Qed.

Lemma truthy_ne s : Str.truthy s = true ↔ s ≠ EmptyString.
Proof. destruct s; simpl; split; done. Qed.

Lemma string_app_assoc (a b c : string) : (a +:+ b) +:+ c = a +:+ (b +:+ c).
Proof.
  induction a as [|x a IH]; [done|].
  change (String x ((a +:+ b) +:+ c) = String x (a +:+ (b +:+ c))).
  by f_equal.
Qed.

(** Whatever is passed to [Result], the result it builds reports no
    error. *)
Lemma Result_isOk {T} (arg : option (Payload T)) : isOk (Result_ arg) = true.
Proof. done. Qed.

End Basics.

(** ** The model filter *)
Section Filter.

Lemma applyFilter_eq (providerName : string) (models : ModelsList) (w : World) :
  ProviderManager.applyFilter providerName (PValue models) w =
    (Return (PValue
       match configuredFilter w providerName with
       | None => models
       | Some f =>
           FilterUtil.apply models (list_to_set (ProviderFilter.models f))
                            (ProviderFilter.mode f)
       end), w).
Proof.
  unfold ProviderManager.applyFilter, configuredFilter, try_catch, bind, getConfig, ret.
  destruct (globalConfig w) as [config|]; simpl; [|done].
  destruct (Config.getProviderConfig config providerName) as [pc|]; simpl; [|done].
  by destruct (ProviderConfig.filter pc).
Qed.

(** C4.  Whitelist keeps exactly the upstream models whose id is in
    the set, blacklist exactly those whose id is not, both in upstream
    order; no model is in both and together they are the upstream
    list again; [applyFilter] is the configured one of the two, and
    the identity when no filter is configured. *)
Theorem filter_partition
    (models : ModelsList) (S : gset string) (providerName : string) (w : World) :
  let wl := FilterUtil.whitelist models S in
  let bl := FilterUtil.blacklist models S in
  (∀ m, m ∈ wl ↔ m ∈ models ∧ ModelInfo.id m ∈ S) ∧
  (∀ m, m ∈ bl ↔ m ∈ models ∧ ModelInfo.id m ∉ S) ∧
  wl `sublist_of` models ∧
  bl `sublist_of` models ∧
  (∀ m, ¬ (m ∈ wl ∧ m ∈ bl)) ∧
  wl ++ bl ≡ₚ models ∧
  FilterUtil.apply models S FilterUtil.whitelist_mode = wl ∧
  FilterUtil.apply models S FilterUtil.blacklist_mode = bl ∧
  ProviderManager.applyFilter providerName (PValue models) w =
    (Return (PValue
       match configuredFilter w providerName with
       | None => models
       | Some f =>
           FilterUtil.apply models (list_to_set (ProviderFilter.models f))
                            (ProviderFilter.mode f)
       end), w).
Proof.
  intros wl bl. subst wl bl. unfold FilterUtil.whitelist, FilterUtil.blacklist.
  split_and!.
  - intros m. rewrite list_elem_of_filter. tauto.
  - intros m. rewrite list_elem_of_filter. tauto.
  - apply sublist_filter.
  - apply sublist_filter.
  - intros m [H1 H2].
    apply list_elem_of_filter in H1 as [H1 _].
    apply list_elem_of_filter in H2 as [H2 _]. done.
  - apply filter_app_complement.
  - done.
  - done.
  - apply applyFilter_eq.
Qed.

End Filter.

(** ** Unfolding the monad *)
Ltac unfold_monad :=
  unfold bind, ret, throw, try_catch, call, emit, get_manager, put_manager, getConfig in *.

(** ** The alias table under the edits of the manager *)
Section AliasTable.

Lemma foldl_delete_lookup (l : list string) (m : gmap string string) (a : string) :
  foldl (λ acc alias, delete alias acc) m l !! a =
    if decide (a ∈ l) then None else m !! a.
Proof.
  revert m. induction l as [|k l IH]; intros m; cbn [foldl].
  - destruct (decide (a ∈ [])) as [H|H]; [by apply elem_of_nil in H | done].
  - rewrite IH. clear IH.
    destruct (decide (a ∈ k :: l)) as [Hin|Hnin], (decide (a ∈ l)) as [Hl|Hl];
      try done.
    + apply elem_of_cons in Hin as [->|?]; [|done]. apply lookup_delete_eq.
    + apply not_elem_of_cons in Hnin as [_ ?]. done.
    + apply not_elem_of_cons in Hnin as [? _]. by apply lookup_delete_ne.
Qed.

Lemma elem_of_aliasesToRemove (providerName : string) (m : gmap string string)
    (a : string) :
  a ∈ ProviderManager.aliasesToRemove providerName m ↔ m !! a = Some providerName.
Proof.
  unfold ProviderManager.aliasesToRemove. rewrite list_elem_of_fmap. split.
  - intros [[k v] [-> H]]. apply list_elem_of_filter in H as [Hv H].
    simpl in *. subst v. by apply elem_of_map_to_list.
  - intros H. exists (a, providerName). split; [done|].
    apply list_elem_of_filter. split; [done|]. by apply elem_of_map_to_list.
Qed.

(** [removeModels] deletes the entries of the provider and no other. *)
Lemma removeModels_map_lookup (providerName : string) (m : gmap string string)
    (a : string) :
  ProviderManager.removeModels_map providerName m !! a =
    if decide (m !! a = Some providerName) then None else m !! a.
Proof.
  unfold ProviderManager.removeModels_map. rewrite foldl_delete_lookup.
  pose proof (elem_of_aliasesToRemove providerName m a) as Hiff.
  destruct (decide (a ∈ ProviderManager.aliasesToRemove providerName m)),
    (decide (m !! a = Some providerName)); try done; tauto.
Qed.

(** [registerModels] maps the alias of every model to the provider
    and touches no other key. *)
Lemma registerModels_map_lookup (providerName : string) (models : ModelsList)
    (m : gmap string string) (a : string) :
  ProviderManager.registerModels_map providerName models m !! a =
    if decide (a ∈ ProviderManager.modelAliasOf providerName <$> models)
    then Some providerName else m !! a.
Proof.
  unfold ProviderManager.registerModels_map.
  revert m. induction models as [|x models IH]; intros m; cbn [foldl fmap list_fmap].
  - destruct (decide (a ∈ [])) as [H|H]; [by apply elem_of_nil in H | done].
  - rewrite IH. clear IH.
    destruct (decide (a ∈ ProviderManager.modelAliasOf providerName x
                        :: (ProviderManager.modelAliasOf providerName <$> models)))
      as [Hin|Hnin],
      (decide (a ∈ ProviderManager.modelAliasOf providerName <$> models)) as [Hl|Hl];
      try done.
    + apply elem_of_cons in Hin as [->|?]; [|done]. apply lookup_insert_eq.
    + apply not_elem_of_cons in Hnin as [_ ?]. done.
    + apply not_elem_of_cons in Hnin as [? _]. by apply lookup_insert_ne.
Qed.

Lemma removeModels_map_none (providerName : string) (m : gmap string string)
    (a : string) :
  ProviderManager.removeModels_map providerName m !! a ≠ Some providerName.
Proof. rewrite removeModels_map_lookup. case_decide; congruence. Qed.

End AliasTable.

(** ** The router *)
Section Router.
Context (up : Upstream.t).

Lemma completion_alias_absent (request : Request.t) (w : World) :
  modelAliasesMapping (manager w) !! Request.model request = None →
  ProviderRouter.completion up request w =
    (Return (ResultOfError (ProviderRouter.aliasNotFound (Request.model request))),
     record w [RouterCompletion request]).
Proof.
  intros H. unfold ProviderRouter.completion, ProviderManager.getModelAliasesMapping.
  unfold_monad. simpl. by rewrite H.
Qed.

Lemma completion_empty_provider (request : Request.t) (w : World) :
  modelAliasesMapping (manager w) !! Request.model request = Some EmptyString →
  ProviderRouter.completion up request w =
    (Return (ResultOfError (ProviderRouter.aliasNotFound (Request.model request))),
     record w [RouterCompletion request]).
Proof.
  intros H. unfold ProviderRouter.completion, ProviderManager.getModelAliasesMapping.
  unfold_monad. simpl. by rewrite H.
Qed.

Lemma completion_client_absent (request : Request.t) (w : World) (providerName : string) :
  modelAliasesMapping (manager w) !! Request.model request = Some providerName →
  providerName ≠ EmptyString →
  clients (manager w) !! providerName = None →
  ProviderRouter.completion up request w =
    (Return (ResultOfError (ProviderManager.notFound providerName)),
     record w [RouterCompletion request]).
Proof.
  intros H Hne Hc.
  unfold ProviderRouter.completion, ProviderManager.getModelAliasesMapping,
    ProviderManager.getClient.
  unfold_monad. simpl. rewrite H.
  apply truthy_ne in Hne. rewrite Hne. simpl. by rewrite Hc.
Qed.

Lemma completion_resolved (request : Request.t) (w : World)
    (providerName : string) (client : ProviderClient.t) :
  modelAliasesMapping (manager w) !! Request.model request = Some providerName →
  providerName ≠ EmptyString →
  clients (manager w) !! providerName = Some client →
  let forwarded :=
    ProviderRouter.providerRequest request
      (ProviderRouter.actualModel (Request.model request) providerName) in
  ProviderRouter.completion up request w =
    (Return (relayed (Upstream.completion up (trace w ++ [RouterCompletion request])
                        client forwarded)),
     record w [RouterCompletion request; ClientCompletion client forwarded]).
Proof.
  intros H Hne Hc forwarded.
  unfold ProviderRouter.completion, ProviderManager.getModelAliasesMapping,
    ProviderManager.getClient.
  unfold_monad. simpl. rewrite H.
  apply truthy_ne in Hne. rewrite Hne. simpl. rewrite Hc.
  fold forwarded. unfold relayed, record.
  cbn [globalConfig factories manager trace]. rewrite <- List.app_assoc. simpl.
  destruct (Upstream.completion up _ client forwarded) as [[d|] [e|]]; done.
Qed.

(** The router returns; it never throws. *)
Lemma completion_returns (request : Request.t) (w : World) :
  ∃ r w', ProviderRouter.completion up request w = (Return r, w').
Proof.
  destruct (modelAliasesMapping (manager w) !! Request.model request)
    as [providerName|] eqn:H.
  - destruct (decide (providerName = EmptyString)) as [->|Hne].
    + rewrite completion_empty_provider by done. eauto.
    + destruct (clients (manager w) !! providerName) as [client|] eqn:Hc.
      * rewrite (completion_resolved _ _ _ _ H Hne Hc). eauto.
      * rewrite (completion_client_absent _ _ _ H Hne Hc). eauto.
  - rewrite completion_alias_absent by done. eauto.
Qed.

(** Whatever the router returns carries no [err]. *)
Lemma completion_err_null (request : Request.t) (w : World) r w' :
  ProviderRouter.completion up request w = (Return r, w') →
  err r = None ∧ is_Some (data r).
Proof.
  destruct (modelAliasesMapping (manager w) !! Request.model request)
    as [providerName|] eqn:H.
  - destruct (decide (providerName = EmptyString)) as [->|Hne].
    + rewrite completion_empty_provider by done. intros [= <- <-]. by eauto.
    + destruct (clients (manager w) !! providerName) as [client|] eqn:Hc.
      * rewrite (completion_resolved _ _ _ _ H Hne Hc). intros [= <- <-].
        unfold relayed.
        destruct (Upstream.completion up _ client _) as [[d|] [e|]]; by eauto.
      * rewrite (completion_client_absent _ _ _ H Hne Hc). intros [= <- <-]. by eauto.
  - rewrite completion_alias_absent by done. intros [= <- <-]. by eauto.
Qed.

End Router.

Section RouterClaims.







(** The results of the failure paths of the router report no error:
    the error is in the data slot, [err] is [null] and [isErr()] is
    [false]. *)
Lemma completion_failures_report_no_error :
  (∃ r w',
     ProviderRouter.completion Fixtures.healthy (Fixtures.requestFor "ghost/foo")
                               Fixtures.world = (Return r, w') ∧
     data r = Some (PError (ProviderRouter.aliasNotFound "ghost/foo")) ∧
     err r = None ∧
     isErr r = false) ∧
  (∃ r w',
     ProviderRouter.completion Fixtures.healthy (Fixtures.requestFor "acme/gpt")
                               Fixtures.orphanWorld = (Return r, w') ∧
     data r = Some (PError (ProviderManager.notFound "acme")) ∧
     err r = None ∧
     isErr r = false).
Proof.
  split.
  - eexists _, _. rewrite completion_alias_absent by done.
    split_and!; done.
  - eexists _, _.
    rewrite (completion_client_absent _ _ _ "acme") by done.
    split_and!; done.
Qed.

End RouterClaims.

(** ** The provider manager: refresh *)
Section Refresh.
Context (up : Upstream.t).

Lemma refreshModels_begin_unknown (name : string) (w : World) :
  clients (manager w) !! name = None →
  ProviderManager.refreshModels_begin name w =
    (Return (inl (ResultOfError (ProviderManager.notFound name))), w).
Proof.
  intros H. unfold ProviderManager.refreshModels_begin. unfold_monad. by rewrite H.
Qed.

Lemma refreshModels_begin_registered (name : string) (w : World)
    (client : ProviderClient.t) :
  clients (manager w) !! name = Some client →
  ProviderManager.refreshModels_begin name w =
    (Return (inr client),
     with_manager w
       (mkManager (clients (manager w))
          (ProviderManager.removeModels_map name (modelAliasesMapping (manager w))))).
Proof.
  intros H. unfold ProviderManager.refreshModels_begin, ProviderManager.removeModels.
  unfold_monad. by rewrite H.
Qed.

(** [refreshModels] is its two pieces around the call of the client. *)
Lemma refreshModels_pieces (name : string) (w : World) :
  ProviderManager.refreshModels up name w =
    match ProviderManager.refreshModels_begin name w with
    | (Return (inl r), w1) => (Return r, w1)
    | (Return (inr client), w1) =>
        ProviderManager.refreshModels_resume name
          (Upstream.refreshModels up (trace w1) client)
          (record w1 [ClientRefreshModels client])
    | (Throw e, w1) => (Throw e, w1)
    end.
Proof.
  unfold ProviderManager.refreshModels, bind at 1.
  destruct (ProviderManager.refreshModels_begin name w) as [[[r|client]|e] w1]; done.
Qed.

Lemma filter_same_length {A} (P : A → Prop) `{!∀ x, Decision (P x)} (l : list A) :
  List.length (filter P l) = List.length l → filter P l = l.
Proof.
  induction l as [|x l IH]; [done|].
  rewrite filter_cons. destruct (decide (P x)); simpl; intros Hlen.
  - f_equal. apply IH. lia.
  - pose proof (length_filter P l). lia.
Qed.

Lemma aliasesOf_spec (providerName : string) (m : Manager) (a : string) :
  a ∈ aliasesOf providerName m ↔ modelAliasesMapping m !! a = Some providerName.
Proof.
  unfold aliasesOf. rewrite elem_of_dom. split.
  - intros [v H]. apply map_lookup_filter_Some in H as [H Hv]. simpl in Hv. by subst.
  - intros H. exists providerName. by apply map_lookup_filter_Some.
Qed.

Lemma aliasesOf_removed (providerName : string) (cs : gmap string ProviderClient.t)
    (m : gmap string string) :
  aliasesOf providerName
    (mkManager cs (ProviderManager.removeModels_map providerName m)) = ∅.
Proof.
  apply set_eq. intros a. rewrite aliasesOf_spec. simpl.
  split; [|by intros ?%not_elem_of_empty].
  intros H. by apply removeModels_map_none in H.
Qed.

(** A fetch that answers with a list of models: the filtered models
    are registered and the call returns a result. *)
Lemma refreshModels_resume_models (name : string) (models : ModelsList) (w : World) :
  let filtered :=
    match configuredFilter w name with
    | None => models
    | Some f => FilterUtil.apply models (list_to_set (ProviderFilter.models f))
                                 (ProviderFilter.mode f)
    end in
  ∃ r,
    ProviderManager.refreshModels_resume name (ResultOf models) w =
      (Return r,
       with_manager w
         (mkManager (clients (manager w))
            (ProviderManager.registerModels_map name filtered
               (modelAliasesMapping (manager w))))) ∧
    data r = Some (PValue filtered) ∧ err r = None.
Proof.
  intros filtered. unfold ProviderManager.refreshModels_resume. simpl.
  unfold bind at 1. rewrite applyFilter_eq. fold filtered.
  unfold ProviderManager.registerModels. unfold_monad. simpl.
  case_bool_decide as Hlen; eexists; (split; [reflexivity|]); [done|].
  split; [|done]. simpl. do 2 f_equal.
  (* equal lengths: the filter kept every model *)
  subst filtered. destruct (configuredFilter w name) as [f|]; [|done].
  assert (Hl : List.length (FilterUtil.apply models
                 (list_to_set (ProviderFilter.models f)) (ProviderFilter.mode f))
               = List.length models).
  { by injection Hlen. }
  symmetry. destruct (ProviderFilter.mode f); simpl in *.
  + by apply filter_same_length.
  + by apply filter_same_length.
Qed.

(** A fetch answered the way [OpenAIProviderClient] reports a
    failure, with the error as data: the call throws. *)
Lemma refreshModels_resume_error_payload (name : string) (e : Error) (w : World) :
  ProviderManager.refreshModels_resume name (ResultOfError e) w =
    (Throw (typeError "models is not iterable"), w).
Proof.
  unfold ProviderManager.refreshModels_resume. simpl.
  unfold bind at 1.
  assert (ProviderManager.applyFilter name (PError e) w = (Return (PError e), w)) as ->.
  { unfold ProviderManager.applyFilter. unfold_monad.
    destruct (globalConfig w) as [config|]; simpl; [|done].
    destruct (Config.getProviderConfig config name) as [pc|]; simpl; [|done].
    by destruct (ProviderConfig.filter pc). }
  done.
Qed.

(** A fetch that fails with its error in [err]: the error is passed
    on, again as data. *)
Lemma refreshModels_resume_err (name : string) (e : Error)
    (d : option (Payload ModelsList)) (w : World) :
  ProviderManager.refreshModels_resume name (createResult d (Some e)) w =
    (Return (ResultOfError e), w).
Proof. done. Qed.

End Refresh.

Section RefreshClaims.

Lemma applyFilter_returns (name : string) (models : Payload ModelsList) (w : World) :
  ∃ filtered, ProviderManager.applyFilter name models w = (Return filtered, w).
Proof.
  unfold ProviderManager.applyFilter. unfold_monad.
  destruct (globalConfig w) as [config|]; simpl; [|by eauto].
  destruct (Config.getProviderConfig config name) as [pc|]; simpl; [|by eauto].
  destruct (ProviderConfig.filter pc); [|by eauto].
  destruct models; by eauto.
Qed.

(** The second piece of [refreshModels] calls no client. *)
Lemma refreshModels_resume_trace (name : string) (fetched : Result ModelsList)
    (w : World) :
  trace (snd (ProviderManager.refreshModels_resume name fetched w)) = trace w.
Proof.
  unfold ProviderManager.refreshModels_resume.
  destruct (err fetched); [done|]. destruct (data fetched) as [models|]; [|done].
  unfold bind at 1.
  destruct (applyFilter_returns name models w) as [filtered ->].
  unfold ProviderManager.registerModels. destruct filtered; done.
Qed.

(** A successful refresh leaves the provider with exactly the aliases
    of the filtered models it fetched. *)
Lemma refreshModels_success (up : Upstream.t) (name : string) (w : World)
    (client : ProviderClient.t) (models : ModelsList) :
  clients (manager w) !! name = Some client →
  Upstream.refreshModels up (trace w) client = ResultOf models →
  let filtered :=
    match configuredFilter w name with
    | None => models
    | Some f => FilterUtil.apply models (list_to_set (ProviderFilter.models f))
                                 (ProviderFilter.mode f)
    end in
  ∃ r w',
    ProviderManager.refreshModels up name w = (Return r, w') ∧
    data r = Some (PValue filtered) ∧
    clients (manager w') = clients (manager w) ∧
    ∀ a, a ∈ aliasesOf name (manager w') ↔
         a ∈ ProviderManager.modelAliasOf name <$> filtered.
Proof.
  intros Hc Hfetch filtered.
  rewrite refreshModels_pieces, (refreshModels_begin_registered _ _ _ Hc).
  cbn [with_manager trace]. rewrite Hfetch.
  edestruct (refreshModels_resume_models name models) as (r & -> & Hd & _).
  exists r. eexists. split; [reflexivity|]. split; [exact Hd|]. split; [done|].
  intros a. rewrite aliasesOf_spec. simpl.
  rewrite registerModels_map_lookup.
  pose proof (removeModels_map_none name (modelAliasesMapping (manager w)) a).
  case_decide; [done|]. split; [done|]. intros. done.
Qed.

(** C7, with the upstream down.  [OpenAIProviderClient] reports the
    failed fetch as [Result(new Error(..))], which puts the error in
    the data slot and leaves [err] null; [refreshModels] takes it for
    a model list and throws a [TypeError] when it iterates over it.
    The provider stays registered, without aliases.  On an unknown
    provider the world is unchanged and the returned result reports
    no error. *)
Theorem refreshModels_failed_fetch_throws :
  (∃ e w',
     ProviderManager.refreshModels Fixtures.down "acme" Fixtures.world = (Throw e, w') ∧
     isTypeError e = true ∧
     clients (manager w') !! "acme" = Some Fixtures.acme ∧
     aliasesOf "acme" (manager w') = ∅ ∧
     trace w' = [ClientRefreshModels Fixtures.acme]) ∧
  (∃ r,
     ProviderManager.refreshModels Fixtures.down "ghost" Fixtures.world =
       (Return r, Fixtures.world) ∧
     data r = Some (PError (ProviderManager.notFound "ghost")) ∧
     err r = None ∧ isErr r = false).
Proof.
  split.
  - eexists _, _. rewrite refreshModels_pieces.
    rewrite (refreshModels_begin_registered _ _ Fixtures.acme) by done.
    cbn [Upstream.refreshModels Fixtures.down]. unfold Fixtures.http500.
    rewrite refreshModels_resume_error_payload.
    split; [reflexivity|]. split; [done|]. split; [done|].
    split; [|done]. apply aliasesOf_removed.
  - eexists. rewrite refreshModels_pieces.
    rewrite refreshModels_begin_unknown by done. done.
Qed.

(** C9, as stated, fails: the refresh of a provider that has the
    alias [acme/gpt] before and after shows an empty alias set at its
    [await]. *)
Lemma refreshModels_atomic_counterexample :
  ¬ (∀ (up : Upstream.t) (name : string) (w : World) (m : Manager),
       m ∈ refreshModels_observable up name w →
       aliasesOf name m = aliasesOf name (manager w) ∨
       aliasesOf name m =
         aliasesOf name (manager (snd (ProviderManager.refreshModels up name w)))).
Proof.
  intros claim.
  pose (m1 := mkManager (clients (manager Fixtures.world))
                (ProviderManager.removeModels_map "acme"
                   (modelAliasesMapping (manager Fixtures.world)))).
  assert (Hobs : m1 ∈ refreshModels_observable Fixtures.healthy "acme" Fixtures.world).
  { unfold refreshModels_observable.
    rewrite (refreshModels_begin_registered _ _ Fixtures.acme) by done.
    apply list_elem_of_further, list_elem_of_here. }
  assert (Hempty : "acme/gpt" ∉ aliasesOf "acme" m1).
  { unfold m1. rewrite aliasesOf_removed. apply not_elem_of_empty. }
  destruct (claim _ _ _ _ Hobs) as [H|H]; rewrite H in Hempty; apply Hempty.
  - by apply aliasesOf_spec.
  - edestruct (refreshModels_success Fixtures.healthy "acme" Fixtures.world
                 Fixtures.acme [Fixtures.gpt]) as (r & w' & -> & _ & _ & Hal);
      [done|done|].
    apply Hal. simpl. apply list_elem_of_here.
Qed.

(** C9 (amended).  While [refreshModels] runs on a registered
    provider, another task can observe the manager at three points:
    before the call, at the [await] of the fetch, and after the
    return.  The removal and the re-insertion are each uninterrupted
    (neither piece calls a client), but the fetch lies between them:
    at the [await] the provider has no alias at all.  A reader thus
    sees the old set, the empty set or the new set of aliases. *)
Theorem refreshModels_observations
    (up : Upstream.t) (name : string) (w : World) (client : ProviderClient.t) :
  clients (manager w) !! name = Some client →
  ∃ m1 m2,
    refreshModels_observable up name w = [manager w; m1; m2] ∧
    aliasesOf name m1 = ∅ ∧
    m2 = manager (snd (ProviderManager.refreshModels up name w)) ∧
    trace (snd (ProviderManager.refreshModels_begin name w)) = trace w ∧
    (∀ fetched w1,
       trace (snd (ProviderManager.refreshModels_resume name fetched w1)) = trace w1) ∧
    ∀ m, m ∈ refreshModels_observable up name w →
         aliasesOf name m = aliasesOf name (manager w) ∨
         aliasesOf name m = ∅ ∨
         aliasesOf name m =
           aliasesOf name (manager (snd (ProviderManager.refreshModels up name w))).
Proof.
  intros Hc. unfold refreshModels_observable.
  rewrite refreshModels_pieces, (refreshModels_begin_registered _ _ _ Hc).
  eexists _, _. split; [reflexivity|].
  split; [apply aliasesOf_removed|]. split; [reflexivity|]. split; [done|].
  split; [apply refreshModels_resume_trace|].
  intros m Hm. repeat apply elem_of_cons in Hm as [->|Hm].
  - by left.
  - right; left. apply aliasesOf_removed.
  - by right; right.
  - by apply elem_of_nil in Hm.
Qed.

Lemma refreshModels_observations_witness :
  clients (manager Fixtures.world) !! "acme" = Some Fixtures.acme ∧
  ∃ m1 m2,
    refreshModels_observable Fixtures.healthy "acme" Fixtures.world =
      [manager Fixtures.world; m1; m2] ∧
    aliasesOf "acme" m1 = ∅.
Proof.
  split; [reflexivity|].
  destruct (refreshModels_observations Fixtures.healthy "acme" Fixtures.world
              Fixtures.acme) as (m1 & m2 & Hobs & Hempty & _); [reflexivity|].
  exists m1, m2. split; [exact Hobs | exact Hempty].
Defined.

End RefreshClaims.

(** ** The provider registry and initialization *)
Section Initialize.
Context (up : Upstream.t).

(** [createClient] throws exactly when the type has no factory or is
    not a value of the enumeration. *)
Lemma createClient_throws (name : string) (providerConfig : ProviderConfig.t)
    (w : World) :
  ProviderRegistry.get (ProviderConfig.type providerConfig) (factories w) = None ∨
  ProviderConfig.type providerConfig ∉ ProviderRegistry.ProviderType_values →
  ∃ e, ProviderRegistry.createClient name providerConfig w = (Throw e, w).
Proof.
  intros H. unfold ProviderRegistry.createClient.
  destruct (ProviderRegistry.get _ _) as [factory|]; [|by eauto].
  destruct H as [H|H]; [done|].
  rewrite bool_decide_eq_false_2 by done. simpl. by eauto.
Qed.

(** Once the loop has gone through some entries without failing, it
    goes on with the entries that follow. *)
Lemma initializeLoop_app (before rest : list (string * ProviderConfig.t))
    (w w1 : World) :
  ProviderManager.initializeLoop up before w = (Return ResultVoid, w1) →
  ProviderManager.initializeLoop up (before ++ rest) w =
    ProviderManager.initializeLoop up rest w1.
Proof.
  revert w. induction before as [|[name providerConfig] before IH]; intros w.
  - intros [= <-]. done.
  - cbn [ProviderManager.initializeLoop app].
    destruct (negb (ProviderConfig.enabled providerConfig)); [apply IH|].
    unfold bind, call.
    destruct (ProviderRegistry.createClient name providerConfig w) as [[client|e] w'];
      [|done].
    destruct (err (Upstream.create up (trace w') client)); [done|].
    match goal with
    | |- (let (_, _) := ?c in _) = _ → _ => destruct c as [[[]|e] w3]; [|done]
    end.
    destruct (ProviderManager.setClient name client w3) as [[[]|e] w4]; [|done].
    apply IH.
Qed.

Lemma destroyProvider_returns (name : string) (w : World) :
  ∃ r w', ProviderManager.destroyProvider name w = (Return r, w').
Proof.
  unfold ProviderManager.destroyProvider, ProviderManager.removeModels. unfold_monad.
  simpl. destruct (clients (manager w) !! name); by eauto.
Qed.

Lemma models_returns (w : World) :
  ∃ r, ProviderRouter.models w = (Return r, w).
Proof. unfold ProviderRouter.models. by eauto. Qed.

End Initialize.

Section InitializeClaims.

(** C8, as stated, fails: with no factory registered,
    [initializeProviders] throws on the first enabled provider
    instead of returning a result. *)
Lemma initializeProviders_result_counterexample :
  ¬ (∀ (up : Upstream.t) (providers : option (list (string * ProviderConfig.t)))
       (w : World),
       ∃ r w', ProviderManager.initializeProviders up providers w = (Return r, w')).
Proof.
  intros claim.
  destruct (claim Fixtures.healthy (Some [("acme", Fixtures.acmeConfig)])
              Fixtures.emptyRegistryWorld) as (r & w' & H).
  discriminate H.
Qed.

(** C8 (amended).  [createClient] signals a type without factory, or
    a type outside the enumeration, by throwing, and
    [initializeProviders] does not catch it: when the providers before
    an enabled provider of such a type have been initialized, the call
    throws the error of [createClient] and returns no result.  The
    router's [completion] and [models] and the manager's
    [destroyProvider] always return a result object. *)
Theorem initializeProviders_unknown_type_throws
    (up : Upstream.t) (before rest : list (string * ProviderConfig.t))
    (name : string) (providerConfig : ProviderConfig.t) (w w1 : World) :
  ProviderManager.initializeProviders up (Some before) w = (Return ResultVoid, w1) →
  ProviderConfig.enabled providerConfig = true →
  ProviderRegistry.get (ProviderConfig.type providerConfig) (factories w1) = None ∨
  ProviderConfig.type providerConfig ∉ ProviderRegistry.ProviderType_values →
  (∃ e,
     ProviderRegistry.createClient name providerConfig w1 = (Throw e, w1) ∧
     ProviderManager.initializeProviders up
       (Some (before ++ (name, providerConfig) :: rest)) w = (Throw e, w1)) ∧
  (∀ request w0, ∃ r w', ProviderRouter.completion up request w0 = (Return r, w')) ∧
  (∀ w0, ∃ r, ProviderRouter.models w0 = (Return r, w0)) ∧
  (∀ name0 w0, ∃ r w', ProviderManager.destroyProvider name0 w0 = (Return r, w')).
Proof.
  intros Hbefore Henabled Htype. split_and!.
  - destruct (createClient_throws name providerConfig w1 Htype) as [e He].
    exists e. split; [done|].
    unfold ProviderManager.initializeProviders in *. simpl in *.
    rewrite (initializeLoop_app up _ _ _ _ Hbefore).
    cbn [ProviderManager.initializeLoop]. rewrite Henabled. simpl.
    unfold bind at 1. by rewrite He.
  - apply completion_returns.
  - apply models_returns.
  - apply destroyProvider_returns.
Qed.

Lemma initializeProviders_unknown_type_throws_witness :
  ProviderManager.initializeProviders Fixtures.healthy (Some [])
    Fixtures.emptyRegistryWorld = (Return ResultVoid, Fixtures.emptyRegistryWorld) ∧
  ProviderConfig.enabled Fixtures.acmeConfig = true ∧
  ProviderRegistry.get "openai" (factories Fixtures.emptyRegistryWorld) = None ∧
  ∃ e,
    ProviderManager.initializeProviders Fixtures.healthy
      (Some [("acme", Fixtures.acmeConfig)]) Fixtures.emptyRegistryWorld =
      (Throw e, Fixtures.emptyRegistryWorld).
Proof.
  split; [reflexivity|]. split; [reflexivity|]. split; [reflexivity|].
  destruct (initializeProviders_unknown_type_throws Fixtures.healthy [] []
              "acme" Fixtures.acmeConfig
              Fixtures.emptyRegistryWorld Fixtures.emptyRegistryWorld)
    as [(e & _ & He) _]; [reflexivity | reflexivity | left; reflexivity |].
  exists e. exact He.
Defined.

End InitializeClaims.

(** ** The alias table as an object: copies *)
Section Snapshot.
Import MapStore.

Lemma Map_set_other (l l' : nat) (k v : string) (st : State) :
  l' ≠ l → read l' (Map_set l k v st) = read l' st.
Proof. intros H. unfold read, Map_set. simpl. by rewrite lookup_insert_ne. Qed.

Lemma Map_delete_other (l l' : nat) (k : string) (st : State) :
  l' ≠ l → read l' (Map_delete l k st) = read l' st.
Proof. intros H. unfold read, Map_delete. simpl. by rewrite lookup_insert_ne. Qed.

Lemma Map_set_same (l : nat) (k v : string) (st : State) :
  read l (Map_set l k v st) = <[k := v]> (read l st).
Proof. unfold read at 1, Map_set. simpl. by rewrite lookup_insert_eq. Qed.

Lemma Map_delete_same (l : nat) (k : string) (st : State) :
  read l (Map_delete l k st) = delete k (read l st).
Proof. unfold read at 1, Map_delete. simpl. by rewrite lookup_insert_eq. Qed.

(** An in-place edit through the field: the field keeps its
    reference, every other object keeps its contents, and the object
    of the field gets the contents computed on values. *)
Lemma registerModels_store (providerName : string) (models : ModelsList) (st : State) :
  this_modelAliasesMapping (registerModels providerName models st) =
    this_modelAliasesMapping st ∧
  (∀ l, l ≠ this_modelAliasesMapping st →
        read l (registerModels providerName models st) = read l st) ∧
  read (this_modelAliasesMapping st) (registerModels providerName models st) =
    ProviderManager.registerModels_map providerName models
      (read (this_modelAliasesMapping st) st).
Proof.
  unfold registerModels, ProviderManager.registerModels_map.
  revert st. induction models as [|model models IH]; intros st; [done|].
  cbn [foldl].
  destruct (IH (Map_set (this_modelAliasesMapping st)
                  (ProviderManager.modelAliasOf providerName model) providerName st))
    as (Hf & Ho & Hs).
  simpl in Hf, Ho, Hs. split_and!.
  - done.
  - intros l Hl. rewrite Ho by done. by apply Map_set_other.
  - rewrite Hs. by rewrite Map_set_same.
Qed.

Lemma foldl_delete_store (aliases : list string) (st : State) :
  let st' := foldl (λ st alias, Map_delete (this_modelAliasesMapping st) alias st)
                   st aliases in
  this_modelAliasesMapping st' = this_modelAliasesMapping st ∧
  (∀ l, l ≠ this_modelAliasesMapping st → read l st' = read l st) ∧
  read (this_modelAliasesMapping st) st' =
    foldl (λ acc alias, delete alias acc) (read (this_modelAliasesMapping st) st) aliases.
Proof.
  revert st. induction aliases as [|alias aliases IH]; intros st; [done|].
  cbn [foldl].
  destruct (IH (Map_delete (this_modelAliasesMapping st) alias st)) as (Hf & Ho & Hs).
  simpl in Hf, Ho, Hs. split_and!.
  - done.
  - intros l Hl. rewrite Ho by done. by apply Map_delete_other.
  - rewrite Hs. by rewrite Map_delete_same.
Qed.

Lemma removeModels_store (providerName : string) (st : State) :
  this_modelAliasesMapping (removeModels providerName st) =
    this_modelAliasesMapping st ∧
  (∀ l, l ≠ this_modelAliasesMapping st →
        read l (removeModels providerName st) = read l st) ∧
  read (this_modelAliasesMapping st) (removeModels providerName st) =
    ProviderManager.removeModels_map providerName
      (read (this_modelAliasesMapping st) st).
Proof. unfold removeModels. apply foldl_delete_store. Qed.

Lemma mutate_store (st : State) (mu : Mutation) :
  this_modelAliasesMapping (mutate st mu) = this_modelAliasesMapping st ∧
  (∀ l, l ≠ this_modelAliasesMapping st → read l (mutate st mu) = read l st).
Proof.
  destruct mu; simpl.
  - destruct (registerModels_store providerName models st) as (? & ? & _); done.
  - destruct (removeModels_store providerName st) as (? & ? & _); done.
  - destruct (removeModels_store name st) as (? & ? & _); done.
Qed.

Lemma mutations_store (mutations : list Mutation) (st : State) :
  this_modelAliasesMapping (foldl mutate st mutations) = this_modelAliasesMapping st ∧
  (∀ l, l ≠ this_modelAliasesMapping st →
        read l (foldl mutate st mutations) = read l st).
Proof.
  revert st. induction mutations as [|mu mutations IH]; intros st; [done|].
  cbn [foldl]. destruct (IH (mutate st mu)) as [Hf Ho].
  destruct (mutate_store st mu) as [Hf' Ho'].
  split; [congruence|].
  intros l Hl. rewrite Ho by congruence. by apply Ho'.
Qed.

(** C10.  [getModelAliasesMapping] returns a reference to a new
    object, different from the table of the manager, holding the
    entries the table has at the call; whatever the manager does to
    its table afterwards, the object keeps those entries, so the
    lookup of the router reads the table as it was at the call. *)
Theorem getModelAliasesMapping_snapshot (st : State) (mutations : list Mutation) :
  wf st →
  let l := fst (MapStore.getModelAliasesMapping st) in
  let st' := snd (MapStore.getModelAliasesMapping st) in
  (l ∉ dom (store st)) ∧
  l ≠ this_modelAliasesMapping st' ∧
  read l st' = read (this_modelAliasesMapping st) st ∧
  read (this_modelAliasesMapping st') st' = read (this_modelAliasesMapping st) st ∧
  read l (foldl mutate st' mutations) = read (this_modelAliasesMapping st) st ∧
  ∀ modelAlias,
    fst (resolve modelAlias st) = read (this_modelAliasesMapping st) st !! modelAlias.
Proof.
  intros Hwf l st'.
  assert (Hfresh : l ∉ dom (store st)) by apply is_fresh.
  assert (Hne : l ≠ this_modelAliasesMapping st).
  { intros Heq. apply Hfresh. rewrite Heq. exact Hwf. }
  assert (Hcopy : read l st' = read (this_modelAliasesMapping st) st).
  { unfold read at 1. subst st' l. simpl. by rewrite lookup_insert_eq. }
  split_and!; try done.
  - unfold read at 1. subst st'. simpl. rewrite lookup_insert_ne; done.
  - destruct (mutations_store mutations st') as [_ Ho]. by rewrite Ho.
  - intros modelAlias. unfold resolve. rewrite <- Hcopy. subst l st'.
    by destruct (MapStore.getModelAliasesMapping st).
Qed.

Lemma getModelAliasesMapping_snapshot_witness :
  let st := mkState {[ 0 := {[ "acme/gpt" := "acme" ]} ]} 0 in
  wf st ∧
  read (fst (MapStore.getModelAliasesMapping st))
       (foldl mutate (snd (MapStore.getModelAliasesMapping st))
              [RemoveModels "acme"; DestroyProvider "acme"])
    = {[ "acme/gpt" := "acme" ]}.
Proof.
  intros st. assert (Hwf : wf st) by (unfold wf; simpl; set_solver).
  split; [exact Hwf|].
  destruct (getModelAliasesMapping_snapshot st
              [RemoveModels "acme"; DestroyProvider "acme"] Hwf)
    as (_ & _ & _ & _ & H & _).
  rewrite H. reflexivity.
Defined.

End Snapshot.

(** ** The retry loop *)
Section Retry.
Context (up : Upstream.t).

(** Each call of the router is one more router call in the trace. *)
Lemma completion_routerCalls (request : Request.t) (w : World) :
  routerCalls (trace (snd (ProviderRouter.completion up request w))) =
    S (routerCalls (trace w)).
Proof.
  assert (Hone : ∀ extra, List.forallb (λ e, negb (is_RouterCompletion e)) extra = true →
            routerCalls (trace w ++ RouterCompletion request :: extra)
            = S (routerCalls (trace w))).
  { intros extra Hextra. unfold routerCalls.
    rewrite List.filter_app, List.length_app. simpl.
    assert (List.filter is_RouterCompletion extra = []) as ->; [|simpl; lia].
    induction extra as [|x extra IH]; [done|]. simpl in *.
    apply andb_prop in Hextra as [Hx Hextra].
    destruct (is_RouterCompletion x); [done|]. by apply IH. }
  destruct (modelAliasesMapping (manager w) !! Request.model request)
    as [providerName|] eqn:H.
  - destruct (decide (providerName = EmptyString)) as [->|Hne].
    + rewrite completion_empty_provider by done. by apply (Hone []).
    + destruct (clients (manager w) !! providerName) as [client|] eqn:Hc.
      * rewrite (completion_resolved _ _ _ _ _ H Hne Hc). by apply (Hone [_]).
      * rewrite (completion_client_absent _ _ _ _ H Hne Hc). by apply (Hone []).
  - rewrite completion_alias_absent by done. by apply (Hone []).
Qed.

(** The loop calls the router at most once per attempt. *)
Lemma retryLoop_routerCalls (attempts : list Z) (request : Request.t) (w : World) :
  routerCalls (trace (snd (Handler.retryLoop up attempts request w))) ≤
    routerCalls (trace w) + List.length attempts.
Proof.
  revert w. induction attempts as [|i attempts IH]; intros w; simpl; [lia|].
  unfold bind.
  pose proof (completion_routerCalls request w) as Hcall.
  destruct (completion_returns up request w) as (r & w' & Hr).
  rewrite Hr in *. simpl in Hcall.
  destruct (err r).
  { specialize (IH w'). lia. }
  destruct (data r) as [[response|e]|].
  - destruct (_ =? _)%Z; [specialize (IH w'); lia|]. simpl. lia.
  - simpl. lia.
  - specialize (IH w'). lia.
Qed.

(** [autoRetryCompletion] calls the router at most [maxRetries] times. *)
Lemma autoRetryCompletion_routerCalls (request : Request.t) (w : World)
    (config : Config.t) :
  globalConfig w = Some config →
  routerCalls (trace (snd (Handler.autoRetryCompletion up request w))) ≤
    routerCalls (trace w) + Z.to_nat (Config.maxRetries (Config.advanced config)).
Proof.
  intros Hconfig. unfold Handler.autoRetryCompletion, bind, getConfig.
  rewrite Hconfig.
  pose proof (retryLoop_routerCalls
                (seqZ 1 (Config.maxRetries (Config.advanced config))) request w) as H.
  by rewrite length_seqZ in H.
Qed.

(** An attempt that fails, whatever the failure, ends the loop with a
    [TypeError]: the router hands the error over as data. *)
Lemma retryLoop_failure_throws (i : Z) (rest : list Z) (request : Request.t)
    (w w' : World) (r : Result Response.t) (e : Error) :
  ProviderRouter.completion up request w = (Return r, w') →
  data r = Some (PError e) →
  Handler.retryLoop up (i :: rest) request w = (Throw Handler.usageOfUndefined, w').
Proof.
  intros Hr Hd. simpl. unfold bind. rewrite Hr.
  destruct (completion_err_null up _ _ _ _ Hr) as [-> _]. by rewrite Hd.
Qed.

(** An attempt answered with completion tokens is returned at once. *)
Lemma retryLoop_accepts (i : Z) (rest : list Z) (request : Request.t)
    (w w' : World) (r : Result Response.t) (response : Response.t) :
  ProviderRouter.completion up request w = (Return r, w') →
  data r = Some (PValue response) →
  Usage.completion_tokens (Response.usage response) ≠ 0%Z →
  Handler.retryLoop up (i :: rest) request w = (Return (ResultOf response), w').
Proof.
  intros Hr Hd Htokens. simpl. unfold bind. rewrite Hr.
  destruct (completion_err_null up _ _ _ _ Hr) as [-> _]. rewrite Hd.
  by apply Z.eqb_neq in Htokens as ->.
Qed.

(** An attempt answered with zero completion tokens is followed by
    the next attempt. *)
Lemma retryLoop_retries_empty (i : Z) (rest : list Z) (request : Request.t)
    (w w' : World) (r : Result Response.t) (response : Response.t) :
  ProviderRouter.completion up request w = (Return r, w') →
  data r = Some (PValue response) →
  Usage.completion_tokens (Response.usage response) = 0%Z →
  Handler.retryLoop up (i :: rest) request w = Handler.retryLoop up rest request w'.
Proof.
  intros Hr Hd Htokens. simpl. unfold bind. rewrite Hr.
  destruct (completion_err_null up _ _ _ _ Hr) as [-> _]. rewrite Hd.
  by rewrite Htokens.
Qed.

(** With a client that always answers with zero completion tokens, the
    loop calls it once per attempt and then returns the last result. *)
Lemma retryLoop_always_empty (attempts : list Z) (request : Request.t) (w : World)
    (providerName : string) (client : ProviderClient.t) :
  modelAliasesMapping (manager w) !! Request.model request = Some providerName →
  providerName ≠ EmptyString →
  clients (manager w) !! providerName = Some client →
  (∀ tr c req, ∃ response,
      Upstream.completion up tr c req = ResultOf response ∧
      Usage.completion_tokens (Response.usage response) = 0%Z) →
  ∃ w',
    Handler.retryLoop up attempts request w =
      (Return (ResultOfError Handler.maxRetriesExceeded), w') ∧
    manager w' = manager w ∧
    List.length (clientCompletions (trace w')) =
      List.length (clientCompletions (trace w)) + List.length attempts.
Proof.
  intros Halias Hne Hclient Hempty.
  revert w Halias Hclient. induction attempts as [|i attempts IH]; intros w Halias Hclient.
  - exists w. simpl. split; [done|]. split; [done|]. lia.
  - pose proof (completion_resolved up request w _ _ Halias Hne Hclient) as Hr.
    cbv zeta in Hr.
    destruct (Hempty (trace w ++ [RouterCompletion request]) client
                (ProviderRouter.providerRequest request
                   (ProviderRouter.actualModel (Request.model request) providerName)))
      as (response & Hanswer & Htokens).
    rewrite Hanswer in Hr. unfold relayed in Hr. simpl in Hr.
    rewrite (retryLoop_retries_empty _ _ _ _ _ _ response Hr eq_refl Htokens).
    destruct (IH (record w [RouterCompletion request;
                            ClientCompletion client
                              (ProviderRouter.providerRequest request
                                 (ProviderRouter.actualModel (Request.model request)
                                    providerName))]))
      as (w' & Hloop & Hm & Hcount); [done|done|].
    exists w'. split; [done|]. split; [done|].
    rewrite Hcount. unfold record, clientCompletions. simpl.
    rewrite omap_app, List.length_app. simpl. lia.
Qed.

End Retry.

Section RetryClaims.

(** C1, with an upstream that fails once and then answers.  The
    failed first attempt is not retried: the router returns the error
    in the data slot of a result whose [err] is null, the loop reads
    [usage] on it and throws a [TypeError] after one call of the
    client.  With an upstream that always answers with zero completion
    tokens the client is called [maxRetries] = 3 times, and the result
    returned at the end again reports no error. *)
Theorem autoRetryCompletion_error_not_retried :
  (∃ e w',
     Handler.autoRetryCompletion Fixtures.failsOnce (Fixtures.requestFor "acme/gpt")
                                 Fixtures.world = (Throw e, w') ∧
     isTypeError e = true ∧
     routerCalls (trace w') = 1 ∧
     List.length (clientCompletions (trace w')) = 1) ∧
  (∃ r w',
     Handler.autoRetryCompletion Fixtures.alwaysEmpty (Fixtures.requestFor "acme/gpt")
                                 Fixtures.world = (Return r, w') ∧
     routerCalls (trace w') = 3 ∧
     List.length (clientCompletions (trace w')) = 3 ∧
     data r = Some (PError Handler.maxRetriesExceeded) ∧
     err r = None ∧ isErr r = false).
Proof.
  split.
  - eexists _, _. split; [vm_compute; reflexivity|]. by vm_compute.
  - eexists _, _. split; [vm_compute; reflexivity|]. by vm_compute.
Qed.

End RetryClaims.

(** ** The emulated stream *)
Section Stream.
Import FakeStream.
Context (stringify : Json → string) (closedMessage : string).
Context (request : Request.t) (tempId : string) (tempCreated : Z).

Local Abbreviation safeEnqueue := (FakeStream.safeEnqueue closedMessage).
Local Abbreviation step := (FakeStream.step stringify closedMessage request tempId tempCreated).
Local Abbreviation run := (FakeStream.run stringify closedMessage request tempId tempCreated).
Local Abbreviation grows := (FakeStream.grows stringify).

Lemma frames_app (cancelled completed timer : bool) (c : Controller) (done : bool)
    (acts more : list Action) :
  frames (mkSession cancelled completed timer c done (acts ++ more)) =
    frames (mkSession cancelled completed timer c done acts)
    ++ omap (λ a, match a with Enqueue b => Some b | _ => None end) more.
Proof. unfold frames. simpl. apply omap_app. Qed.

Lemma omap_Enqueue (l : list string) :
  omap (λ a, match a with Enqueue b => Some b | _ => None end) (Enqueue <$> l) = l.
Proof. induction l as [|x l IH]; [done|]. simpl. by f_equal. Qed.

(** A write on a session whose flag is set does nothing. *)
Lemma safeEnqueue_flag (data : string) (s : Session) :
  isCompleted s || isCancelled s = true →
  safeEnqueue data s = (Return false, s).
Proof.
  intros H. unfold FakeStream.safeEnqueue, bind, get. simpl. by rewrite H.
Qed.

(** A write on an open channel with both flags unset goes through. *)
Lemma safeEnqueue_open (data : string) (s : Session) :
  isCompleted s = false → isCancelled s = false → controller s = Open →
  safeEnqueue data s =
    (Return true,
     mkSession false false (fakeStreamTimer s) Open (settled s)
               (actions s ++ [Enqueue data])).
Proof.
  destruct s as [cancelled completed timer c done acts]. simpl.
  intros -> -> ->. done.
Qed.

(** A write on a closed channel is caught and cancels the session. *)
Lemma safeEnqueue_closed (data : string) (s : Session) :
  Str.includes closedMessage "closed" = true →
  isCompleted s = false → isCancelled s = false → controller s = Closed →
  safeEnqueue data s =
    (Return false,
     mkSession true false (fakeStreamTimer s) Closed (settled s) (actions s)).
Proof.
  destruct s as [cancelled completed timer c done acts]. simpl.
  intros Hmsg -> -> ->.
  unfold FakeStream.safeEnqueue, bind, get, try_catch, controller_enqueue. simpl.
  by rewrite Hmsg.
Qed.

(** Once a flag is set, no input adds a frame, and a flag stays set. *)
Lemma step_silent (i : Input) (s : Session) :
  isCompleted s || isCancelled s = true →
  frames (snd (step i s)) = frames s ∧
  isCompleted (snd (step i s)) || isCancelled (snd (step i s)) = true.
Proof.
  destruct s as [cancelled completed timer c done acts]. simpl. intros Hflag.
  assert (Hquiet :
            omap (λ a, match a with Enqueue b => Some b | _ => None end)
                 (acts ++ [ClearInterval]) =
            omap (λ a, match a with Enqueue b => Some b | _ => None end) acts).
  { rewrite omap_app. simpl. apply app_nil_r. }
  destruct i as [|[r|e]| |].
  - destruct cancelled, completed, timer; try discriminate Hflag; cbn;
      (split; [first [exact Hquiet | reflexivity] | reflexivity]).
  - destruct r as [[[response|e]|] [e'|]];
      try destruct (Response.choices response) as [|firstChoice others] eqn:Hchoices;
      destruct cancelled, completed, timer, done; try discriminate Hflag;
      unfold FakeStream.step, afterCompletion, onAnswer; unfold_monad;
      cbn; rewrite ?Hchoices; cbn;
      (split; [first [exact Hquiet | reflexivity] | reflexivity]).
  - destruct cancelled, completed, timer, done; try discriminate Hflag; cbn;
      (split; [first [exact Hquiet | reflexivity] | reflexivity]).
  - destruct cancelled, completed, timer; try discriminate Hflag; cbn;
      (split; [first [exact Hquiet | reflexivity] | reflexivity]).
  - done.
Qed.

Lemma run_silent (inputs : list Input) (s : Session) :
  isCompleted s || isCancelled s = true →
  frames (run inputs s) = frames s ∧
  isCompleted (run inputs s) || isCancelled (run inputs s) = true.
Proof.
  revert s. induction inputs as [|i inputs IH]; intros s Hflag; [done|].
  unfold FakeStream.run in *. cbn [foldl].
  destruct (step_silent i s Hflag) as [Hframes Hflag'].
  destruct (IH _ Hflag') as [IHframes IHflag].
  split; [congruence|done].
Qed.

(** The answer step on a live session. *)
Lemma step_success_live (s : Session) (response : Response.t) :
  isCancelled s = false → isCompleted s = false → controller s = Open →
  fakeStreamTimer s = true → settled s = false →
  step (Settle (Return (ResultOf response))) s =
    (Return tt,
     mkSession false true false Closed true
       (actions s ++ [ClearInterval]
          ++ (Enqueue <$> successFrames stringify response) ++ [Close])).
Proof.
  destruct s as [cancelled completed timer c done acts]. simpl.
  intros -> -> -> -> ->.
  unfold FakeStream.step, afterCompletion, onAnswer, successFrames. unfold_monad.
  destruct (Response.choices response) as [|firstChoice others] eqn:Hchoices;
    cbn; rewrite ?Hchoices; cbn; rewrite <- !List.app_assoc; reflexivity.
Qed.

(** *** The frame grammar, as an invariant of the session code *)

Lemma grows_same {A} (c : ST Session A) :
  (∀ s, frames (snd (c s)) = frames s) → grows c.
Proof.
  intros H s. exists []. rewrite H, app_nil_r. by split.
Qed.

Lemma grows_ret {A} (a : A) : grows (ret a).
Proof. by apply grows_same. Qed.

Lemma grows_throw {A} (e : Error) : grows (throw (A := A) e).
Proof. by apply grows_same. Qed.

Lemma grows_bind {A B} (c : ST Session A) (k : A → ST Session B) :
  grows c → (∀ a, grows (k a)) → grows (bind c k).
Proof.
  intros Hc Hk s. unfold bind.
  destruct (Hc s) as (added1 & H1 & Hw1).
  destruct (c s) as [[a|e] s1]; simpl in *.
  - destruct (Hk a s1) as (added2 & H2 & Hw2).
    exists (added1 ++ added2). rewrite H2, H1, <- List.app_assoc.
    split; [done|]. by apply Forall_app.
  - by exists added1.
Qed.

Lemma grows_try_catch {A} (c : ST Session A) (h : Error → ST Session A) :
  grows c → (∀ e, grows (h e)) → grows (try_catch c h).
Proof.
  intros Hc Hh s. unfold try_catch.
  destruct (Hc s) as (added1 & H1 & Hw1).
  destruct (c s) as [[a|e] s1]; simpl in *.
  - by exists added1.
  - destruct (Hh e s1) as (added2 & H2 & Hw2).
    exists (added1 ++ added2). rewrite H2, H1, <- List.app_assoc.
    split; [done|]. by apply Forall_app.
Qed.

Lemma grows_if {A} (b : bool) (c1 c2 : ST Session A) :
  grows c1 → grows c2 → grows (if b then c1 else c2).
Proof. by destruct b. Qed.

Lemma grows_stopTimer : grows stopTimer.
Proof.
  apply grows_same. intros [cancelled completed timer c done acts].
  unfold stopTimer. destruct timer; [|done]. unfold frames. simpl.
  rewrite omap_app. simpl. apply app_nil_r.
Qed.

Lemma grows_controller_enqueue (data : string) :
  wellFramed stringify data → grows (controller_enqueue closedMessage data).
Proof.
  intros Hdata [cancelled completed timer c done acts].
  unfold controller_enqueue. destruct c; simpl.
  - exists [data]. unfold frames. simpl. rewrite omap_app. simpl.
    split; [done|]. by constructor.
  - exists []. rewrite app_nil_r. by split.
Qed.

Lemma grows_closeQuietly : grows (closeQuietly closedMessage).
Proof.
  apply grows_same. intros [cancelled completed timer c done acts].
  unfold closeQuietly, try_catch, controller_close. destruct c; [|done].
  unfold frames. simpl. rewrite omap_app. simpl. apply app_nil_r.
Qed.

Lemma grows_safeEnqueue (data : string) :
  wellFramed stringify data → grows (safeEnqueue data).
Proof.
  intros Hdata. unfold FakeStream.safeEnqueue.
  apply grows_bind; [by apply grows_same|]. intros s.
  apply grows_if; [apply grows_ret|].
  apply grows_try_catch.
  - apply grows_bind; [by apply grows_controller_enqueue|]. intros. apply grows_ret.
  - intros e. apply grows_if; [|apply grows_throw].
    apply grows_bind; [by apply grows_same|]. intros. apply grows_ret.
Qed.

Lemma wellFramed_frame (obj : Json) : wellFramed stringify (frame stringify obj).
Proof. right. by exists obj. Qed.

Lemma grows_sendError (msg : string) : grows (sendError stringify closedMessage msg).
Proof.
  unfold sendError. apply grows_bind; [by apply grows_same|]. intros s.
  apply grows_if; [|apply grows_ret].
  apply grows_bind; [apply grows_safeEnqueue, wellFramed_frame|]. intros sent.
  apply grows_if; [apply grows_closeQuietly | apply grows_ret].
Qed.

Lemma grows_onError (e : Error) : grows (onError stringify closedMessage e).
Proof.
  unfold onError. apply grows_bind; [apply grows_stopTimer|]. intros.
  apply grows_sendError.
Qed.

Lemma grows_onAnswer (r : Result Response.t) :
  grows (onAnswer stringify closedMessage r).
Proof.
  unfold onAnswer. apply grows_bind; [apply grows_stopTimer|]. intros _.
  destruct (err r); [apply grows_sendError|].
  destruct (data r) as [[response|e]|];
    [|apply grows_throw|apply grows_sendError].
  apply grows_bind; [by apply grows_same|]. intros s.
  apply grows_if; [apply grows_ret|].
  apply grows_bind.
  { destruct (Response.choices response);
      [apply grows_ret | apply grows_safeEnqueue, wellFramed_frame]. }
  intros sentRole. apply grows_if; [apply grows_ret|].
  apply grows_bind; [apply grows_safeEnqueue, wellFramed_frame|].
  intros sentContent. apply grows_if; [apply grows_ret|].
  apply grows_bind; [apply grows_safeEnqueue, wellFramed_frame|].
  intros sentFinish. apply grows_if; [apply grows_ret|].
  apply grows_bind; [apply grows_safeEnqueue; by left|].
  intros sentDone. apply grows_if; [apply grows_ret|].
  apply grows_bind; [by apply grows_same|]. intros. apply grows_closeQuietly.
Qed.

(** Whatever happens to a session, the frames a step adds follow the
    frame grammar. *)
Lemma grows_step (i : Input) : grows (step i).
Proof.
  destruct i as [|outcome| |]; unfold FakeStream.step.
  - apply grows_bind; [by apply grows_same|]. intros s.
    apply grows_if; [|apply grows_ret].
    unfold sendEmptyData. apply grows_bind; [by apply grows_same|]. intros s'.
    apply grows_if; [apply grows_stopTimer|].
    apply grows_bind; [apply grows_safeEnqueue, wellFramed_frame|].
    intros. apply grows_ret.
  - apply grows_bind; [by apply grows_same|]. intros s.
    apply grows_if; [apply grows_ret|].
    apply grows_bind; [by apply grows_same|]. intros _.
    unfold afterCompletion. apply grows_try_catch; [|apply grows_onError].
    destruct outcome; [apply grows_onAnswer | apply grows_throw].
  - apply grows_bind; [by apply grows_same|]. intros _.
    unfold cancel. apply grows_bind; [by apply grows_same|]. intros _.
    apply grows_stopTimer.
  - by apply grows_same.
Qed.

(** Every frame ever written follows the frame grammar. *)
Lemma run_wellFramed (inputs : list Input) (s : Session) :
  Forall (wellFramed stringify) (frames s) →
  Forall (wellFramed stringify) (frames (run inputs s)).
Proof.
  revert s. induction inputs as [|i inputs IH]; intros s Hs; [done|].
  unfold FakeStream.run in *. cbn [foldl]. apply IH.
  destruct (grows_step i s) as (added & -> & Hadded). by apply Forall_app.
Qed.

(** Ticks on a live session write one keep-alive frame each and
    leave it live. *)
Lemma run_ticks_live (n : nat) (s : Session) :
  isCancelled s = false → isCompleted s = false → controller s = Open →
  fakeStreamTimer s = true →
  run (replicate n Tick) s =
    mkSession false false true Open (settled s)
      (actions s ++ replicate n (Enqueue (emptyData stringify request tempId tempCreated))).
Proof.
  destruct s as [cancelled completed timer c done acts]. simpl.
  intros -> -> -> ->. revert acts. induction n as [|n IH]; intros acts.
  - simpl. by rewrite app_nil_r.
  - unfold FakeStream.run in *. cbn [replicate foldl].
    assert (snd (step Tick (mkSession false false true Open done acts)) =
              mkSession false false true Open done
                (acts ++ [Enqueue (emptyData stringify request tempId tempCreated)]))
      as -> by done.
    rewrite IH. by rewrite <- List.app_assoc.
Qed.

(** A whole session without disconnection: [n] keep-alive frames, then
    the frames of the response. *)
Lemma frames_keepalive_then_success (n : nat) (response : Response.t) :
  frames (run (replicate n Tick ++ [Settle (Return (ResultOf response))]) started) =
    replicate n (emptyData stringify request tempId tempCreated)
    ++ successFrames stringify response.
Proof.
  unfold FakeStream.run. rewrite foldl_app. fold (run (replicate n Tick) started).
  rewrite run_ticks_live by done. cbn [foldl].
  rewrite step_success_live by done. unfold frames, started. cbn [snd actions app].
  rewrite <- fmap_replicate, omap_app, omap_Enqueue. f_equal.
  cbn [omap list_omap]. rewrite omap_app, omap_Enqueue. simpl. apply app_nil_r.
Qed.

End Stream.

Section StreamClaims.
Import FakeStream.



(** C6.  Every write goes through [safeEnqueue], which does nothing
    when the completed or the cancelled flag is set; so from a session
    with a flag set no sequence of timer ticks, answers, cancels and
    closes adds a frame, and the flag stays set; an input that adds a
    frame found both flags unset.  A write on a channel that is already
    closed throws nothing to its caller: it returns [false] and sets
    the cancelled flag (the runtime's error for a closed controller
    being a [TypeError] whose message contains the word the code looks
    for). *)
Theorem write_safety
    (stringify : Json → string) (closedMessage : string)
    (request : Request.t) (tempId : string) (tempCreated : Z) :
  Str.includes closedMessage "closed" = true →
  (∀ data s,
     isCompleted s || isCancelled s = true →
     safeEnqueue closedMessage data s = (Return false, s)) ∧
  (∀ inputs s,
     isCompleted s || isCancelled s = true →
     frames (run stringify closedMessage request tempId tempCreated inputs s)
       = frames s ∧
     isCompleted (run stringify closedMessage request tempId tempCreated inputs s)
     || isCancelled (run stringify closedMessage request tempId tempCreated inputs s)
       = true) ∧
  (∀ i s,
     frames (snd (step stringify closedMessage request tempId tempCreated i s))
       ≠ frames s →
     isCompleted s = false ∧ isCancelled s = false) ∧
  (∀ data s,
     isCompleted s = false → isCancelled s = false → controller s = Closed →
     safeEnqueue closedMessage data s =
       (Return false,
        mkSession true false (fakeStreamTimer s) Closed (settled s) (actions s))).
Proof.
  intros Hmsg. split_and!.
  - intros data s. apply safeEnqueue_flag.
  - intros inputs s. apply run_silent.
  - intros i s Hwrote.
    destruct (isCompleted s) eqn:Hcompleted, (isCancelled s) eqn:Hcancelled;
      try done; exfalso; apply Hwrote;
      apply (step_silent stringify closedMessage request tempId tempCreated i s);
      by rewrite Hcompleted, Hcancelled.
  - intros data s. by apply safeEnqueue_closed.
Qed.

Lemma write_safety_witness :
  Str.includes Fixtures.closedMessage "closed" = true ∧
  frames (run Fixtures.stringify Fixtures.closedMessage
              (Fixtures.requestFor "acme/gpt") "chatcmpl-temp" 1700000000
              [Tick; Settle (Return (ResultOf Fixtures.hello)); Tick]
              (run Fixtures.stringify Fixtures.closedMessage
                   (Fixtures.requestFor "acme/gpt") "chatcmpl-temp" 1700000000
                   [Tick; Cancel] started)) =
    [emptyData Fixtures.stringify (Fixtures.requestFor "acme/gpt")
               "chatcmpl-temp" 1700000000].
Proof.
  split; [reflexivity|].
  destruct (write_safety Fixtures.stringify Fixtures.closedMessage
              (Fixtures.requestFor "acme/gpt") "chatcmpl-temp" 1700000000)
    as (_ & Hrun & _ & _); [reflexivity|].
  destruct (Hrun [Tick; Settle (Return (ResultOf Fixtures.hello)); Tick]
              (run Fixtures.stringify Fixtures.closedMessage
                   (Fixtures.requestFor "acme/gpt") "chatcmpl-temp" 1700000000
                   [Tick; Cancel] started)) as [H _]; [reflexivity|].
  rewrite H. reflexivity.
Defined.

End StreamClaims.

(** ** The registry: registration *)
Section Registry.

Lemma get_set_eq (type : string) (factory : ProviderFactory)
    (fs : list (string * ProviderFactory)) :
  ProviderRegistry.get type (ProviderRegistry.set type factory fs) = Some factory.
Proof.
  unfold ProviderRegistry.get.
  induction fs as [|[t f] fs IH]; simpl.
  - by rewrite String.eqb_refl.
  - destruct (String.eqb_spec t type) as [->|Hne]; simpl.
    + by rewrite String.eqb_refl.
    + apply String.eqb_neq in Hne. by rewrite Hne.
Qed.

Lemma get_set_ne (type other : string) (factory : ProviderFactory)
    (fs : list (string * ProviderFactory)) :
  other ≠ type →
  ProviderRegistry.get other (ProviderRegistry.set type factory fs) =
    ProviderRegistry.get other fs.
Proof.
  intros Hne. unfold ProviderRegistry.get.
  induction fs as [|[t f] fs IH]; simpl.
  - apply not_eq_sym, String.eqb_neq in Hne. by rewrite Hne.
  - destruct (String.eqb_spec t type) as [->|Ht]; simpl.
    + apply not_eq_sym, String.eqb_neq in Hne. by rewrite Hne.
    + destruct (String.eqb t other); [done|]. apply IH.
Qed.

(** [Map.prototype.set] keeps the place of a key that is present and
    puts a new key last. *)
Lemma keys_set (type : string) (factory : ProviderFactory)
    (fs : list (string * ProviderFactory)) :
  fst <$> ProviderRegistry.set type factory fs =
    if bool_decide (type ∈ fst <$> fs) then fst <$> fs else (fst <$> fs) ++ [type].
Proof.
  induction fs as [|[t f] fs IH]; cbn [ProviderRegistry.set fmap list_fmap].
  - case_bool_decide as Hin; [by apply elem_of_nil in Hin | done].
  - destruct (String.eqb_spec t type) as [->|Ht]; cbn [fmap list_fmap fst].
    + rewrite bool_decide_eq_true_2; [done|]. apply list_elem_of_here.
    + fold (fmap (M := list) (@fst string ProviderFactory)). rewrite IH.
      case_bool_decide as Hin.
      * rewrite bool_decide_eq_true_2; [done|]. by apply list_elem_of_further.
      * rewrite bool_decide_eq_false_2; [done|].
        intros [?|?]%elem_of_cons; congruence.
Qed.

(** X1.  After [register(type, factory)] the type is registered, and
    [createClient] for a configuration of that type returns what the
    factory builds from the name and the configuration when the type
    is a value of [ProviderType], and throws the error of an invalid
    type otherwise, in both cases without changing anything.  The
    factories of the other types are the ones they were; the list of
    registered types gains the type at its end if it was not in it and
    is unchanged otherwise, so it never holds a type twice; the
    manager, the trace and the configuration are untouched. *)
Theorem register_createClient (type : string) (factory : ProviderFactory) (w : World) :
  let w1 := snd (ProviderRegistry.register type factory w) in
  let types := fst <$> factories w in
  ProviderRegistry.isRegistered type w1 = (Return true, w1) ∧
  (∀ name config,
     ProviderConfig.type config = type →
     ProviderRegistry.createClient name config w1 =
       (if bool_decide (type ∈ ProviderRegistry.ProviderType_values)
        then Return (factory name config)
        else Throw (newError ("Invalid provider type: " +:+ type)), w1)) ∧
  (∀ other, other ≠ type →
     ProviderRegistry.get other (factories w1) = ProviderRegistry.get other (factories w)) ∧
  ProviderRegistry.getRegisteredTypes w1 =
    (Return (if bool_decide (type ∈ types) then types else types ++ [type]), w1) ∧
  (NoDup types → NoDup (fst <$> factories w1)) ∧
  manager w1 = manager w ∧ trace w1 = trace w ∧ globalConfig w1 = globalConfig w.
Proof.
  intros w1 types. subst w1 types. simpl. split_and!; try done.
  - unfold ProviderRegistry.isRegistered. simpl. rewrite get_set_eq.
    by rewrite bool_decide_eq_true_2 by eauto.
  - intros name config <-. unfold ProviderRegistry.createClient. simpl.
    rewrite get_set_eq. by case_bool_decide.
  - intros other Hne. by apply get_set_ne.
  - unfold ProviderRegistry.getRegisteredTypes. simpl. by rewrite keys_set.
  - intros Hnd. rewrite keys_set. case_bool_decide as Hin; [done|].
    apply NoDup_app. split; [done|]. split; [|apply NoDup_singleton].
    intros x Hx ->%list_elem_of_singleton. done.
Qed.

End Registry.

(** ** The provider manager: destruction *)
Section Destroy.
Context (up : Upstream.t).

Lemma destroyProvider_unknown (name : string) (w : World) :
  clients (manager w) !! name = None →
  ProviderManager.destroyProvider name w =
    (Return (ResultOfError (ProviderManager.notFound name)), w).
Proof.
  intros H. unfold ProviderManager.destroyProvider. unfold_monad. by rewrite H.
Qed.

Lemma destroyProvider_registered (name : string) (w : World) (client : ProviderClient.t) :
  clients (manager w) !! name = Some client →
  ProviderManager.destroyProvider name w =
    (Return ResultVoid,
     with_manager w
       (mkManager (delete name (clients (manager w)))
          (ProviderManager.removeModels_map name (modelAliasesMapping (manager w))))).
Proof.
  intros H. unfold ProviderManager.destroyProvider, ProviderManager.removeModels.
  unfold_monad. by rewrite H.
Qed.

(** X2.  [destroyProvider] returns a result, with null data when the
    provider was registered and with the not-found error as data when
    it was not.  Afterwards the provider has no client; when it was
    registered, exactly the aliases that the table mapped to it are
    gone, and when it was not, the table is unchanged (aliases left
    behind for that name stay).  The clients and aliases of the other
    providers, the trace, the registry and the configuration are
    untouched. *)
Theorem destroyProvider_effect (name : string) (w : World) :
  ∃ r w',
    ProviderManager.destroyProvider name w = (Return r, w') ∧
    data r = match clients (manager w) !! name with
             | Some _ => None
             | None => Some (PError (ProviderManager.notFound name))
             end ∧
    clients (manager w') = delete name (clients (manager w)) ∧
    (∀ alias,
       modelAliasesMapping (manager w') !! alias =
         if decide (is_Some (clients (manager w) !! name) ∧
                    modelAliasesMapping (manager w) !! alias = Some name)
         then None
         else modelAliasesMapping (manager w) !! alias) ∧
    trace w' = trace w ∧ factories w' = factories w ∧ globalConfig w' = globalConfig w.
Proof.
  destruct (clients (manager w) !! name) as [client|] eqn:Hc.
  - rewrite (destroyProvider_registered _ _ _ Hc). eexists _, _.
    split; [reflexivity|]. split_and!; try done.
    intros alias. simpl. rewrite removeModels_map_lookup.
    destruct (decide (modelAliasesMapping (manager w) !! alias = Some name)) as [Ha|Ha].
    + rewrite decide_True; [done|]. split; [by eauto|done].
    + rewrite decide_False; [done|]. tauto.
  - rewrite (destroyProvider_unknown _ _ Hc). eexists _, _.
    split; [reflexivity|]. split_and!; try done.
    by rewrite delete_id.
Qed.

(** X3.  Once a registered provider has been destroyed, a completion
    request for an alias that the table mapped to it is answered with
    the error of an unknown alias and reaches no client, while a
    request for any other alias is routed exactly as it would have
    been without the destruction: same result, same calls. *)
Theorem destroyProvider_then_completion
    (name : string) (request : Request.t) (w : World) :
  is_Some (clients (manager w) !! name) →
  let w1 := snd (ProviderManager.destroyProvider name w) in
  (modelAliasesMapping (manager w) !! Request.model request = Some name →
   ProviderRouter.completion up request w1 =
     (Return (ResultOfError (ProviderRouter.aliasNotFound (Request.model request))),
      record w1 [RouterCompletion request])) ∧
  (modelAliasesMapping (manager w) !! Request.model request ≠ Some name →
   fst (ProviderRouter.completion up request w1) =
     fst (ProviderRouter.completion up request w) ∧
   trace (snd (ProviderRouter.completion up request w1)) =
     trace (snd (ProviderRouter.completion up request w))).
Proof.
  intros [client Hc] w1. subst w1.
  rewrite (destroyProvider_registered _ _ _ Hc). cbn [snd]. split.
  - intros Ha. apply completion_alias_absent. simpl.
    rewrite removeModels_map_lookup. by rewrite decide_True.
  - intros Ha.
    set (w1 := with_manager w _).
    assert (Hsame : modelAliasesMapping (manager w1) !! Request.model request =
                    modelAliasesMapping (manager w) !! Request.model request).
    { subst w1. simpl. rewrite removeModels_map_lookup. by rewrite decide_False. }
    destruct (modelAliasesMapping (manager w) !! Request.model request)
      as [providerName|] eqn:Halias.
    + destruct (decide (providerName = EmptyString)) as [->|Hne].
      * by rewrite !completion_empty_provider.
      * assert (Hp : providerName ≠ name) by congruence.
        assert (Hcl : clients (manager w1) !! providerName =
                      clients (manager w) !! providerName).
        { subst w1. simpl. by rewrite lookup_delete_ne. }
        destruct (clients (manager w) !! providerName) as [c|] eqn:Hcp.
        -- rewrite (completion_resolved up request w1 providerName c Hsame Hne Hcl).
           rewrite (completion_resolved up request w providerName c Halias Hne Hcp).
           done.
        -- rewrite (completion_client_absent up request w1 providerName Hsame Hne Hcl).
           rewrite (completion_client_absent up request w providerName Halias Hne Hcp).
           done.
    + by rewrite !completion_alias_absent.
Qed.

End Destroy.

Section DestroyExamples.

Lemma destroyProvider_then_completion_witness :
  is_Some (clients (manager Fixtures.world) !! "acme") ∧
  ProviderRouter.completion Fixtures.healthy (Fixtures.requestFor "acme/gpt")
    (snd (ProviderManager.destroyProvider "acme" Fixtures.world)) =
    (Return (ResultOfError (ProviderRouter.aliasNotFound "acme/gpt")),
     record (snd (ProviderManager.destroyProvider "acme" Fixtures.world))
            [RouterCompletion (Fixtures.requestFor "acme/gpt")]).
Proof.
  assert (H : is_Some (clients (manager Fixtures.world) !! "acme")).
  { exists Fixtures.acme. reflexivity. }
  split; [exact H|].
  destruct (destroyProvider_then_completion Fixtures.healthy "acme"
              (Fixtures.requestFor "acme/gpt") Fixtures.world H) as [Hgone _].
  apply Hgone. reflexivity.
Defined.

End DestroyExamples.

(** ** The alias table: registration and routing *)
Section Table.
Context (up : Upstream.t).

Lemma actualModel_alias (providerName id : string) :
  ProviderRouter.actualModel (providerName +:+ "/" +:+ id) providerName = id.
Proof.
  unfold ProviderRouter.actualModel.
  rewrite <- string_app_assoc. by rewrite startsWith_app, slice_app.
Qed.

Lemma registerModels_value (providerName : string) (models : ModelsList) (w : World) :
  ProviderManager.registerModels providerName (PValue models) w =
    (Return tt,
     with_manager w
       (mkManager (clients (manager w))
          (ProviderManager.registerModels_map providerName models
             (modelAliasesMapping (manager w))))).
Proof. done. Qed.

(** X4.  Registration and routing compose to a round trip on model
    ids: after the models of a provider with a non-empty name and a
    registered client have been registered, a completion request for
    the alias of any of them makes one call, to that client, whose
    [model] is the id the model has upstream, whose [stream] is off
    and whose messages are those of the request. *)
Theorem registered_model_is_routed
    (providerName : string) (models : ModelsList) (model : ModelInfo.t)
    (request : Request.t) (w : World) (client : ProviderClient.t) :
  providerName ≠ EmptyString →
  clients (manager w) !! providerName = Some client →
  model ∈ models →
  Request.model request = ProviderManager.modelAliasOf providerName model →
  ∃ w1 forwarded,
    ProviderManager.registerModels providerName (PValue models) w = (Return tt, w1) ∧
    trace (snd (ProviderRouter.completion up request w1)) =
      trace w ++ [RouterCompletion request; ClientCompletion client forwarded] ∧
    Request.model forwarded = ModelInfo.id model ∧
    Request.stream forwarded = Some false ∧
    Request.messages forwarded = Request.messages request.
Proof.
  intros Hne Hc Hin Hmodel. rewrite registerModels_value. eexists _, _.
  split; [reflexivity|].
  rewrite (completion_resolved up request _ providerName client); [|..|done].
  - split; [reflexivity|]. split; [|done]. simpl.
    rewrite Hmodel. apply actualModel_alias.
  - simpl. rewrite registerModels_map_lookup, decide_True; [done|].
    rewrite Hmodel. by apply list_elem_of_fmap_2.
  - done.
Qed.

Lemma keeps_ret (I : Manager → Prop) {A} (a : A) : keeps I (ret a).
Proof. by intros w. Qed.

Lemma keeps_throw (I : Manager → Prop) {A} (e : Error) : keeps I (throw (A := A) e).
Proof. by intros w. Qed.

Lemma keeps_bind (I : Manager → Prop) {A B} (c : M A) (k : A → M B) :
  keeps I c → (∀ a, keeps I (k a)) → keeps I (bind c k).
Proof.
  intros Hc Hk w Hw. unfold bind. specialize (Hc w Hw).
  destruct (c w) as [[a|e] w1]; simpl in *; [by apply Hk | done].
Qed.

Lemma keeps_same (I : Manager → Prop) {A} (c : M A) :
  (∀ w, manager (snd (c w)) = manager w) → keeps I c.
Proof. intros H w Hw. by rewrite H. Qed.

Lemma applyFilter_world (name : string) (models : Payload ModelsList) (w : World) :
  snd (ProviderManager.applyFilter name models w) = w.
Proof. by destruct (applyFilter_returns name models w) as [filtered ->]. Qed.

Lemma createClient_world (name : string) (config : ProviderConfig.t) (w : World) :
  snd (ProviderRegistry.createClient name config w) = w.
Proof.
  unfold ProviderRegistry.createClient.
  destruct (ProviderRegistry.get _ _); [|done]. by destruct (negb _).
Qed.

Lemma prefixed_removeModels (name : string) (cs cs' : gmap string ProviderClient.t)
    (m : gmap string string) :
  prefixed (mkManager cs m) →
  prefixed (mkManager cs' (ProviderManager.removeModels_map name m)).
Proof.
  intros H alias p. simpl. rewrite removeModels_map_lookup.
  case_decide; [done|]. apply H.
Qed.

Lemma prefixed_registerModels (name : string) (models : ModelsList)
    (cs cs' : gmap string ProviderClient.t) (m : gmap string string) :
  prefixed (mkManager cs m) →
  prefixed (mkManager cs' (ProviderManager.registerModels_map name models m)).
Proof.
  intros H alias p. simpl. rewrite registerModels_map_lookup.
  case_decide as Hin; [|apply H].
  intros [= <-]. apply list_elem_of_fmap in Hin as (model & -> & _).
  by exists (ModelInfo.id model).
Qed.

Lemma keeps_registerModels (name : string) (models : Payload ModelsList) :
  keeps prefixed (ProviderManager.registerModels name models).
Proof.
  intros w Hw. destruct models as [models|e]; [|done].
  rewrite registerModels_value. simpl.
  destruct (manager w) as [cs m]. by apply (prefixed_registerModels _ _ cs).
Qed.

Lemma keeps_removeModels (name : string) :
  keeps prefixed (ProviderManager.removeModels name).
Proof.
  intros w Hw. unfold ProviderManager.removeModels. unfold_monad. simpl.
  destruct (manager w) as [cs m]. by apply (prefixed_removeModels _ cs).
Qed.

Lemma keeps_refreshModels (name : string) :
  keeps prefixed (ProviderManager.refreshModels up name).
Proof.
  unfold ProviderManager.refreshModels.
  apply keeps_bind.
  - unfold ProviderManager.refreshModels_begin.
    apply keeps_bind; [by apply keeps_same|]. intros m.
    destruct (clients m !! name); [|apply keeps_ret].
    apply keeps_bind; [apply keeps_removeModels|]. intros. apply keeps_ret.
  - intros [r|client]; [apply keeps_ret|].
    apply keeps_bind; [by apply keeps_same|]. intros fetched.
    unfold ProviderManager.refreshModels_resume.
    destruct (err fetched); [apply keeps_ret|].
    destruct (data fetched) as [models|]; [|apply keeps_ret].
    apply keeps_bind; [apply keeps_same; intros; by rewrite applyFilter_world|].
    intros filtered.
    apply keeps_bind; [apply keeps_registerModels|]. intros. apply keeps_ret.
Qed.

Lemma keeps_destroyProvider (name : string) :
  keeps prefixed (ProviderManager.destroyProvider name).
Proof.
  intros w Hw.
  destruct (clients (manager w) !! name) as [client|] eqn:Hc.
  - rewrite (destroyProvider_registered _ _ _ Hc). simpl.
    destruct (manager w) as [cs m]. by apply (prefixed_removeModels _ cs).
  - by rewrite (destroyProvider_unknown _ _ Hc).
Qed.

Lemma keeps_initializeLoop (entries : list (string * ProviderConfig.t)) :
  keeps prefixed (ProviderManager.initializeLoop up entries).
Proof.
  induction entries as [|[name providerConfig] entries IH];
    cbn [ProviderManager.initializeLoop]; [apply keeps_ret|].
  destruct (negb _); [done|].
  apply keeps_bind; [apply keeps_same; intros; by rewrite createClient_world|].
  intros client. apply keeps_bind; [by apply keeps_same|]. intros created.
  destruct (err created); [apply keeps_ret|].
  apply keeps_bind; [by apply keeps_same|]. intros fetched.
  apply keeps_bind.
  { destruct (data fetched) as [models|]; [|apply keeps_ret].
    destruct (err fetched); [apply keeps_ret|].
    apply keeps_bind; [apply keeps_same; intros; by rewrite applyFilter_world|].
    intros filtered. apply keeps_registerModels. }
  intros _. apply keeps_bind; [|done].
  intros w Hw. unfold ProviderManager.setClient. unfold_monad. simpl.
  intros alias p. simpl. apply Hw.
Qed.

(** X5.  That every alias of the table is the name of the provider it
    is mapped to, a slash and an id is an invariant of the manager:
    [registerModels], [removeModels], [refreshModels],
    [destroyProvider] and [initializeProviders] keep it, whatever the
    upstream answers and whether they return or throw.  While it
    holds, the model id that the router sends upstream for an alias
    is the alias without the name of its provider and the slash,
    never the whole alias. *)
Theorem aliases_stay_prefixed (w : World) :
  prefixed (manager w) →
  (∀ name models,
     prefixed (manager (snd (ProviderManager.registerModels name models w)))) ∧
  (∀ name, prefixed (manager (snd (ProviderManager.removeModels name w)))) ∧
  (∀ name, prefixed (manager (snd (ProviderManager.refreshModels up name w)))) ∧
  (∀ name, prefixed (manager (snd (ProviderManager.destroyProvider name w)))) ∧
  (∀ providers,
     prefixed (manager (snd (ProviderManager.initializeProviders up providers w)))) ∧
  (∀ alias providerName,
     modelAliasesMapping (manager w) !! alias = Some providerName →
     alias = providerName +:+ "/" +:+ ProviderRouter.actualModel alias providerName).
Proof.
  intros Hw. split_and!.
  - intros name models. by apply keeps_registerModels.
  - intros name. by apply keeps_removeModels.
  - intros name. by apply keeps_refreshModels.
  - intros name. by apply keeps_destroyProvider.
  - intros providers. by apply keeps_initializeLoop.
  - intros alias providerName [id ->]%Hw. by rewrite actualModel_alias.
Qed.

(** X6.  Initialization treats a disabled provider as absent: running
    it on the entries of a configuration is running it on the enabled
    entries alone, in the same order; a disabled provider gets no
    client, no alias and no call. *)
Theorem initializeLoop_skips_disabled
    (entries : list (string * ProviderConfig.t)) (w : World) :
  ProviderManager.initializeLoop up entries w =
    ProviderManager.initializeLoop up
      (filter (λ entry, ProviderConfig.enabled (snd entry) = true) entries) w.
Proof.
  revert w. induction entries as [|[name providerConfig] entries IH]; intros w; [done|].
  rewrite filter_cons. cbn [snd ProviderManager.initializeLoop].
  destruct (ProviderConfig.enabled providerConfig) eqn:Henabled; cbn [negb].
  - rewrite decide_True by done. cbn [ProviderManager.initializeLoop].
    rewrite Henabled. cbn [negb].
    unfold bind, call.
    destruct (ProviderRegistry.createClient name providerConfig w) as [[client|e] w'];
      [|done].
    destruct (err (Upstream.create up (trace w') client)); [done|].
    match goal with
    | |- (let (_, _) := ?c in _) = _ => destruct c as [[[]|e] w3]; [|done]
    end.
    destruct (ProviderManager.setClient name client w3) as [[[]|e] w4]; [|done].
    apply IH.
  - rewrite decide_False by done. apply IH.
Qed.

End Table.

Section TableExamples.

Lemma registered_model_is_routed_witness :
  "acme" ≠ EmptyString ∧
  clients (manager Fixtures.world) !! "acme" = Some Fixtures.acme ∧
  Fixtures.gpt ∈ [Fixtures.gpt] ∧
  Request.model (Fixtures.requestFor "acme/gpt") =
    ProviderManager.modelAliasOf "acme" Fixtures.gpt ∧
  ∃ w1 forwarded,
    ProviderManager.registerModels "acme" (PValue [Fixtures.gpt]) Fixtures.world =
      (Return tt, w1) ∧
    trace (snd (ProviderRouter.completion Fixtures.healthy
                  (Fixtures.requestFor "acme/gpt") w1)) =
      [RouterCompletion (Fixtures.requestFor "acme/gpt");
       ClientCompletion Fixtures.acme forwarded] ∧
    Request.model forwarded = "gpt".
Proof.
  assert (Hin : Fixtures.gpt ∈ [Fixtures.gpt]) by apply list_elem_of_here.
  split; [discriminate|]. split; [reflexivity|]. split; [exact Hin|].
  split; [reflexivity|].
  destruct (registered_model_is_routed Fixtures.healthy "acme" [Fixtures.gpt]
              Fixtures.gpt (Fixtures.requestFor "acme/gpt") Fixtures.world Fixtures.acme)
    as (w1 & forwarded & Hreg & Htrace & Hmodel & _);
    [discriminate | reflexivity | exact Hin | reflexivity |].
  exists w1, forwarded. split; [exact Hreg|]. split; [exact Htrace | exact Hmodel].
Defined.

Lemma aliases_stay_prefixed_witness :
  prefixed (manager Fixtures.world) ∧
  prefixed (manager (snd (ProviderManager.refreshModels Fixtures.healthy "acme"
                            Fixtures.world))) ∧
  "acme/gpt" = "acme" +:+ "/" +:+ ProviderRouter.actualModel "acme/gpt" "acme".
Proof.
  assert (H : prefixed (manager Fixtures.world)).
  { intros alias providerName Ha. simpl in Ha.
    apply lookup_singleton_Some in Ha as [<- <-]. by exists "gpt". }
  split; [exact H|].
  destruct (aliases_stay_prefixed Fixtures.healthy Fixtures.world H)
    as (_ & _ & Hrefresh & _ & _ & Hstrip).
  split; [apply Hrefresh|]. apply Hstrip. reflexivity.
Defined.

End TableExamples.

(** ** The provider manager: start-up *)
Section Startup.
Context (up : Upstream.t).

Lemma createClient_inv (name : string) (config : ProviderConfig.t) (w w' : World)
    (client : ProviderClient.t) :
  ProviderRegistry.createClient name config w = (Return client, w') →
  w' = w ∧
  ∃ factory,
    ProviderRegistry.get (ProviderConfig.type config) (factories w) = Some factory ∧
    client = factory name config.
Proof.
  unfold ProviderRegistry.createClient.
  destruct (ProviderRegistry.get _ _) as [factory|]; [|done].
  destruct (negb _); [done|]. intros [= <- <-]. by eauto.
Qed.

(** What the registration of the fetched models can change is the
    alias table. *)
Lemma register_fetched_frame (name : string) (fetched : Result ModelsList)
    (w w' : World) (o : Outcome unit) :
  (match data fetched, err fetched with
   | Some models, None =>
       filteredModels <- ProviderManager.applyFilter name models;;
       ProviderManager.registerModels name filteredModels
   | _, _ => ret tt
   end) w = (o, w') →
  clients (manager w') = clients (manager w) ∧ trace w' = trace w ∧
  factories w' = factories w ∧ globalConfig w' = globalConfig w.
Proof.
  destruct (data fetched) as [models|]; [|by intros [= <- <-]].
  destruct (err fetched); [by intros [= <- <-]|].
  unfold bind. destruct (applyFilter_returns name models w) as [filtered ->].
  destruct filtered as [ms|e]; [|by intros [= <- <-]].
  rewrite registerModels_value. by intros [= <- <-].
Qed.

Lemma initializeLoop_success (entries : list (string * ProviderConfig.t))
    (w w' : World) (r : Result unit) :
  ProviderManager.initializeLoop up entries w = (Return r, w') →
  data r = None →
  trace w' = trace w ++ initCalls (factories w) entries ∧
  (∀ name,
     is_Some (clients (manager w') !! name) ↔
     is_Some (clients (manager w) !! name) ∨
     ∃ config, (name, config) ∈ entries ∧ ProviderConfig.enabled config = true) ∧
  factories w' = factories w ∧ globalConfig w' = globalConfig w.
Proof.
  revert w. induction entries as [|[name providerConfig] entries IH]; intros w.
  - cbn [ProviderManager.initializeLoop]. intros [= <- <-] _.
    unfold initCalls. simpl. rewrite app_nil_r. split_and!; try done.
    intros n. split; [by left|]. intros [?|(config & []%elem_of_nil & _)]. done.
  - cbn [ProviderManager.initializeLoop].
    destruct (ProviderConfig.enabled providerConfig) eqn:Henabled; cbn [negb].
    + unfold bind at 1.
      destruct (ProviderRegistry.createClient name providerConfig w)
        as [[client|e] w0] eqn:Hcreate; [|done].
      apply createClient_inv in Hcreate as (-> & factory & Hfactory & ->).
      unfold bind at 1, call at 1.
      destruct (err (Upstream.create up (trace w) (factory name providerConfig)))
        eqn:Herr; [by intros [= <- <-]|].
      unfold bind at 1, call at 1. unfold bind at 1.
      match goal with
      | |- (let (_, _) := ?c ?w1 in _) = _ → _ =>
          destruct (c w1) as [[[]|e] w3] eqn:Hreg; [|done]
      end.
      apply register_fetched_frame in Hreg as (Hc3 & Ht3 & Hf3 & Hg3).
      cbn [clients manager trace factories globalConfig] in Hc3, Ht3, Hf3, Hg3.
      unfold bind at 1. unfold ProviderManager.setClient at 1. unfold_monad.
      cbn [fst snd]. intros Hloop Hdata.
      destruct (IH _ Hloop Hdata) as (Htrace & Hclients & Hfs & Hg).
      cbn [clients manager trace factories globalConfig] in Htrace, Hclients, Hfs, Hg.
      split_and!.
      * rewrite Htrace, Ht3, Hf3. unfold initCalls. cbn [mbind list_bind fst snd].
        rewrite Henabled, Hfactory. rewrite <- !List.app_assoc. done.
      * intros n. rewrite Hclients. rewrite Hc3.
        destruct (decide (n = name)) as [->|Hn].
        -- rewrite lookup_insert_eq. split; [|by eauto]. intros _. right.
           exists providerConfig. split; [apply list_elem_of_here|done].
        -- rewrite lookup_insert_ne by done. split.
           ++ intros [?|(config & Hin & Hen)]; [by left|]. right.
              exists config. split; [by apply list_elem_of_further|done].
           ++ intros [?|(config & Hin & Hen)]; [by left|]. right.
              exists config. split; [|done].
              apply elem_of_cons in Hin as [[= ? ?]|?]; [congruence|done].
      * congruence.
      * congruence.
    + intros Hloop Hdata.
      destruct (IH _ Hloop Hdata) as (Htrace & Hclients & Hfs & Hg).
      split_and!; try done.
      * rewrite Htrace. unfold initCalls. cbn [mbind list_bind fst snd].
        by rewrite Henabled.
      * intros n. rewrite Hclients. split.
        -- intros [?|(config & Hin & Hen)]; [by left|]. right.
           exists config. split; [by apply list_elem_of_further|done].
        -- intros [?|(config & Hin & Hen)]; [by left|]. right.
           exists config. split; [|done].
           apply elem_of_cons in Hin as [[= ? ?]|?]; [congruence|done].
Qed.

(** X7.  When [initializeProviders] returns the result of a completed
    run (null data), it has called, for each enabled provider in the
    order of the configuration, [create] and then [models] on the
    client that the registered factory builds from the name and the
    configuration of the provider, and nothing else; a provider has a
    client afterwards exactly when it had one before or is an enabled
    provider of the configuration; the registry and the configuration
    are unchanged. *)
Theorem initializeProviders_success
    (providers : option (list (string * ProviderConfig.t)))
    (w w' : World) (r : Result unit) :
  ProviderManager.initializeProviders up providers w = (Return r, w') →
  data r = None →
  trace w' = trace w ++ initCalls (factories w) (default [] providers) ∧
  (∀ name,
     is_Some (clients (manager w') !! name) ↔
     is_Some (clients (manager w) !! name) ∨
     ∃ config, (name, config) ∈ default [] providers ∧
               ProviderConfig.enabled config = true) ∧
  factories w' = factories w ∧ globalConfig w' = globalConfig w.
Proof. apply initializeLoop_success. Qed.

(** X8.  When the [create] of the client of an enabled provider
    answers with an error in [err], [initializeProviders] stops there:
    it returns at once, the providers that follow in the configuration
    are neither contacted nor registered, and the failed provider gets
    no client.  The result it returns carries the error, with the name
    of the provider and the message, as data, and reports no error:
    [err] is null and [isErr()] is false. *)
Theorem initializeProviders_stops_at_failed_create
    (before rest : list (string * ProviderConfig.t))
    (name : string) (providerConfig : ProviderConfig.t)
    (w w1 : World) (client : ProviderClient.t) (e : Error) :
  ProviderManager.initializeProviders up (Some before) w = (Return ResultVoid, w1) →
  ProviderConfig.enabled providerConfig = true →
  ProviderRegistry.createClient name providerConfig w1 = (Return client, w1) →
  err (Upstream.create up (trace w1) client) = Some e →
  ∃ r,
    ProviderManager.initializeProviders up
      (Some (before ++ (name, providerConfig) :: rest)) w =
      (Return r, record w1 [ClientCreate client]) ∧
    data r = Some (PError (newError ("Failed to initialize provider " +:+ Str.dq +:+ name
                                     +:+ Str.dq +:+ ": " +:+ message e))) ∧
    err r = None ∧ isErr r = false.
Proof.
  intros Hbefore Henabled Hclient Herr.
  unfold ProviderManager.initializeProviders in *. simpl in Hbefore |- *.
  rewrite (initializeLoop_app up _ _ _ _ Hbefore).
  cbn [ProviderManager.initializeLoop]. rewrite Henabled. cbn [negb].
  unfold bind at 1. rewrite Hclient. unfold bind at 1, call at 1. rewrite Herr.
  eexists. split; [reflexivity|]. done.
Qed.

End Startup.

Section StartupExamples.

Lemma initializeProviders_success_witness :
  let providers := Some [("acme", Fixtures.acmeConfig)] in
  let w' := snd (ProviderManager.initializeProviders Fixtures.healthy providers
                   Fixtures.blank) in
  ProviderManager.initializeProviders Fixtures.healthy providers Fixtures.blank =
    (Return ResultVoid, w') ∧
  data (ResultVoid (T := unit)) = None ∧
  trace w' = [ClientCreate Fixtures.acme; ClientModels Fixtures.acme] ∧
  is_Some (clients (manager w') !! "acme").
Proof.
  intros providers w'.
  assert (Hrun : ProviderManager.initializeProviders Fixtures.healthy providers
                   Fixtures.blank = (Return ResultVoid, w')) by reflexivity.
  split; [exact Hrun|]. split; [reflexivity|].
  destruct (initializeProviders_success Fixtures.healthy providers Fixtures.blank w'
              ResultVoid Hrun eq_refl) as (Htrace & Hclients & _).
  split; [exact Htrace|]. apply Hclients. right.
  exists Fixtures.acmeConfig. split; [apply list_elem_of_here | reflexivity].
Defined.

Lemma initializeProviders_stops_at_failed_create_witness :
  ProviderManager.initializeProviders Fixtures.refusing (Some []) Fixtures.blank =
    (Return ResultVoid, Fixtures.blank) ∧
  ProviderConfig.enabled Fixtures.acmeConfig = true ∧
  ProviderRegistry.createClient "acme" Fixtures.acmeConfig Fixtures.blank =
    (Return Fixtures.acme, Fixtures.blank) ∧
  err (Upstream.create Fixtures.refusing (trace Fixtures.blank) Fixtures.acme) =
    Some (newError "invalid api key") ∧
  ∃ r,
    ProviderManager.initializeProviders Fixtures.refusing
      (Some [("acme", Fixtures.acmeConfig); ("later", Fixtures.acmeConfig)])
      Fixtures.blank =
      (Return r, record Fixtures.blank [ClientCreate Fixtures.acme]) ∧
    err r = None ∧ isErr r = false.
Proof.
  split; [reflexivity|]. split; [reflexivity|]. split; [reflexivity|].
  split; [reflexivity|].
  destruct (initializeProviders_stops_at_failed_create Fixtures.refusing []
              [("later", Fixtures.acmeConfig)] "acme" Fixtures.acmeConfig
              Fixtures.blank Fixtures.blank Fixtures.acme (newError "invalid api key"))
    as (r & Hrun & _ & Herr & Hno);
    [reflexivity | reflexivity | reflexivity | reflexivity |].
  exists r. split; [exact Hrun|]. split; [exact Herr | exact Hno].
Defined.

End StartupExamples.

(** ** The provider manager: what a refresh leaves alone *)
Section RefreshFrame.
Context (up : Upstream.t).

Lemma refreshModels_resume_manager (name : string) (fetched : Result ModelsList)
    (w : World) :
  let w' := snd (ProviderManager.refreshModels_resume name fetched w) in
  clients (manager w') = clients (manager w) ∧
  factories w' = factories w ∧ globalConfig w' = globalConfig w ∧
  (modelAliasesMapping (manager w') = modelAliasesMapping (manager w) ∨
   ∃ models,
     modelAliasesMapping (manager w') =
       ProviderManager.registerModels_map name models (modelAliasesMapping (manager w))).
Proof.
  cbv zeta. unfold ProviderManager.refreshModels_resume.
  destruct (err fetched); [simpl; split_and!; auto|].
  destruct (data fetched) as [models|]; [|simpl; split_and!; auto].
  unfold bind. destruct (applyFilter_returns name models w) as [filtered ->].
  destruct filtered as [ms|e]; [|simpl; split_and!; auto].
  rewrite registerModels_value. simpl. split_and!; try done.
  right. by exists ms.
Qed.

(** X9.  A refresh of one provider leaves the rest of the directory
    alone, whatever the upstream answers and whether the call returns
    or throws: the clients are unchanged, every alias that the table
    maps to another provider afterwards was mapped to that provider
    before (a refresh gives nothing to, and changes nothing for,
    another provider; it can only take over an alias that collides
    with one of its own), the registry and the configuration are
    unchanged, and the only call made is one [refreshModels] of the
    client of the provider; for an unknown provider nothing changes at
    all. *)
Theorem refreshModels_frame (name : string) (w : World) :
  let w' := snd (ProviderManager.refreshModels up name w) in
  clients (manager w') = clients (manager w) ∧
  (∀ alias providerName,
     providerName ≠ name →
     modelAliasesMapping (manager w') !! alias = Some providerName →
     modelAliasesMapping (manager w) !! alias = Some providerName) ∧
  trace w' =
    trace w ++ match clients (manager w) !! name with
               | Some client => [ClientRefreshModels client]
               | None => []
               end ∧
  (clients (manager w) !! name = None → w' = w) ∧
  factories w' = factories w ∧ globalConfig w' = globalConfig w.
Proof.
  intros w'. subst w'. rewrite refreshModels_pieces.
  destruct (clients (manager w) !! name) as [client|] eqn:Hc.
  - rewrite (refreshModels_begin_registered _ _ _ Hc).
    cbn [with_manager trace].
    match goal with
    | |- context [ProviderManager.refreshModels_resume name ?f ?w1] =>
        pose proof (refreshModels_resume_manager name f w1) as (Hcl & Hfs & Hg & Hm);
        pose proof (refreshModels_resume_trace name f w1) as Htr;
        destruct (ProviderManager.refreshModels_resume name f w1) as [o w2]
    end.
    cbn [snd record with_manager clients manager trace factories globalConfig
         modelAliasesMapping] in *.
    split_and!; try done.
    intros alias providerName Hne.
    destruct Hm as [->|[models ->]].
    + rewrite removeModels_map_lookup. by case_decide.
    + rewrite registerModels_map_lookup. case_decide; [congruence|].
      rewrite removeModels_map_lookup. by case_decide.
  - rewrite (refreshModels_begin_unknown _ _ Hc). simpl. rewrite app_nil_r.
    split_and!; done.
Qed.

End RefreshFrame.

(** ** Results never report an error *)
Section NoError.
Context (up : Upstream.t).

Lemma retryLoop_err_null (attempts : list Z) (request : Request.t) (w w' : World)
    (r : Result Response.t) :
  Handler.retryLoop up attempts request w = (Return r, w') → err r = None.
Proof.
  revert w. induction attempts as [|i attempts IH]; intros w; simpl.
  - by intros [= <- <-].
  - unfold bind.
    destruct (completion_returns up request w) as (r0 & w0 & ->).
    destruct (err r0); [apply IH|].
    destruct (data r0) as [[response|e]|]; [|done|apply IH].
    destruct (_ =? _)%Z; [apply IH|]. by intros [= <- <-].
Qed.

Lemma initializeLoop_err_null (entries : list (string * ProviderConfig.t))
    (w w' : World) (r : Result unit) :
  ProviderManager.initializeLoop up entries w = (Return r, w') → err r = None.
Proof.
  revert w. induction entries as [|[name providerConfig] entries IH]; intros w.
  - by intros [= <- <-].
  - cbn [ProviderManager.initializeLoop].
    destruct (negb _); [apply IH|].
    unfold bind, call.
    destruct (ProviderRegistry.createClient name providerConfig w) as [[client|e] w0];
      [|done].
    destruct (err (Upstream.create up (trace w0) client)); [by intros [= <- <-]|].
    match goal with
    | |- (let (_, _) := ?c in _) = _ → _ => destruct c as [[[]|e] w3]; [|done]
    end.
    destruct (ProviderManager.setClient name client w3) as [[[]|e] w4]; [|done].
    apply IH.
Qed.

Lemma refreshModels_err_null (name : string) (w w' : World) (r : Result ModelsList) :
  ProviderManager.refreshModels up name w = (Return r, w') → err r = None.
Proof.
  rewrite refreshModels_pieces.
  destruct (ProviderManager.refreshModels_begin name w) as [[[r0|client]|e] w1] eqn:Hb;
    [| |done].
  - unfold ProviderManager.refreshModels_begin in Hb. unfold_monad.
    destruct (clients (manager w) !! name); [done|].
    injection Hb as <- <-. by intros [= <- <-].
  - unfold ProviderManager.refreshModels_resume.
    destruct (err _); [by intros [= <- <-]|].
    destruct (data _) as [models|]; [|by intros [= <- <-]].
    unfold bind.
    match goal with
    | |- context [ProviderManager.applyFilter name models ?w2] =>
        destruct (applyFilter_returns name models w2) as [filtered ->]
    end.
    destruct (ProviderManager.registerModels name filtered _) as [[[]|e] w3]; [|done].
    case_bool_decide; by intros [= <- <-].
Qed.

(** X10.  No function of the directory, of the router or of the retry
    loop ever returns a result that reports an error: whatever the
    upstream answers (also when a client sets [err]), the result that
    [Router.completion], [Router.models], [refreshModels],
    [destroyProvider], [initializeProviders] or [autoRetryCompletion]
    returns has a null [err], and [isErr()] is false.  A caller that
    tests [err], as the start-up code does after
    [initializeProviders], never sees a failure. *)
Theorem no_result_reports_an_error :
  (∀ request w r w',
     ProviderRouter.completion up request w = (Return r, w') →
     err r = None ∧ isErr r = false) ∧
  (∀ w r w', ProviderRouter.models w = (Return r, w') → err r = None ∧ isErr r = false) ∧
  (∀ name w r w',
     ProviderManager.refreshModels up name w = (Return r, w') →
     err r = None ∧ isErr r = false) ∧
  (∀ name w r w',
     ProviderManager.destroyProvider name w = (Return r, w') →
     err r = None ∧ isErr r = false) ∧
  (∀ providers w r w',
     ProviderManager.initializeProviders up providers w = (Return r, w') →
     err r = None ∧ isErr r = false) ∧
  (∀ request w r w',
     Handler.autoRetryCompletion up request w = (Return r, w') →
     err r = None ∧ isErr r = false).
Proof.
  assert (Hnull : ∀ T (r : Result T), err r = None → err r = None ∧ isErr r = false).
  { intros T r H. split; [done|]. unfold isErr, isOk. by rewrite H. }
  split_and!.
  - intros request w r w' H. apply Hnull. by apply completion_err_null in H as [? _].
  - intros w r w' [= <- <-]. by apply Hnull.
  - intros name w r w' H. apply Hnull. by apply refreshModels_err_null in H.
  - intros name w r w'. unfold ProviderManager.destroyProvider,
      ProviderManager.removeModels. unfold_monad.
    destruct (clients (manager w) !! name); intros [= <- <-]; by apply Hnull.
  - intros providers w r w' H. apply Hnull. by apply initializeLoop_err_null in H.
  - intros request w r w'. unfold Handler.autoRetryCompletion, bind, getConfig.
    destruct (globalConfig w); [|done]. intros H. apply Hnull.
    by apply retryLoop_err_null in H.
Qed.

End NoError.

(** ** The model filter, applied again *)
Section FilterAgain.

Lemma filter_idemp {A} (P : A → Prop) `{!∀ x, Decision (P x)} (l : list A) :
  filter P (filter P l) = filter P l.
Proof.
  induction l as [|x l IH]; [done|].
  rewrite filter_cons. destruct (decide (P x)) as [Hx|Hx]; [|done].
  rewrite filter_cons, decide_True by done. by f_equal.
Qed.

(** X11.  [applyFilter] always returns, never throws and changes
    nothing, with or without a loaded configuration; of a list it
    returns a sublist (no model is added or moved), of a value that is
    not a list (the error object of a failed fetch) it returns that
    value, the [TypeError] of filtering it being caught inside; and it
    is idempotent: filtering what it returned returns the same
    again. *)
Theorem applyFilter_idempotent (name : string) (models : Payload ModelsList) (w : World) :
  ∃ filtered,
    ProviderManager.applyFilter name models w = (Return filtered, w) ∧
    ProviderManager.applyFilter name filtered w = (Return filtered, w) ∧
    match models, filtered with
    | PValue ms, PValue fs => fs `sublist_of` ms
    | PError e, PError e' => e' = e
    | _, _ => False
    end.
Proof.
  destruct models as [ms|e].
  - rewrite applyFilter_eq. eexists. split; [reflexivity|].
    rewrite applyFilter_eq.
    destruct (configuredFilter w name) as [f|]; [|done].
    destruct (ProviderFilter.mode f); simpl;
      unfold FilterUtil.whitelist, FilterUtil.blacklist;
      rewrite filter_idemp; (split; [done|apply sublist_filter]).
  - exists (PError e). unfold ProviderManager.applyFilter. unfold_monad.
    destruct (globalConfig w) as [config|]; simpl; [|done].
    destruct (Config.getProviderConfig config name) as [pc|]; simpl; [|done].
    by destruct (ProviderConfig.filter pc).
Qed.

End FilterAgain.

(** ** Request spoofing *)
Section Spoofing.
Context (randomBelow : nat → nat → nat).

Lemma get_lt (s : string) (i : nat) :
  i < String.length s → ∃ c, String.get i s = Some c.
Proof.
  revert i. induction s as [|d s IH]; intros i Hi; simpl in *; [lia|].
  destruct i as [|i]; [by eauto|]. apply IH. lia.
Qed.

Lemma string_length_app (a b : string) :
  String.length (a +:+ b) = String.length a + String.length b.
Proof.
  induction a as [|x a IH]; [done|].
  change (S (String.length (a +:+ b)) = S (String.length a + String.length b)).
  by f_equal.
Qed.

Lemma get_app_inv (a b : string) (i : nat) (c : Ascii.ascii) :
  String.get i (a +:+ b) = Some c →
  String.get i a = Some c ∨ ∃ j, String.get j b = Some c.
Proof.
  revert i. induction a as [|x a IH]; intros i H.
  - right. by exists i.
  - change (String.get i (String x (a +:+ b)) = Some c) in H.
    destruct i as [|i]; simpl in *; [by left|]. by apply IH.
Qed.

Lemma alphanumeric_app (a b : string) :
  alphanumeric a → alphanumeric b → alphanumeric (a +:+ b).
Proof.
  intros Ha Hb i c [H|[j H]]%get_app_inv; [by eapply Ha | by eapply Hb].
Qed.

Lemma charAt_characters (i : nat) :
  i < String.length Spoof.characters →
  String.length (Str.charAt Spoof.characters i) = 1 ∧
  alphanumeric (Str.charAt Spoof.characters i).
Proof.
  intros Hi. unfold Str.charAt.
  destruct (get_lt _ _ Hi) as [c Hc]. rewrite Hc. split; [done|].
  intros [|k] d Hd; simpl in Hd; [|done]. injection Hd as <-. by exists i.
Qed.

Lemma fill_spec (todo : nat) (result : string) (calls : nat) :
  (∀ k n, 0 < n → randomBelow k n < n) →
  alphanumeric result →
  ∃ content,
    Spoof.fill randomBelow todo result calls = (Return content, calls + todo) ∧
    String.length content = String.length result + todo ∧
    alphanumeric content.
Proof.
  intros Hrange. revert result calls.
  induction todo as [|todo IH]; intros result calls Hresult; simpl.
  - exists result. rewrite !Nat.add_0_r. by split_and!.
  - unfold bind, Spoof.floorRandom.
    set (i := randomBelow calls _).
    assert (Hi : i < String.length Spoof.characters).
    { apply Hrange. simpl. lia. }
    destruct (charAt_characters i Hi) as [Hlen Hchar].
    destruct (IH (result +:+ Str.charAt Spoof.characters i) (S calls)) as
      (content & -> & Hl & Ha).
    { by apply alphanumeric_app. }
    exists content. split_and!; [f_equal; lia| |done].
    rewrite Hl, string_length_app, Hlen. lia.
Qed.

Lemma generateRandomContent_spec (calls : nat) :
  (∀ k n, 0 < n → randomBelow k n < n) →
  ∃ content,
    Spoof.generateRandomContent randomBelow calls =
      (Return content, calls + 1 + String.length content) ∧
    5 ≤ String.length content ≤ 10 ∧
    alphanumeric content.
Proof.
  intros Hrange. unfold Spoof.generateRandomContent, bind, Spoof.floorRandom.
  pose proof (Hrange calls 6 ltac:(lia)) as Hr.
  destruct (fill_spec (randomBelow calls 6 + 5) EmptyString (S calls) Hrange)
    as (content & -> & Hl & Ha).
  { intros i c H. by destruct i. }
  exists content. simpl in Hl. split_and!; [f_equal; lia|lia|lia|done].
Qed.

(** X12.  With a random source whose draws below [n] are below [n],
    [spoofRequestContent] returns the request with one user message
    put before its messages and one after them, the messages
    themselves and every other field unchanged.  The content of each
    of the two is between 5 and 10 characters long, all of them
    letters or digits of [characters]; producing them makes two draws
    for the lengths and one draw per character. *)
Theorem spoofRequestContent_shape (request : Request.t) (calls : nat) :
  (∀ k n, 0 < n → randomBelow k n < n) →
  ∃ first last,
    Spoof.spoofRequestContent randomBelow request calls =
      (Return (Spoof.withMessages request
                 (Spoof.userMessage first :: Request.messages request
                    ++ [Spoof.userMessage last])),
       calls + 2 + String.length first + String.length last) ∧
    Spoof.generateRandomContent randomBelow calls =
      (Return first, calls + 1 + String.length first) ∧
    5 ≤ String.length first ≤ 10 ∧ alphanumeric first ∧
    5 ≤ String.length last ≤ 10 ∧ alphanumeric last.
Proof.
  intros Hrange.
  destruct (generateRandomContent_spec calls Hrange) as (first & Hfirst & Hlen1 & Ha1).
  destruct (generateRandomContent_spec (calls + 1 + String.length first) Hrange)
    as (last & Hlast & Hlen2 & Ha2).
  exists first, last. split_and!; try done; try lia.
  unfold Spoof.spoofRequestContent, bind. rewrite Hfirst, Hlast.
  unfold ret. f_equal. lia.
Qed.

End Spoofing.

Section SpoofingExamples.

Lemma spoofRequestContent_shape_witness :
  (∀ k n, 0 < n → Fixtures.cycle k n < n) ∧
  ∃ first last,
    Spoof.spoofRequestContent Fixtures.cycle (Fixtures.requestFor "acme/gpt") 0 =
      (Return (Spoof.withMessages (Fixtures.requestFor "acme/gpt")
                 [Spoof.userMessage first; Fixtures.hi; Spoof.userMessage last]),
       2 + String.length first + String.length last) ∧
    5 ≤ String.length first ≤ 10.
Proof.
  assert (Hrange : ∀ k n, 0 < n → Fixtures.cycle k n < n).
  { intros k n Hn. unfold Fixtures.cycle. apply Nat.mod_upper_bound. lia. }
  split; [exact Hrange|].
  destruct (spoofRequestContent_shape Fixtures.cycle (Fixtures.requestFor "acme/gpt")
              0 Hrange) as (first & last & Hspoof & _ & Hlen & _).
  exists first, last. split; [exact Hspoof | exact Hlen].
Defined.

End SpoofingExamples.

(** ** The completion handler *)
Section HandleCompletion.
Context (up : Upstream.t) (randomBelow : nat → nat → nat).

(** The router leaves the manager alone; what it adds to the trace
    belongs to the request, and a response it returns is one the
    upstream gave. *)
Lemma completion_frame (request : Request.t) (w : World) :
  ∃ r added,
    ProviderRouter.completion up request w = (Return r, record w added) ∧
    Forall (attemptOf request) added ∧
    err r = None ∧
    ∀ response, data r = Some (PValue response) → answered up response.
Proof.
  destruct (modelAliasesMapping (manager w) !! Request.model request)
    as [providerName|] eqn:H.
  - destruct (decide (providerName = EmptyString)) as [->|Hne].
    + rewrite completion_empty_provider by done. eexists _, _.
      split; [reflexivity|]. split; [by repeat constructor|]. by split.
    + destruct (clients (manager w) !! providerName) as [client|] eqn:Hc.
      * rewrite (completion_resolved up _ _ _ _ H Hne Hc). eexists _, _.
        split; [reflexivity|]. split; [by repeat constructor|].
        unfold relayed.
        destruct (Upstream.completion up _ client _) as [[d|] [e|]] eqn:Hup;
          simpl; split; try done.
        intros response [= ->]. by eexists _, _, _.
      * rewrite (completion_client_absent up _ _ _ H Hne Hc). eexists _, _.
        split; [reflexivity|]. split; [by repeat constructor|]. by split.
  - rewrite completion_alias_absent by done. eexists _, _.
    split; [reflexivity|]. split; [by repeat constructor|]. by split.
Qed.

Lemma record_record (w : World) (a b : list Event) :
  record (record w a) b = record w (a ++ b).
Proof. unfold record. simpl. by rewrite <- List.app_assoc. Qed.

(** The outcome of the retry loop: a response with completion tokens
    that the upstream gave, the error of exhaustion as data, or the
    [TypeError] of a failed attempt. *)
Lemma retryLoop_outcome (attempts : list Z) (request : Request.t) (w : World) :
  ∃ added,
    snd (Handler.retryLoop up attempts request w) = record w added ∧
    Forall (attemptOf request) added ∧
    match fst (Handler.retryLoop up attempts request w) with
    | Return r =>
        r = ResultOfError Handler.maxRetriesExceeded ∨
        ∃ response,
          r = ResultOf response ∧
          Usage.completion_tokens (Response.usage response) ≠ 0%Z ∧
          answered up response
    | Throw e => e = Handler.usageOfUndefined
    end.
Proof.
  revert w. induction attempts as [|i attempts IH]; intros w.
  - exists []. simpl. unfold record. rewrite app_nil_r. destruct w. by auto.
  - cbn [Handler.retryLoop]. unfold bind.
    destruct (completion_frame request w) as (r & added & -> & Hadded & Herr & Hdata).
    rewrite Herr.
    assert (Hnext : ∃ added0,
              snd (Handler.retryLoop up attempts request (record w added)) =
                record w added0 ∧
              Forall (attemptOf request) added0 ∧
              match fst (Handler.retryLoop up attempts request (record w added)) with
              | Return r =>
                  r = ResultOfError Handler.maxRetriesExceeded ∨
                  ∃ response,
                    r = ResultOf response ∧
                    Usage.completion_tokens (Response.usage response) ≠ 0%Z ∧
                    answered up response
              | Throw e => e = Handler.usageOfUndefined
              end).
    { destruct (IH (record w added)) as (added' & Hw & Hf & Ho).
      exists (added ++ added'). rewrite Hw, record_record.
      split; [done|]. split; [by apply Forall_app|done]. }
    destruct (data r) as [[response|e]|]; [| |done].
    + destruct (Z.eqb_spec (Usage.completion_tokens (Response.usage response)) 0)
        as [Hz|Hnz]; [done|].
      exists added. simpl. split; [done|]. split; [done|]. right.
      exists response. split; [done|]. split; [done|]. by apply Hdata.
    + exists added. simpl. by auto.
Qed.

Lemma autoRetryCompletion_outcome (request : Request.t) (w : World) (config : Config.t) :
  globalConfig w = Some config →
  ∃ added,
    snd (Handler.autoRetryCompletion up request w) = record w added ∧
    Forall (attemptOf request) added ∧
    match fst (Handler.autoRetryCompletion up request w) with
    | Return r =>
        r = ResultOfError Handler.maxRetriesExceeded ∨
        ∃ response,
          r = ResultOf response ∧
          Usage.completion_tokens (Response.usage response) ≠ 0%Z ∧
          answered up response
    | Throw e => e = Handler.usageOfUndefined
    end.
Proof.
  intros Hconfig. unfold Handler.autoRetryCompletion, bind, getConfig.
  rewrite Hconfig. apply retryLoop_outcome.
Qed.

Lemma fill_returns (todo : nat) (result : string) (calls : nat) :
  ∃ content, Spoof.fill randomBelow todo result calls = (Return content, calls + todo).
Proof.
  revert result calls. induction todo as [|todo IH]; intros result calls;
    cbn [Spoof.fill].
  - exists result. by rewrite Nat.add_0_r.
  - unfold bind, Spoof.floorRandom.
    destruct (IH (result +:+ Str.charAt Spoof.characters
                               (randomBelow calls (String.length Spoof.characters)))
                 (S calls)) as [content ->].
    exists content. f_equal. lia.
Qed.

(** Spoofing returns, whatever the random source gives. *)
Lemma spoofRequestContent_returns (request : Request.t) (calls : nat) :
  ∃ first last calls',
    Spoof.spoofRequestContent randomBelow request calls =
      (Return (Spoof.withMessages request
                 (Spoof.userMessage first :: Request.messages request
                    ++ [Spoof.userMessage last])), calls').
Proof.
  unfold Spoof.spoofRequestContent, Spoof.generateRandomContent, Spoof.floorRandom, bind.
  destruct (fill_returns (randomBelow calls 6 + 5) EmptyString (S calls))
    as [first ->].
  destruct (fill_returns (randomBelow (S calls + (randomBelow calls 6 + 5)) 6 + 5)
              EmptyString (S (S calls + (randomBelow calls 6 + 5))))
    as [last ->].
  by eexists _, _, _.
Qed.

(** The handler from the point where the request to serve is settled,
    for a request that asks for no stream. *)
Lemma serve_json (request : Request.t) (w : World) (calls : nat) (config : Config.t) :
  globalConfig w = Some config →
  Request.stream request ≠ Some true →
  ∃ added,
    snd (Handlers.serve up request (w, calls)) = (record w added, calls) ∧
    Forall (attemptOf request) added ∧
    routerCalls (trace w ++ added) ≤
      routerCalls (trace w) + Z.to_nat (Config.maxRetries (Config.advanced config)) ∧
    match fst (Handlers.serve up request (w, calls)) with
    | Return (Handlers.JsonBody response) =>
        Usage.completion_tokens (Response.usage response) ≠ 0%Z ∧ answered up response
    | Return (Handlers.EventStream _) => False
    | Throw e => isTypeError e = true
    end.
Proof.
  intros Hconfig Hstream. unfold Handlers.serve.
  assert (default false (Request.stream request) = false) as ->.
  { destruct (Request.stream request) as [[]|]; done. }
  cbn [negb]. unfold bind, Handlers.inWorld. cbn [fst snd].
  pose proof (autoRetryCompletion_routerCalls up request w config Hconfig) as Hcalls.
  destruct (autoRetryCompletion_outcome request w config Hconfig)
    as (added & Hw & Hadded & Ho).
  destruct (Handler.autoRetryCompletion up request w) as [[r|e] w'];
    cbn [fst snd] in *; subst w'.
  - exists added. destruct Ho as [->|(response & -> & Htokens & Hanswered)]; simpl.
    + by split_and!.
    + by split_and!.
  - exists added. subst e. by split_and!.
Qed.

(** The handler up to that point. *)
Lemma handleCompletion_serve (request : Request.t) (w : World) (calls : nat)
    (config : Config.t) :
  globalConfig w = Some config →
  Handlers.handleCompletion up randomBelow request (w, calls) =
    if Config.contentSpoof (Config.advanced config)
    then match Spoof.spoofRequestContent randomBelow request calls with
         | (Return spoofed, calls') => Handlers.serve up spoofed (w, calls')
         | (Throw e, calls') => (Throw e, (w, calls'))
         end
    else Handlers.serve up request (w, calls).
Proof.
  intros Hconfig. unfold Handlers.handleCompletion.
  unfold bind at 1. unfold Handlers.inWorld at 1, getConfig. cbn [fst snd].
  rewrite Hconfig. cbn [fst snd].
  destruct (Config.contentSpoof (Config.advanced config)); [|done].
  unfold bind, Handlers.inRandom. cbn [fst snd].
  by destruct (Spoof.spoofRequestContent randomBelow request calls) as [[spoofed|e] calls'].
Qed.

(** X13.  With the configuration loaded, [handleCompletion] on a
    request that does not ask for a stream, spoofed or not, either
    returns a response, and then one with completion tokens that the
    upstream gave as the answer of a call, or throws a [TypeError]; it
    never returns a response without completion tokens, and it never
    throws the error [Failed to create completion] that its code
    builds (the two tests that lead to it cannot succeed).  It enters
    the router at most [maxRetries] times and leaves the manager
    unchanged. *)
Theorem handleCompletion_json (request : Request.t) (w : World) (calls : nat)
    (config : Config.t) :
  globalConfig w = Some config →
  Request.stream request ≠ Some true →
  let outcome := Handlers.handleCompletion up randomBelow request (w, calls) in
  match fst outcome with
  | Return (Handlers.JsonBody response) =>
      Usage.completion_tokens (Response.usage response) ≠ 0%Z ∧ answered up response
  | Return (Handlers.EventStream _) => False
  | Throw e => isTypeError e = true
  end ∧
  routerCalls (trace (fst (snd outcome))) ≤
    routerCalls (trace w) + Z.to_nat (Config.maxRetries (Config.advanced config)) ∧
  manager (fst (snd outcome)) = manager w.
Proof.
  intros Hconfig Hstream outcome. subst outcome.
  rewrite (handleCompletion_serve _ _ _ _ Hconfig).
  destruct (Config.contentSpoof (Config.advanced config)).
  - destruct (spoofRequestContent_returns request calls) as (first & last & calls' & ->).
    match goal with
    | |- context [Spoof.withMessages request ?msgs] =>
        destruct (serve_json (Spoof.withMessages request msgs)
                    w calls' config Hconfig Hstream)
          as (added & Hsnd & _ & Hcalls & Ho)
    end.
    rewrite Hsnd. cbn [fst snd]. by split_and!.
  - destruct (serve_json request w calls config Hconfig Hstream)
      as (added & Hsnd & _ & Hcalls & Ho).
    rewrite Hsnd. cbn [fst snd]. by split_and!.
Qed.

(** X14.  With content spoofing on, [handleCompletion] spoofs the
    request once and serves the spoofed request: the two random
    messages are drawn before anything else, every entry into the
    router is made with the spoofed request, and every call of a
    client, on each attempt of the retry loop, carries the same
    messages (the first random message, the messages of the caller in
    their order, the last random message) with [stream] off.  For a
    request that asks for a stream, the stream is created for the
    spoofed request and the handler itself makes no call. *)
Theorem handleCompletion_spoofs_once (request : Request.t) (w : World) (calls : nat)
    (config : Config.t) :
  (∀ k n, 0 < n → randomBelow k n < n) →
  globalConfig w = Some config →
  Config.contentSpoof (Config.advanced config) = true →
  ∃ first last added,
    let spoofed :=
      Spoof.withMessages request
        (Spoof.userMessage first :: Request.messages request
           ++ [Spoof.userMessage last]) in
    Handlers.handleCompletion up randomBelow request (w, calls) =
      Handlers.serve up spoofed
        (w, calls + 2 + String.length first + String.length last) ∧
    5 ≤ String.length first ≤ 10 ∧ alphanumeric first ∧
    5 ≤ String.length last ≤ 10 ∧ alphanumeric last ∧
    snd (Handlers.handleCompletion up randomBelow request (w, calls)) =
      (record w added, calls + 2 + String.length first + String.length last) ∧
    Forall (attemptOf spoofed) added ∧
    (Request.stream request = Some true →
     fst (Handlers.handleCompletion up randomBelow request (w, calls)) =
       Return (Handlers.EventStream spoofed) ∧ added = []).
Proof.
  intros Hrange Hconfig Hspoof.
  destruct (generateRandomContent_spec randomBelow calls Hrange)
    as (first & Hfirst & Hlen1 & Ha1).
  destruct (generateRandomContent_spec randomBelow
              (calls + 1 + String.length first) Hrange)
    as (last & Hlast & Hlen2 & Ha2).
  set (spoofed := Spoof.withMessages request
                    (Spoof.userMessage first :: Request.messages request
                       ++ [Spoof.userMessage last])).
  assert (Hsp : Spoof.spoofRequestContent randomBelow request calls =
                  (Return spoofed,
                   calls + 2 + String.length first + String.length last)).
  { unfold Spoof.spoofRequestContent, bind. rewrite Hfirst, Hlast.
    unfold ret. f_equal. lia. }
  assert (Hh : Handlers.handleCompletion up randomBelow request (w, calls) =
                 Handlers.serve up spoofed
                   (w, calls + 2 + String.length first + String.length last)).
  { rewrite (handleCompletion_serve _ _ _ _ Hconfig), Hspoof. by rewrite Hsp. }
  destruct (Request.stream request) as [[]|] eqn:Hstream.
  - exists first, last, []. cbv zeta. fold spoofed. rewrite Hh.
    unfold Handlers.serve. cbn [Request.stream spoofed Spoof.withMessages].
    rewrite Hstream. cbn [default negb from_option]. unfold ret. cbn [fst snd].
    unfold record. rewrite app_nil_r. destruct w.
    split_and!; try done; lia.
  - destruct (serve_json spoofed w
                (calls + 2 + String.length first + String.length last) config Hconfig)
      as (added & Hsnd & Hadded & _).
    { cbn. by rewrite Hstream. }
    exists first, last, added. cbv zeta. fold spoofed. rewrite Hh.
    split_and!; try done; lia.
  - destruct (serve_json spoofed w
                (calls + 2 + String.length first + String.length last) config Hconfig)
      as (added & Hsnd & Hadded & _).
    { cbn. by rewrite Hstream. }
    exists first, last, added. cbv zeta. fold spoofed. rewrite Hh.
    split_and!; try done; lia.
Qed.

End HandleCompletion.

Section HandleCompletionExamples.

Lemma handleCompletion_json_witness :
  globalConfig Fixtures.world = Some Fixtures.config ∧
  Request.stream (Fixtures.plainRequestFor "acme/gpt") ≠ Some true ∧
  fst (Handlers.handleCompletion Fixtures.healthy Fixtures.cycle
         (Fixtures.plainRequestFor "acme/gpt") (Fixtures.world, 0)) =
    Return (Handlers.JsonBody Fixtures.hello) ∧
  routerCalls (trace (fst (snd (Handlers.handleCompletion Fixtures.healthy Fixtures.cycle
                                  (Fixtures.plainRequestFor "acme/gpt")
                                  (Fixtures.world, 0))))) ≤ 3.
Proof.
  split; [reflexivity|]. split; [discriminate|]. split; [vm_compute; reflexivity|].
  destruct (handleCompletion_json Fixtures.healthy Fixtures.cycle
              (Fixtures.plainRequestFor "acme/gpt") Fixtures.world 0 Fixtures.config)
    as (_ & Hcalls & _); [reflexivity | discriminate |].
  exact Hcalls.
Defined.

Lemma handleCompletion_spoofs_once_witness :
  (∀ k n, 0 < n → Fixtures.cycle k n < n) ∧
  globalConfig Fixtures.spoofingWorld =
    Some (Config.mk (Config.mkAdvanced 3 500 true) (Some [("acme", Fixtures.acmeConfig)])) ∧
  ∃ first last added,
    snd (Handlers.handleCompletion Fixtures.healthy Fixtures.cycle
           (Fixtures.plainRequestFor "acme/gpt") (Fixtures.spoofingWorld, 0)) =
      (record Fixtures.spoofingWorld added,
       2 + String.length first + String.length last) ∧
    Forall (attemptOf
              (Spoof.withMessages (Fixtures.plainRequestFor "acme/gpt")
                 [Spoof.userMessage first; Fixtures.hi; Spoof.userMessage last]))
           added.
Proof.
  assert (Hrange : ∀ k n, 0 < n → Fixtures.cycle k n < n).
  { intros k n Hn. unfold Fixtures.cycle. apply Nat.mod_upper_bound. lia. }
  split; [exact Hrange|]. split; [reflexivity|].
  destruct (handleCompletion_spoofs_once Fixtures.healthy Fixtures.cycle
              (Fixtures.plainRequestFor "acme/gpt") Fixtures.spoofingWorld 0 _
              Hrange eq_refl eq_refl)
    as (first & last & added & _ & _ & _ & _ & _ & Hsnd & Hadded & _).
  exists first, last, added. split; [exact Hsnd | exact Hadded].
Defined.

End HandleCompletionExamples.

(** ** The models handler *)
Section Models.
Context (localeCompare : string → string → Z) (Date_now : nat → Z).

Lemma insert_Permutation {A} (compareFn : A → A → Z) (x : A) (l : list A) :
  Handlers.insert compareFn x l ≡ₚ x :: l.
Proof.
  induction l as [|y l IH]; simpl; [done|].
  destruct (_ <=? _)%Z; [done|]. rewrite IH. apply Permutation_swap.
Qed.

Lemma sort_Permutation {A} (compareFn : A → A → Z) (l : list A) :
  Handlers.sort compareFn l ≡ₚ l.
Proof.
  unfold Handlers.sort. induction l as [|x l IH]; simpl; [done|].
  by rewrite insert_Permutation, IH.
Qed.

Lemma insert_Sorted {A} (compareFn : A → A → Z) (x : A) (l : list A) :
  (∀ a b, (compareFn a b ≤ 0 ∨ compareFn b a ≤ 0)%Z) →
  Sorted (λ a b, (compareFn a b ≤ 0)%Z) l →
  Sorted (λ a b, (compareFn a b ≤ 0)%Z) (Handlers.insert compareFn x l).
Proof.
  intros Htotal. induction l as [|y l IH]; intros Hl; simpl.
  - by repeat constructor.
  - destruct (Z.leb_spec (compareFn x y) 0) as [Hle|Hgt].
    + constructor; [done|]. by constructor.
    + apply Sorted_inv in Hl as [Hl Hhd]. constructor; [by apply IH|].
      destruct l as [|z l]; simpl.
      * constructor. destruct (Htotal x y); [lia|done].
      * destruct (Z.leb_spec (compareFn x z) 0).
        -- constructor. destruct (Htotal x y); [lia|done].
        -- constructor. by apply HdRel_inv in Hhd.
Qed.

Lemma sort_Sorted {A} (compareFn : A → A → Z) (l : list A) :
  (∀ a b, (compareFn a b ≤ 0 ∨ compareFn b a ≤ 0)%Z) →
  Sorted (λ a b, (compareFn a b ≤ 0)%Z) (Handlers.sort compareFn l).
Proof.
  intros Htotal. unfold Handlers.sort. induction l as [|x l IH]; simpl.
  - constructor.
  - by apply insert_Sorted.
Qed.

Lemma imap_toModel (f : nat → nat) (models : ModelsList) :
  Handlers.id <$> imap (λ i, Handlers.toModel Date_now (f i)) models =
    ModelInfo.id <$> models ∧
  Forall (λ m, ∃ i model, model ∈ models ∧ m = Handlers.toModel Date_now i model)
         (imap (λ i, Handlers.toModel Date_now (f i)) models).
Proof.
  revert f. induction models as [|model models IH]; intros f; [done|].
  cbn [imap fmap list_fmap]. destruct (IH (f ∘ S)) as [Hid Hall]. split.
  - f_equal. apply Hid.
  - constructor.
    + exists (f 0), model. split; [apply list_elem_of_here | done].
    + eapply Forall_impl; [apply Hall|]. simpl.
      intros m (i & model' & Hin & ->). exists i, model'.
      split; [by apply list_elem_of_further | done].
Qed.

(** X15.  With a [localeCompare] that is a consistent comparison
    (the sign of comparing [b] with [a] is the opposite of the sign of
    comparing [a] with [b], and being at or before is transitive:
    the conditions under which the order that [sort] gives is
    determined), [handleModels] never throws and changes nothing, also when no
    provider is registered; the list it returns has exactly one entry
    per alias of the table and no other entry, each owned by [system]
    and created at the second of a reading of the clock, and is
    sorted by [localeCompare] of the ids. *)
Theorem handleModels_lists_the_aliases (w : World) :
  (∀ a b : string, (localeCompare a b < 0 ↔ 0 < localeCompare b a)%Z) →
  (∀ a b c : string,
     (localeCompare a b ≤ 0 → localeCompare b c ≤ 0 → localeCompare a c ≤ 0)%Z) →
  ∃ models,
    Handlers.handleModels localeCompare Date_now w = (Return models, w) ∧
    (∀ alias,
       alias ∈ Handlers.id <$> models ↔
       is_Some (modelAliasesMapping (manager w) !! alias)) ∧
    NoDup (Handlers.id <$> models) ∧
    Forall (λ m, Handlers.owned_by m = "system" ∧
                 ∃ i, Handlers.created m = (Date_now i / 1000)%Z) models ∧
    Sorted (λ a b, (localeCompare (Handlers.id a) (Handlers.id b) ≤ 0)%Z) models.
Proof.
  intros Hsign _.
  assert (Htotal : ∀ a b : string,
            (localeCompare a b ≤ 0 ∨ localeCompare b a ≤ 0)%Z).
  { intros a b. destruct (Z.leb_spec (localeCompare a b) 0) as [Hle|Hgt]; [by left|].
    right. apply (Hsign b a) in Hgt. lia. }
  unfold Handlers.handleModels, ProviderRouter.models,
    ProviderManager.getModelAliasesMapping.
  unfold_monad. cbn [err data ResultOf Result_ manager].
  eexists. split; [reflexivity|].
  set (aliases := fst <$> map_to_list (modelAliasesMapping (manager w))).
  set (listed := (λ alias, ModelInfo.mk alias None None []) <$> aliases).
  destruct (imap_toModel id listed) as [Hid Hall].
  assert (Hids : Handlers.id <$>
                   Handlers.sort (λ a b, localeCompare (Handlers.id a) (Handlers.id b))
                     (imap (Handlers.toModel Date_now) listed) ≡ₚ aliases).
  { rewrite sort_Permutation.
    change (imap (Handlers.toModel Date_now) listed)
      with (imap (λ i, Handlers.toModel Date_now (id i)) listed).
    rewrite Hid. subst listed. rewrite <- list_fmap_compose.
    by rewrite list_fmap_id. }
  split_and!.
  - intros alias. rewrite Hids. subst aliases.
    rewrite list_elem_of_fmap. split.
    + intros [[k v] [-> Hin]]. apply elem_of_map_to_list in Hin. by eauto.
    + intros [v Hv]. exists (alias, v). split; [done|]. by apply elem_of_map_to_list.
  - rewrite Hids. apply NoDup_fst_map_to_list.
  - rewrite sort_Permutation.
    eapply Forall_impl; [apply Hall|]. simpl.
    intros m (i & model & Hin & ->). subst listed.
    apply list_elem_of_fmap in Hin as (alias & -> & _). simpl. by eauto.
  - by apply (sort_Sorted (λ a b, localeCompare (Handlers.id a) (Handlers.id b))).
Qed.

End Models.

Section ModelsExamples.

Lemma handleModels_lists_the_aliases_witness :
  (∀ a b : string, (Fixtures.byLength a b < 0 ↔ 0 < Fixtures.byLength b a)%Z) ∧
  (∀ a b c : string,
     (Fixtures.byLength a b ≤ 0 → Fixtures.byLength b c ≤ 0 →
      Fixtures.byLength a c ≤ 0)%Z) ∧
  Handlers.handleModels Fixtures.byLength Fixtures.noon Fixtures.world =
    (Return [Handlers.mkModel "acme/gpt" 1700000000 "system"], Fixtures.world).
Proof.
  assert (Hsign : ∀ a b : string,
            (Fixtures.byLength a b < 0 ↔ 0 < Fixtures.byLength b a)%Z).
  { intros a b. unfold Fixtures.byLength. lia. }
  assert (Htrans : ∀ a b c : string,
            (Fixtures.byLength a b ≤ 0 → Fixtures.byLength b c ≤ 0 →
             Fixtures.byLength a c ≤ 0)%Z).
  { intros a b c. unfold Fixtures.byLength. lia. }
  split; [exact Hsign|]. split; [exact Htrans|].
  destruct (handleModels_lists_the_aliases Fixtures.byLength Fixtures.noon
              Fixtures.world Hsign Htrans) as (models & Hrun & _).
  rewrite Hrun. f_equal. f_equal.
  assert (Hsame : Handlers.handleModels Fixtures.byLength Fixtures.noon Fixtures.world =
                    (Return [Handlers.mkModel "acme/gpt" 1700000000 "system"],
                     Fixtures.world)) by (vm_compute; reflexivity).
  rewrite Hrun in Hsame. by injection Hsame.
Defined.

End ModelsExamples.

(** ** The emulated stream: what a session writes *)
Section Session.
Import FakeStream.
Context (stringify : Json → string) (closedMessage : string).
Context (request : Request.t) (tempId : string) (tempCreated : Z).

Local Abbreviation step := (FakeStream.step stringify closedMessage request tempId tempCreated).
Local Abbreviation run := (FakeStream.run stringify closedMessage request tempId tempCreated).

Ltac crunch :=
  unfold FakeStream.step, afterCompletion, onAnswer, onError, sendError, sendEmptyData,
    cancel, FakeStream.safeEnqueue, closeQuietly, controller_enqueue, controller_close,
    stopTimer, set_isCancelled, set_isCompleted, set_settled, set_controller, act,
    FakeStream.get;
  unfold_monad; cbn.

(** The first answer: the interval is off afterwards, and what is
    written, if anything, is the frames of the answer. *)
Lemma step_settle (s : Session) (outcome : Outcome (Result Response.t)) :
  settled s = false →
  let s' := snd (step (Settle outcome) s) in
  settled s' = true ∧ fakeStreamTimer s' = false ∧
  (frames s' = frames s ∨
   isCancelled s = false ∧ isCompleted s = false ∧ controller s = Open ∧
   frames s' = frames s ++ answerFrames stringify outcome).
Proof.
  destruct s as [cancelled completed timer c done acts]. simpl. intros ->.
  destruct (Str.includes closedMessage "closed") eqn:Hinc.
  all: destruct outcome as [[[[response|e]|] [e'|]]|e];
    try destruct (Response.choices response) as [|firstChoice others] eqn:Hchoices;
    destruct cancelled, completed, timer, c; crunch;
    rewrite ?Hchoices; cbn; repeat (rewrite Hinc; cbn).
  all: unfold frames, answerFrames, failureMessage, successFrames; cbn;
    rewrite ?Hchoices; rewrite ?omap_app; cbn; rewrite ?app_nil_r.
  all: try (split; [reflexivity|split; [reflexivity|left; reflexivity]]).
  all: split; [reflexivity|split; [reflexivity|right; rewrite <- ?List.app_assoc; auto]].
Qed.

(** A step other than the first answer writes at most one keep-alive
    frame, and only while the interval runs. *)
Lemma step_other (i : Input) (s : Session) :
  (∀ outcome, i = Settle outcome → settled s = true) →
  let s' := snd (step i s) in
  settled s' = settled s ∧
  (fakeStreamTimer s' = true → fakeStreamTimer s = true) ∧
  (frames s' = frames s ∨
   fakeStreamTimer s = true ∧
   frames s' = frames s ++ [emptyData stringify request tempId tempCreated]).
Proof.
  destruct s as [cancelled completed timer c done acts]. simpl. intros Hsettled.
  destruct (Str.includes closedMessage "closed") eqn:Hinc.
  all: destruct i as [|outcome| |];
    [ | rewrite (Hsettled outcome eq_refl); cbn; by auto | | ].
  all: destruct cancelled, completed, timer, c; crunch; repeat (rewrite Hinc; cbn).
  all: unfold frames; cbn; rewrite ?omap_app; cbn; rewrite ?app_nil_r.
  all: try (split; [reflexivity|split; [done|left; reflexivity]]).
  all: split; [reflexivity|split; [done|right; auto]].
Qed.

Lemma run_snoc (inputs : list Input) (i : Input) (s : Session) :
  run (inputs ++ [i]) s = snd (step i (run inputs s)).
Proof. unfold FakeStream.run. by rewrite foldl_app. Qed.

(** The frames of a session, before and after the answer. *)
Lemma run_shape (inputs : list Input) :
  ∃ keepAlives tail,
    frames (run inputs started) =
      replicate keepAlives (emptyData stringify request tempId tempCreated) ++ tail ∧
    (settled (run inputs started) = false ∧ tail = [] ∨
     settled (run inputs started) = true ∧
     fakeStreamTimer (run inputs started) = false ∧
     (tail = [] ∨
      ∃ outcome, Settle outcome ∈ inputs ∧ tail = answerFrames stringify outcome)).
Proof.
  induction inputs as [|i inputs IH] using rev_ind.
  - exists 0, []. split; [done|]. by left.
  - rewrite run_snoc. destruct IH as (k & tail & Hframes & Hstate).
    set (s := run inputs started) in *.
    destruct (settled s) eqn:Hsettled.
    + (* the answer has been dealt with: nothing more is written *)
      destruct Hstate as [[? _]|(_ & Htimer & Htail)]; [done|].
      destruct (step_other i s) as (Hs' & Ht' & Hf'); [done|].
      destruct Hf' as [Hf'|[? _]]; [|congruence].
      exists k, tail. split; [congruence|]. right.
      split; [congruence|]. split.
      { destruct (fakeStreamTimer (snd (step i s))) eqn:E; [|done].
        rewrite Ht' in Htimer; done. }
      destruct Htail as [->|(outcome & Hin & ->)]; [by left|]. right.
      exists outcome. split; [|done]. apply elem_of_app. by left.
    + destruct Hstate as [[_ ->]|[? _]]; [|done]. rewrite app_nil_r in Hframes.
      destruct i as [|outcome| |].
      2: { destruct (step_settle s outcome Hsettled) as (Hs' & Ht' & Hf').
           destruct Hf' as [Hf'|(_ & _ & _ & Hf')].
           - exists k, []. rewrite app_nil_r. split; [congruence|]. right. by auto.
           - exists k, (answerFrames stringify outcome). split; [congruence|].
             right. split; [done|]. split; [done|]. right.
             exists outcome. split; [|done]. apply elem_of_app. right.
             apply list_elem_of_here. }
      all: match goal with
           | |- context [FakeStream.step _ _ _ _ _ ?i ?s0] =>
               destruct (step_other i s0) as (Hs' & _ & Hf'); [by intros|]
           end.
      all: destruct Hf' as [Hf'|[_ Hf']].
      all: try (exists k, []; rewrite app_nil_r; split; [congruence|];
                left; split; [congruence|done]).
      all: exists (S k), []; rewrite app_nil_r; split; [|left; split; [congruence|done]].
      all: rewrite Hf', Hframes; clear;
        induction k as [|k IH]; [done|]; simpl; by f_equal.
Qed.

(** The frames of an answer, by the kind of the answer. *)
Lemma answerFrames_cases (outcome : Outcome (Result Response.t)) :
  (∃ r response,
     outcome = Return r ∧ err r = None ∧ data r = Some (PValue response) ∧
     answerFrames stringify outcome = successFrames stringify response) ∨
  (∃ msg,
     failureMessage outcome = Some msg ∧
     answerFrames stringify outcome = [errorData stringify msg]).
Proof.
  unfold answerFrames.
  destruct outcome as [[[[response|e]|] [e'|]]|e]; simpl;
    first [ by right; eexists | by left; eexists _, _ ].
Qed.

(** What one event does to the interval. *)
Lemma step_timer (i : Input) (s : Session) :
  let s' := snd (step i s) in
  (if fakeStreamTimer s
   then fakeStreamTimer s' = true ∧ clearings s' = clearings s ∨
        fakeStreamTimer s' = false ∧ clearings s' = S (clearings s)
   else fakeStreamTimer s' = false ∧ clearings s' = clearings s) ∧
  (i = Cancel → fakeStreamTimer s' = false) ∧
  (∀ outcome, i = Settle outcome → fakeStreamTimer s' = false ∨ settled s = true) ∧
  (settled s = true → settled s' = true) ∧
  (∀ outcome, i = Settle outcome → settled s' = true).
Proof.
  destruct s as [cancelled completed timer c done acts].
  assert (Hone : ∀ more,
            List.length (List.filter is_ClearInterval (acts ++ ClearInterval :: more)) =
            S (List.length (List.filter is_ClearInterval acts)
               + List.length (List.filter is_ClearInterval more))).
  { intros more. rewrite List.filter_app, List.length_app. simpl. lia. }
  assert (Hnone : ∀ more,
            List.length (List.filter is_ClearInterval (acts ++ more)) =
            List.length (List.filter is_ClearInterval acts)
            + List.length (List.filter is_ClearInterval more)).
  { intros more. by rewrite List.filter_app, List.length_app. }
  destruct i as [|outcome| |].
  2: destruct done.
  2: { destruct timer; cbn; split_and!; try done; try (intros; by auto);
       left; by split. }
  all: destruct (Str.includes closedMessage "closed") eqn:Hinc.
  all: try (destruct outcome as [[[[response|e]|] [e'|]]|e];
            try destruct (Response.choices response) as [|firstChoice others] eqn:Hchoices).
  all: destruct cancelled, completed, timer, c; crunch;
    rewrite ?Hchoices; cbn; repeat (rewrite Hinc; cbn).
  all: unfold clearings; cbn [actions]; rewrite <- ?List.app_assoc; cbn [app];
    rewrite ?Hone, ?Hnone; cbn [List.filter is_ClearInterval List.length].
  all: split_and!; try done; try (intros; by auto).
  all: first [ lia | left; split; [done|lia] | right; split; [done|lia]
             | split; [done|lia] ].
Qed.

Lemma run_timer (inputs : list Input) :
  let s := run inputs started in
  clearings s = (if fakeStreamTimer s then 0 else 1) ∧
  (settled s = true → fakeStreamTimer s = false) ∧
  ((∃ outcome, Settle outcome ∈ inputs) → settled s = true) ∧
  (Cancel ∈ inputs → fakeStreamTimer s = false).
Proof.
  induction inputs as [|i inputs IH] using rev_ind.
  - simpl. split_and!; try done.
    + by intros [? ?%elem_of_nil].
    + by intros ?%elem_of_nil.
  - rewrite run_snoc. cbv zeta in IH. destruct IH as (Hc & Hst & Hse & Hca).
    set (s := run inputs started) in *.
    destruct (step_timer i s) as (Ht & Hcancel & Hsettle & Hmono & Hset).
    cbv zeta in *. set (s' := snd (step i s)) in *.
    assert (Hoff : fakeStreamTimer s = false → fakeStreamTimer s' = false).
    { intros E. rewrite E in Ht. by destruct Ht. }
    split_and!.
    + destruct (fakeStreamTimer s) eqn:E.
      * destruct Ht as [[-> ->]|[-> ->]]; lia.
      * destruct Ht as [-> ->]. lia.
    + intros Hs'. destruct (settled s) eqn:E; [by auto|].
      assert (Hother : (∀ outcome, i ≠ Settle outcome) → settled s' = settled s).
      { intros Hno. destruct (step_other i s) as (Hsame & _); [|done].
        intros outcome Ho. by destruct (Hno outcome). }
      destruct i as [|outcome| |].
      2: { destruct (Hsettle outcome eq_refl); [done|congruence]. }
      all: rewrite Hother in Hs' by done; congruence.
    + intros [outcome [Hin|Heq%list_elem_of_singleton]%elem_of_app].
      * apply Hmono, Hse. by eauto.
      * by apply (Hset outcome).
    + intros [Hin|Heq%list_elem_of_singleton]%elem_of_app.
      * by apply Hoff, Hca.
      * by apply Hcancel.
Qed.

(** X16.  When the promise of [autoRetryCompletion] settles without a
    response while the session is live (no flag set, channel open),
    the emitter clears the interval if it runs, writes exactly one
    error frame and closes the channel; neither flag is set.  The
    message of the frame is that of [err] if there is one,
    [Unknown error] if there is neither [err] nor data, and the
    message of the error thrown otherwise: the rejection of the
    promise, or the [TypeError] of the success log when the data is an
    [Error] object. *)
Theorem failure_emission (s : Session) (outcome : Outcome (Result Response.t))
    (msg : string) :
  isCancelled s = false → isCompleted s = false → controller s = Open →
  settled s = false →
  failureMessage outcome = Some msg →
  step (Settle outcome) s =
    (Return tt,
     mkSession false false false Closed true
       (actions s ++ (if fakeStreamTimer s then [ClearInterval] else [])
          ++ [Enqueue (errorData stringify msg); Close])).
Proof.
  destruct s as [cancelled completed timer c done acts]. simpl.
  intros -> -> -> -> Hmsg.
  destruct outcome as [[[[response|e]|] [e'|]]|e]; simpl in Hmsg;
    try discriminate Hmsg; injection Hmsg as <-;
    destruct timer; crunch; rewrite <- ?List.app_assoc; reflexivity.
Qed.

(** X17.  Whatever happens to a session after [start] reached its
    [await], in whatever order (the interval fires, the promise
    settles, the consumer cancels, the channel is closed), the frames
    written are some keep-alive frames, all the same, followed by
    nothing, by the frames of one response that settled the promise,
    or by one error frame for an outcome that settled it.  So no
    keep-alive frame follows a frame of the answer, and no session
    writes the frames of a response and an error frame. *)
Theorem stream_shape (inputs : list Input) :
  ∃ keepAlives tail,
    frames (run inputs started) =
      replicate keepAlives (emptyData stringify request tempId tempCreated) ++ tail ∧
    (tail = [] ∨
     (∃ r response,
        Settle (Return r) ∈ inputs ∧ err r = None ∧ data r = Some (PValue response) ∧
        tail = successFrames stringify response) ∨
     (∃ outcome msg,
        Settle outcome ∈ inputs ∧ failureMessage outcome = Some msg ∧
        tail = [errorData stringify msg])).
Proof.
  destruct (run_shape inputs) as (k & tail & Hframes & Hstate).
  exists k, tail. split; [done|].
  destruct Hstate as [[_ ->]|(_ & _ & [->|(outcome & Hin & ->)])]; [by left|by left|].
  right. destruct (answerFrames_cases outcome)
    as [(r & response & -> & Herr & Hdata & ->)|(msg & Hmsg & ->)].
  - left. by exists r, response.
  - right. by exists outcome, msg.
Qed.

(** X18.  When the message of the [TypeError] of a closed controller
    contains [closed], no callback of a session lets an exception
    escape, in any state and for any event: neither the interval
    callback, nor [start] after its [await] (whether the promise
    resolved, with whatever result, or rejected), nor [cancel]. *)
Theorem step_never_throws (i : Input) (s : Session) :
  Str.includes closedMessage "closed" = true →
  fst (step i s) = Return tt.
Proof.
  intros Hinc. destruct s as [cancelled completed timer c done acts].
  destruct i as [|[[[[response|e]|] [e'|]]|e]| |];
    try destruct (Response.choices response) as [|firstChoice others] eqn:Hchoices;
    destruct cancelled, completed, timer, c, done; crunch;
    rewrite ?Hchoices; cbn; repeat (rewrite Hinc; cbn); reflexivity.
Qed.

(** X19.  A session calls [clearInterval] at most once, whatever
    happens and in whatever order: the interval still runs and was
    never cleared, or it is [null] and was cleared exactly once.  Once
    the promise has settled or the consumer has cancelled, it is
    cleared. *)
Theorem interval_cleared_once (inputs : list Input) :
  let s := run inputs started in
  clearings s = (if fakeStreamTimer s then 0 else 1) ∧
  ((∃ outcome, Settle outcome ∈ inputs) ∨ Cancel ∈ inputs →
   fakeStreamTimer s = false ∧ clearings s = 1).
Proof.
  destruct (run_timer inputs) as (Hc & Hst & Hse & Hca). cbv zeta in *.
  split; [done|]. intros H.
  assert (Hoff : fakeStreamTimer (run inputs started) = false).
  { destruct H as [H|H]; [by apply Hst, Hse | by apply Hca]. }
  split; [done|]. by rewrite Hc, Hoff.
Qed.

End Session.

(** ** The emulated stream over the retry loop *)
Section SessionOfRetry.
Import FakeStream.
Context (up : Upstream.t).
Context (stringify : Json → string) (closedMessage : string).
Context (request : Request.t) (tempId : string) (tempCreated : Z).


End SessionOfRetry.

Section SessionExamples.
Import FakeStream.

Lemma failure_emission_witness :
  failureMessage (Return (ResultOfError Handler.maxRetriesExceeded)) =
    Some (message Handler.usageOfUndefined) ∧
  step Fixtures.stringify Fixtures.closedMessage (Fixtures.requestFor "acme/gpt")
       "chatcmpl-temp" 1700000000
       (Settle (Return (ResultOfError Handler.maxRetriesExceeded))) started =
    (Return tt,
     mkSession false false false Closed true
       [ClearInterval;
        Enqueue (errorData Fixtures.stringify (message Handler.usageOfUndefined));
        Close]).
Proof.
  split; [reflexivity|].
  exact (failure_emission Fixtures.stringify Fixtures.closedMessage
           (Fixtures.requestFor "acme/gpt") "chatcmpl-temp" 1700000000 started
           (Return (ResultOfError Handler.maxRetriesExceeded))
           (message Handler.usageOfUndefined)
           eq_refl eq_refl eq_refl eq_refl eq_refl).
Defined.

Lemma step_never_throws_witness :
  Str.includes Fixtures.closedMessage "closed" = true ∧
  fst (step Fixtures.stringify Fixtures.closedMessage (Fixtures.requestFor "acme/gpt")
            "chatcmpl-temp" 1700000000
            (Settle (Return (ResultOfError Handler.maxRetriesExceeded)))
            (run Fixtures.stringify Fixtures.closedMessage
                 (Fixtures.requestFor "acme/gpt") "chatcmpl-temp" 1700000000
                 [PeerClosed] started)) = Return tt.
Proof.
  split; [reflexivity|].
  apply (step_never_throws Fixtures.stringify Fixtures.closedMessage
           (Fixtures.requestFor "acme/gpt") "chatcmpl-temp" 1700000000).
  reflexivity.
Defined.


End SessionExamples.

(** ** The client of an OpenAI-compatible provider *)
Section Client.
Import OpenAIClient.
Context (axios : list Call → Call → Axios).
Context (stringify : Json → string).
Context (parseError : Json → option ErrorData).
Context (parseCompletion : Json → Response.t + string).
Context (parseModels : Json → ModelsList + string).

Local Abbreviation fetchModels := (OpenAIClient.fetchModels axios stringify parseModels).
Local Abbreviation create := (OpenAIClient.create axios stringify parseModels).
Local Abbreviation completion :=
  (OpenAIClient.completion axios stringify parseError parseCompletion).
Local Abbreviation models := (OpenAIClient.models axios stringify parseModels).
Local Abbreviation refreshModels := (OpenAIClient.refreshModels axios stringify parseModels).

(** A fetch makes one request and answers with a payload; the payload
    is a list exactly when the request is answered with a body that
    parses as one. *)
Lemma fetchModels_spec (s : State) :
  ∃ payload,
    fetchModels s =
      (Return (Result_ (Some payload)),
       mkState (cachedModels s) (calls s ++ [Get "/models"])) ∧
    ∀ modelsList,
      payload = PValue modelsList ↔
      ∃ body, axios (calls s) (Get "/models") = Resolved body ∧
              parseModels body = inl modelsList.
Proof.
  unfold OpenAIClient.fetchModels, OpenAIClient.request, bind.
  destruct (axios (calls s) (Get "/models")) as [body|response msg|error|text] eqn:Hanswer.
  - destruct (parseModels body) as [modelsList|zodMessage] eqn:Hparse.
    + eexists. split; [reflexivity|]. intros l. split.
      * intros [= <-]. by eauto.
      * intros (? & [= <-] & H). congruence.
    + eexists. split; [reflexivity|]. intros l. split; [done|].
      intros (? & [= <-] & H). congruence.
  - eexists. split; [reflexivity|]. intros l. split; [done|]. by intros (? & ? & _).
  - eexists. split; [reflexivity|]. intros l. split; [done|]. by intros (? & ? & _).
  - eexists. split; [reflexivity|]. intros l. split; [done|]. by intros (? & ? & _).
Qed.

(** X21.  [create] of the OpenAI client reports success whatever the
    upstream answers: it makes one [GET /models] and returns the void
    result, with neither error nor data, also when the request
    failed or the body did not parse.  What it caches is the list of
    models exactly when the request was answered with a body that
    parses as a list, and the [Error] object of the failure otherwise;
    [models] then returns what was cached, without another request. *)
Theorem create_always_succeeds (s : State) :
  ∃ payload,
    create s =
      (Return ResultVoid, mkState (Some payload) (calls s ++ [Get "/models"])) ∧
    (∀ modelsList,
       payload = PValue modelsList ↔
       ∃ body, axios (calls s) (Get "/models") = Resolved body ∧
               parseModels body = inl modelsList) ∧
    models (mkState (Some payload) (calls s ++ [Get "/models"])) =
      (Return (Result_ (Some payload)),
       mkState (Some payload) (calls s ++ [Get "/models"])).
Proof.
  destruct (fetchModels_spec s) as (payload & Hfetch & Hlist).
  exists payload. split; [|by split].
  unfold OpenAIClient.create, try_catch, bind. by rewrite Hfetch.
Qed.

(** X22.  The cache of the OpenAI client: with something cached,
    [models] returns it and makes no request; with nothing cached it
    fetches, and leaves the cache empty, so that the next call
    fetches again.  [refreshModels] always makes one request, returns
    what the fetch gave and caches it, replacing what was cached, also
    when the fetch failed; in no case is [err] set. *)
Theorem models_cache (s : State) :
  (∀ cached,
     cachedModels s = Some cached →
     models s = (Return (Result_ (Some cached)), s)) ∧
  (cachedModels s = None →
   models s = fetchModels s ∧ cachedModels (snd (models s)) = None) ∧
  ∃ payload,
    fetchModels s =
      (Return (Result_ (Some payload)),
       mkState (cachedModels s) (calls s ++ [Get "/models"])) ∧
    refreshModels s =
      (Return (Result_ (Some payload)),
       mkState (Some payload) (calls s ++ [Get "/models"])).
Proof.
  split_and!.
  - intros cached H. unfold OpenAIClient.models, bind, OpenAIClient.get. by rewrite H.
  - intros H. unfold OpenAIClient.models, bind, OpenAIClient.get. rewrite H.
    split; [done|]. by destruct (fetchModels_spec s) as (payload & -> & _).
  - destruct (fetchModels_spec s) as (payload & Hfetch & _). exists payload.
    split; [done|]. unfold OpenAIClient.refreshModels, bind. by rewrite Hfetch.
Qed.

(** X23.  [completion] of the OpenAI client never throws and never
    sets [err]: it posts the request once to [/chat/completions],
    leaves the cache alone, and returns a result whose data is the
    response exactly when the request was answered with a body that
    does not parse as an error and parses as a completion.  A body
    that parses as an error gives the [Error] built from it, as data,
    even if the body would parse as a completion too. *)
Theorem completion_answer (req : Request.t) (s : State) :
  ∃ payload,
    completion req s =
      (Return (Result_ (Some payload)),
       mkState (cachedModels s) (calls s ++ [Post "/chat/completions" req])) ∧
    (∀ response,
       payload = PValue response ↔
       ∃ body, axios (calls s) (Post "/chat/completions" req) = Resolved body ∧
               parseError body = None ∧ parseCompletion body = inl response) ∧
    (∀ body errorData,
       axios (calls s) (Post "/chat/completions" req) = Resolved body →
       parseError body = Some errorData →
       payload = PError (newError (bodyError errorData))).
Proof.
  unfold OpenAIClient.completion, OpenAIClient.request, bind.
  destruct (axios (calls s) (Post "/chat/completions" req))
    as [body|response msg|error|text] eqn:Hanswer.
  - destruct (parseError body) as [errorData|] eqn:Herror.
    + eexists. split; [reflexivity|]. split.
      * intros r. split; [done|]. intros (? & [= <-] & ? & _). congruence.
      * intros ? ? [= <-] ?. congruence.
    + destruct (parseCompletion body) as [response|zodMessage] eqn:Hparse.
      * eexists. split; [reflexivity|]. split.
        -- intros r. split; [intros [= <-]; by eauto|].
           intros (? & [= <-] & _ & ?). congruence.
        -- intros ? ? [= <-] ?. congruence.
      * eexists. split; [reflexivity|]. split.
        -- intros r. split; [done|]. intros (? & [= <-] & _ & ?). congruence.
        -- intros ? ? [= <-] ?. congruence.
  - eexists. split; [reflexivity|]. split; [|done].
    intros r. split; [done|]. by intros (? & ? & _).
  - eexists. split; [reflexivity|]. split; [|done].
    intros r. split; [done|]. by intros (? & ? & _).
  - eexists. split; [reflexivity|]. split; [|done].
    intros r. split; [done|]. by intros (? & ? & _).
Qed.

End Client.

(** ** API keys, authentication and the log threshold *)
Section Keys.

Lemma foldl_insert_true (keys : list string) (m : gmap string bool) (key : string) :
  is_Some (foldl (λ keysMap key, <[key := true]> keysMap) m keys !! key) ↔
  key ∈ keys ∨ is_Some (m !! key).
Proof.
  revert m. induction keys as [|k keys IH]; intros m; cbn [foldl].
  - split; [by right|]. by intros [?%elem_of_nil|?].
  - rewrite IH. rewrite elem_of_cons.
    destruct (decide (key = k)) as [->|Hne].
    + rewrite lookup_insert_eq. split; [by auto|]. intros _. right. by eauto.
    + rewrite lookup_insert_ne by done. tauto.
Qed.

Lemma setConfig_state (config : ConfigFile.t) (s : ConfigStore.State) :
  ConfigStore.setConfig config s =
    (Return tt,
     ConfigStore.mkState (Some config)
       (foldl (λ keysMap key, <[key := true]> keysMap) ∅
              (AppConfig.keys (ConfigFile.app config)))).
Proof. done. Qed.

Lemma isValidKey_setConfig (config : ConfigFile.t) (s : ConfigStore.State) (key : string) :
  ConfigStore.isValidKey key (snd (ConfigStore.setConfig config s)) =
    (Return (bool_decide (key ∈ AppConfig.keys (ConfigFile.app config))),
     snd (ConfigStore.setConfig config s)).
Proof.
  rewrite setConfig_state. unfold ConfigStore.isValidKey. cbn [snd ConfigStore.keysMap].
  f_equal. f_equal. apply bool_decide_ext. rewrite foldl_insert_true.
  split; [|by left]. intros [?|[? ?]]; [done|]. by rewrite lookup_empty in *.
Qed.

(** X24.  After [setConfig], from whatever state, [getConfig] returns
    the configuration that was set, and [isValidKey] accepts exactly
    the keys of [app.keys] of that configuration: the keys of an
    earlier configuration are gone.  Before any [setConfig] no key is
    valid and [getConfig] throws. *)
Theorem setConfig_replaces_keys (config : ConfigFile.t) (s : ConfigStore.State) :
  let s1 := snd (ConfigStore.setConfig config s) in
  ConfigStore.getConfig s1 = (Return config, s1) ∧
  (∀ key,
     ConfigStore.isValidKey key s1 =
       (Return (bool_decide (key ∈ AppConfig.keys (ConfigFile.app config))), s1)) ∧
  (∀ key, ConfigStore.isValidKey key ConfigStore.loaded =
            (Return false, ConfigStore.loaded)) ∧
  (∃ e, ConfigStore.getConfig ConfigStore.loaded = (Throw e, ConfigStore.loaded)).
Proof.
  intros s1. subst s1. split_and!.
  - by rewrite setConfig_state.
  - intros key. apply isValidKey_setConfig.
  - intros key. unfold ConfigStore.isValidKey, ConfigStore.loaded. simpl.
    rewrite bool_decide_eq_false_2; [done|]. rewrite lookup_empty. by intros [? ?].
  - by eexists.
Qed.

(** X25.  With a configuration set, [AuthMiddleware] lets a request
    through exactly when its authorization header (the value under
    [authorization] if that is a non-empty string, else the one under
    [Authorization]) starts with [Bearer ] and the rest of it, with
    the white space at both ends removed, is one of the configured
    keys.  Every rejection carries the status 401 and the type
    [authentication_error]; the hook never throws and changes
    nothing. *)
Theorem AuthMiddleware_passes_iff
    (config : ConfigFile.t) (s : ConfigStore.State) (headers : gmap string string) :
  let s1 := snd (ConfigStore.setConfig config s) in
  (fst (Auth.AuthMiddleware headers s1) = Return Auth.Passed ↔
   ∃ authHeader,
     Auth.or_ (headers !! "authorization") (headers !! "Authorization") = Some authHeader ∧
     Str.startsWith authHeader "Bearer " = true ∧
     Str.trim (Str.slice authHeader 7) ∈ AppConfig.keys (ConfigFile.app config)) ∧
  (∀ status message type,
     fst (Auth.AuthMiddleware headers s1) = Return (Auth.Rejected status message type) →
     status = 401%Z ∧ type = "authentication_error") ∧
  (∃ verdict, Auth.AuthMiddleware headers s1 = (Return verdict, s1)).
Proof.
  intros s1. unfold Auth.AuthMiddleware.
  destruct (Auth.or_ (headers !! "authorization") (headers !! "Authorization"))
    as [[|c rest]|] eqn:Hheader.
  - split_and!.
    + split; [done|]. intros (? & [= <-] & [=] & _).
    + by intros ? ? ? [= <- <- <-].
    + by eexists.
  - destruct (Str.startsWith (String c rest) Auth.BearerTokenPrefix) eqn:Hprefix;
      cbn [negb].
    + unfold bind. subst s1. rewrite isValidKey_setConfig.
      case_bool_decide as Hkey; cbn [negb].
      * split_and!.
        -- split; [|done]. intros _. exists (String c rest). by split_and!.
        -- by intros ? ? ? [=].
        -- by eexists.
      * split_and!.
        -- split; [done|]. intros (? & [= <-] & _ & ?). done.
        -- by intros ? ? ? [= <- <- <-].
        -- by eexists.
    + split_and!.
      * split; [done|]. intros (? & [= <-] & ? & _).
        unfold Auth.BearerTokenPrefix in Hprefix. congruence.
      * by intros ? ? ? [= <- <- <-].
      * by eexists.
  - split_and!.
    + split; [done|]. by intros (? & [=] & _).
    + by intros ? ? ? [= <- <- <-].
    + by eexists.
Qed.

(** X26.  [shouldLog] never throws and changes nothing, also before
    any configuration is set: it answers whether the level of the
    message is at or above the level in force, which is [info] when
    no configuration is set or the configuration has no [logging]
    table.  So messages of level [error] are always logged, a level
    above a logged level is logged, and before configuration [debug]
    messages are dropped and [info] messages logged. *)
Theorem shouldLog_threshold (s : ConfigStore.State) :
  (∀ level,
     Logger.shouldLog level s =
       (Return (bool_decide (Logger.LOG_LEVELS (levelOf s) ≤ Logger.LOG_LEVELS level)%Z), s)) ∧
  fst (Logger.shouldLog LogLevel.error s) = Return true ∧
  (∀ level level',
     (Logger.LOG_LEVELS level ≤ Logger.LOG_LEVELS level')%Z →
     fst (Logger.shouldLog level s) = Return true →
     fst (Logger.shouldLog level' s) = Return true) ∧
  (ConfigStore.globalConfig s = None →
   fst (Logger.shouldLog LogLevel.debug s) = Return false ∧
   fst (Logger.shouldLog LogLevel.info s) = Return true).
Proof.
  assert (H : ∀ level,
            Logger.shouldLog level s =
              (Return (bool_decide (Logger.LOG_LEVELS (levelOf s)
                                    ≤ Logger.LOG_LEVELS level)%Z), s)).
  { intros level. unfold Logger.shouldLog, Logger.getLogLevel, levelOf,
      ConfigStore.getConfig, bind, try_catch, ret.
    destruct (ConfigStore.globalConfig s) as [config|]; cbn [fst snd].
    - f_equal. f_equal. destruct (Z.leb_spec (Logger.LOG_LEVELS
        (default LogLevel.info (ConfigFile.logging config))) (Logger.LOG_LEVELS level)).
      + by rewrite bool_decide_eq_true_2.
      + rewrite bool_decide_eq_false_2; [done|lia].
    - f_equal. f_equal. destruct (Z.leb_spec (Logger.LOG_LEVELS LogLevel.info)
                                    (Logger.LOG_LEVELS level)).
      + by rewrite bool_decide_eq_true_2.
      + rewrite bool_decide_eq_false_2; [done|lia]. }
  split_and!.
  - done.
  - rewrite H. cbn [fst]. f_equal. apply bool_decide_eq_true_2.
    destruct (levelOf s); simpl; lia.
  - intros level level' Hle. rewrite !H. cbn [fst]. intros [= Hl]. f_equal.
    apply bool_decide_eq_true in Hl. apply bool_decide_eq_true_2. lia.
  - intros Hnone. rewrite !H. unfold levelOf. rewrite Hnone. by split.
Qed.

End Keys.
